(** * Omen data models: markets, bets and their derived values

    A shallow embedding of
    [prediction_market_agent_tooling/markets/omen/data_models.py]:
    the outcome decoder [get_boolean_outcome], the market record
    [OmenMarket] with its implied probability and resolution, the
    bet-embedded market [OmenBetFPMM], and the bet record [OmenBet] with
    its profit and its projection to a [ResolvedBet].

    Conventions of the embedding.
    - A Python [int] is a [Z]; a Python [float] is a binary64 value, the
      primitive [float] of the kernel; [int / int] is Python's true
      division, the exact quotient rounded once to nearest-even.
    - A Python [str] is a [string]; [Optional[T]] is [option T].
    - An exception is a value of [exn]; code that can raise returns a
      [result], and evaluation order is the order of the binds.
    - The pydantic models are records.  Construction-time validation is
      the typing of the fields; nothing else is validated by the source.
    - Facts about float arithmetic go through the specification of the
      primitive floats ([FloatAxioms]): subtraction and comparison are
      those of IEEE 754 binary64, rounding to nearest, ties to even. *)

From Stdlib Require Import ZArith List String Ascii Bool Lia.
From Stdlib Require Import Zpower.
From Stdlib Require Import PrimFloat SpecFloat FloatOps FloatAxioms.
Import ListNotations.

Local Open Scope string_scope.
Local Open Scope Z_scope.

(** ** Exceptions and results *)

(** The [ValueError]s of the module, one constructor per raise site, and
    those of the builtins it calls. *)
Inductive value_error : Type :=
| NotBooleanOutcome (outcome_str : string)    (* get_boolean_outcome *)
| NoOutcomeTokenAmounts (title : string)      (* p_yes, amounts is None *)
| OutcomeCount (title : string) (n : nat)     (* p_yes, len(amounts) != 2 *)
| NotBinary (title : string) (n : nat)        (* boolean_outcome *)
| NotResolved (title : string)                (* boolean_outcome *)
| NoResolvedTime (title : string)             (* to_generic_resolved_bet *)
| NotInList (x : string)                      (* list.index *)
| InvalidLiteral (s : string)                 (* int(s, 16) *)
| ShouldNotBeNone.                            (* check_not_none *)

Inductive exn : Type :=
| ValueError (e : value_error)
| IndexError
| OverflowError
| ZeroDivisionError
| TimestampOutOfRange (timestamp : Z).      (* datetime.fromtimestamp *)

Inductive result (A : Type) : Type :=
| Ok (a : A)
| Err (e : exn).

Arguments Ok {A} a.
Arguments Err {A} e.

Definition bind {A B : Type} (r : result A) (k : A -> result B) : result B :=
  match r with
  | Ok a => k a
  | Err e => Err e
  end.

Definition raise {A : Type} (e : exn) : result A := Err e.

Declare Scope result_scope.
Delimit Scope result_scope with result.
Notation "x <- c ;; k" := (bind c (fun x => k))
  (at level 61, c at next level, right associativity) : result_scope.
Local Open Scope result_scope.

(** ** Builtins of the language *)

(** [l[i]]: an index below zero counts from the end, and an index out of
    range raises [IndexError]. *)
Definition getitem {A : Type} (l : list A) (i : Z) : result A :=
  let n := Z.of_nat (List.length l) in
  let j := if i <? 0 then i + n else i in
  if (j <? 0) || (n <=? j) then raise IndexError
  else match nth_error l (Z.to_nat j) with
       | Some x => Ok x
       | None => raise IndexError
       end.

(** [l.index(x)]: the first position of [x], or [ValueError]. *)
Fixpoint index_from (x : string) (l : list string) (i : Z) : result Z :=
  match l with
  | [] => raise (ValueError (NotInList x))
  | y :: l' => if String.eqb y x then Ok i else index_from x l' (i + 1)
  end.

Definition index (l : list string) (x : string) : result Z :=
  index_from x l 0.

(** [sum(l)] on integers. *)
Definition sum (l : list Z) : Z := fold_left Z.add l 0.

(** [int(s, 16)].  The grammar: optional surrounding whitespace, an
    optional sign, an optional [0x] or [0X] prefix (which may be followed
    by one underscore), then hexadecimal digits separated by single
    underscores.  Characters are code points below 256. *)
Definition is_space (c : ascii) : bool :=
  let n := nat_of_ascii c in
  (((9 <=? n) && (n <=? 13)) || (n =? 32) || (n =? 133) || (n =? 160))%nat.

Definition hex_digit (c : ascii) : option Z :=
  let n := Z.of_nat (nat_of_ascii c) in
  if (48 <=? n) && (n <=? 57) then Some (n - 48)
  else if (97 <=? n) && (n <=? 102) then Some (n - 87)
  else if (65 <=? n) && (n <=? 70) then Some (n - 55)
  else None.

Fixpoint lstrip (s : string) : string :=
  match s with
  | String c s' => if is_space c then lstrip s' else s
  | EmptyString => s
  end.

Fixpoint all_space (s : string) : bool :=
  match s with
  | String c s' => is_space c && all_space s'
  | EmptyString => true
  end.

(** The digits, after sign and prefix: [after_digit] tells whether the
    previous character was a digit (an underscore is allowed only then,
    and the literal may end only then). *)
Fixpoint hex_digits (acc : Z) (after_digit : bool) (s : string) : option Z :=
  match s with
  | EmptyString => if after_digit then Some acc else None
  | String c s' =>
      match hex_digit c with
      | Some d => hex_digits (16 * acc + d) true s'
      | None =>
          if after_digit then
            if Ascii.eqb c "_" then hex_digits acc false s'
            else if all_space s then Some acc else None
          else None
      end
  end.

Definition strip_prefix (s : string) : string :=
  match s with
  | String "0" (String x s') =>
      if Ascii.eqb x "x" || Ascii.eqb x "X" then
        match s' with
        | String "_" s'' => s''
        | _ => s'
        end
      else s
  | _ => s
  end.

Definition int_base16 (s : string) : result Z :=
  let s1 := lstrip s in
  let '(neg, s2) :=
    match s1 with
    | String "-" r => (true, r)
    | String "+" r => (false, r)
    | _ => (false, s1)
    end in
  match hex_digits 0 false (strip_prefix s2) with
  | Some n => Ok (if neg then - n else n)
  | None => raise (ValueError (InvalidLiteral s))
  end.

(** [a / b] on integers: [ZeroDivisionError] when [b] is zero,
    [OverflowError] when the rounded quotient is not a finite float. *)
Definition Z2SF (z : Z) : spec_float :=
  match z with
  | Z0 => S754_zero false
  | Zpos p => S754_finite false p 0
  | Zneg p => S754_finite true p 0
  end.

Definition int_truediv (a b : Z) : result float :=
  if b =? 0 then raise ZeroDivisionError
  else match SFdiv prec emax (Z2SF a) (Z2SF b) with
       | S754_infinity _ | S754_nan => raise OverflowError
       | q => Ok (SF2Prim q)
       end.

(** ** Numeric types of [gtypes]

    They are declared outside this module: [Wei] and [OmenOutcomeToken]
    are integers, [xDai], [USD] and [Probability] are floats, and an
    address is a string. *)

Definition HexAddress := string.
Definition Wei := Z.
Definition OmenOutcomeToken := Z.
Definition xDai := float.
Definition USD := float.
Definition Probability := float.

(** ** The outcome decoder *)

Definition OMEN_TRUE_OUTCOME : string := "Yes".
Definition OMEN_FALSE_OUTCOME : string := "No".

Definition get_boolean_outcome (outcome_str : string) : result bool :=
  if String.eqb outcome_str OMEN_TRUE_OUTCOME then Ok true
  else if String.eqb outcome_str OMEN_FALSE_OUTCOME then Ok false
  else raise (ValueError (NotBooleanOutcome outcome_str)).

(** [check_not_none] of [tools/utils.py], which is outside this module:
    it returns its argument when there is one and raises otherwise. *)
Definition check_not_none {A : Type} (value : option A) : result A :=
  match value with
  | Some v => Ok v
  | None => raise (ValueError ShouldNotBeNone)
  end.

(** ** Types of [markets/data_models.py]

    They are declared outside this module; each is modelled by the
    arguments this module constructs it from. *)

Module Currency.
Inductive t : Type := xDai | Mana.
End Currency.

Module Resolution.
Inductive t : Type := YES | NO | CANCEL | MKT.
End Resolution.

(** [Decimal(x)] of a float: the exact decimal expansion of [x]. *)
Inductive Decimal : Type :=
| Decimal_of_float (x : float).

Module BetAmount.
Record t : Type := mk { amount : Decimal; currency : Currency.t }.
End BetAmount.

Module ProfitAmount.
Record t : Type := mk { amount : xDai; currency : Currency.t }.
End ProfitAmount.

Module ResolvedBet.
Record t (datetime : Type) : Type := mk {
  amount : BetAmount.t;
  outcome : bool;
  created_time : datetime;
  market_question : string;
  market_outcome : bool;
  resolved_time : datetime;
  profit : ProfitAmount.t
}.
Arguments mk {datetime}.
Arguments amount {datetime}.
Arguments outcome {datetime}.
Arguments created_time {datetime}.
Arguments market_question {datetime}.
Arguments market_outcome {datetime}.
Arguments resolved_time {datetime}.
Arguments profit {datetime}.
End ResolvedBet.

(** ** [OmenMarket] *)

Module OmenMarket.

(** [outcomeTokenAmounts] is declared a list; [p_yes] tests it against
    [None] all the same, so the field is optional here. *)
Record t : Type := mk {
  id : HexAddress;
  title : string;
  collateralVolume : Wei;
  usdVolume : USD;
  collateralToken : HexAddress;
  outcomes : list string;
  outcomeTokenAmounts : option (list OmenOutcomeToken);
  outcomeTokenMarginalPrices : option (list xDai);
  fee : option Wei;
  resolutionTimestamp : option Z;
  answerFinalizedTimestamp : option Z;
  currentAnswer : option string;
  creationTimestamp : option Z
}.

Definition BET_AMOUNT_CURRENCY : Currency.t := Currency.xDai.

Definition is_open (m : t) : bool :=
  match currentAnswer m with None => true | Some _ => false end.

Definition is_resolved (m : t) : bool :=
  match answerFinalizedTimestamp m, currentAnswer m with
  | Some _, Some _ => true
  | _, _ => false
  end.

Definition market_maker_contract_address (m : t) : HexAddress := id m.

Definition collateral_token_contract_address (m : t) : HexAddress :=
  collateralToken m.

Definition outcomeTokenProbabilities (m : t) : option (list Probability) :=
  match outcomeTokenMarginalPrices m with
  | Some prices => Some (map (fun x : xDai => x) prices)
  | None => None
  end.

Definition p_yes (m : t) : result Probability :=
  match outcomeTokenAmounts m with
  | None => raise (ValueError (NoOutcomeTokenAmounts (title m)))
  | Some amounts =>
      if negb (Nat.eqb (List.length amounts) 2) then
        raise (ValueError (OutcomeCount (title m) (List.length amounts)))
      else
        true_index <- index (outcomes m) OMEN_TRUE_OUTCOME ;;
        if sum amounts =? 0 then Ok 0.5%float
        else
          true_amount <- getitem amounts true_index ;;
          q <- int_truediv true_amount (sum amounts) ;;
          Ok (1 - q)%float
  end.

Definition p_no (m : t) : result Probability :=
  p <- p_yes m ;;
  Ok (1 - p)%float.

Definition is_binary (m : t) : bool :=
  Nat.eqb (List.length (outcomes m)) 2.

Definition boolean_outcome (m : t) : result bool :=
  if negb (is_binary m) then
    raise (ValueError (NotBinary (title m) (List.length (outcomes m))))
  else if negb (is_resolved m) then
    raise (ValueError (NotResolved (title m)))
  else
    answer <- check_not_none (currentAnswer m) ;;
    i <- int_base16 answer ;;
    outcome <- getitem (outcomes m) i ;;
    get_boolean_outcome outcome.

Definition get_resolution_enum (m : t) : result (option Resolution.t) :=
  if negb (is_resolved m) then Ok None
  else
    b <- boolean_outcome m ;;
    if b then Ok (Some Resolution.YES) else Ok (Some Resolution.NO).

End OmenMarket.

(** ** [OmenBetCreator] and [OmenBetFPMM] *)

Module OmenBetCreator.
Record t : Type := mk { id : HexAddress }.
End OmenBetCreator.

Module OmenBetFPMM.

Record t : Type := mk {
  id : HexAddress;
  outcomes : list string;
  title : string;
  answerFinalizedTimestamp : option Z;
  resolutionTimestamp : option Z;
  currentAnswer : option string;
  isPendingArbitration : bool;
  arbitrationOccurred : bool;
  openingTimestamp : Z
}.

Definition is_resolved (m : t) : bool :=
  match answerFinalizedTimestamp m, currentAnswer m with
  | Some _, Some _ => true
  | _, _ => false
  end.

Definition is_binary (m : t) : bool :=
  Nat.eqb (List.length (outcomes m)) 2.

Definition boolean_outcome (m : t) : result bool :=
  if negb (is_binary m) then
    raise (ValueError (NotBinary (title m) (List.length (outcomes m))))
  else if negb (is_resolved m) then
    raise (ValueError (NotResolved (title m)))
  else
    answer <- check_not_none (currentAnswer m) ;;
    i <- int_base16 answer ;;
    outcome <- getitem (outcomes m) i ;;
    get_boolean_outcome outcome.

End OmenBetFPMM.

(** ** [OmenBet] *)

Module OmenBet.

Record t : Type := mk {
  id : HexAddress;
  title : string;
  collateralToken : HexAddress;
  outcomeTokenMarginalPrice : xDai;
  oldOutcomeTokenMarginalPrice : xDai;
  type : string;
  creator : OmenBetCreator.t;
  creationTimestamp : Z;
  collateralAmount : Wei;
  collateralAmountUSD : USD;
  feeAmount : Wei;
  outcomeIndex : Z;
  outcomeTokensTraded : Z;
  transactionHash : HexAddress;
  fpmm : OmenBetFPMM.t
}.

Definition boolean_outcome (b : t) : result bool :=
  outcome <- getitem (OmenBetFPMM.outcomes (fpmm b)) (outcomeIndex b) ;;
  get_boolean_outcome outcome.

Section External.

(** The collaborators the bet calls: [wei_to_xdai] of
    [tools/web3_utils.py], a pure unit conversion supplied from
    outside, and the local calendar of [datetime.fromtimestamp],
    which has no datetime for a timestamp the platform cannot
    represent. *)
Context (wei_to_xdai : Wei -> xDai).
Context {datetime : Type} (localtime : Z -> option datetime).

Definition fromtimestamp (timestamp : Z) : result datetime :=
  match localtime timestamp with
  | Some d => Ok d
  | None => raise (TimestampOutOfRange timestamp)
  end.

Definition creation_datetime (b : t) : result datetime :=
  fromtimestamp (creationTimestamp b).

Definition get_profit (b : t) : result ProfitAmount.t :=
  let bet_amount_xdai := wei_to_xdai (collateralAmount b) in
  chosen <- boolean_outcome b ;;
  resolved <- OmenBetFPMM.boolean_outcome (fpmm b) ;;
  let profit :=
    if Bool.eqb chosen resolved
    then (wei_to_xdai (outcomeTokensTraded b) - bet_amount_xdai)%float
    else (- bet_amount_xdai)%float in
  let profit := (profit - wei_to_xdai (feeAmount b))%float in
  Ok (ProfitAmount.mk profit Currency.xDai).

Definition to_generic_resolved_bet (b : t)
  : result (ResolvedBet.t datetime) :=
  if negb (OmenBetFPMM.is_resolved (fpmm b)) then
    raise (ValueError (NoResolvedTime (title b)))
  else
    let amount :=
      BetAmount.mk (Decimal_of_float (collateralAmountUSD b))
                   Currency.xDai in
    outcome <- boolean_outcome b ;;
    created_time <- fromtimestamp (creationTimestamp b) ;;
    let market_question := title b in
    market_outcome <- OmenBetFPMM.boolean_outcome (fpmm b) ;;
    resolution <-
      check_not_none (OmenBetFPMM.resolutionTimestamp (fpmm b)) ;;
    resolved_time <- fromtimestamp resolution ;;
    profit <- get_profit b ;;
    Ok (ResolvedBet.mk amount outcome created_time market_question
                       market_outcome resolved_time profit).

End External.

End OmenBet.

(** ** Auxiliary definitions for the statements *)

(** The decoding of the current answer that [OmenMarket.boolean_outcome]
    and [OmenBetFPMM.boolean_outcome] share once their guards have
    passed. *)
Definition decode_answer (outcomes : list string) (answer : string)
  : result bool :=
  i <- int_base16 answer ;;
  outcome <- getitem outcomes i ;;
  get_boolean_outcome outcome.

(** A float, as specified, that is not zero and has the sign [sx]. *)
Definition has_sign (sx : bool) (x : spec_float) : Prop :=
  match x with
  | S754_finite s _ _ | S754_infinity s => s = sx
  | _ => False
  end.

(** A float, as specified, that is neither infinite nor a NaN. *)
Definition SFfinite (x : spec_float) : bool :=
  match x with
  | S754_zero _ | S754_finite _ _ _ => true
  | _ => false
  end.

(** The state of a right shift as one integer: the mantissa followed by
    the round bit and the sticky bit. *)
Definition shr_code (mrs : shr_record) : Z :=
  4 * shr_m mrs + (if shr_r mrs then 2 else 0) + (if shr_s mrs then 1 else 0).

(** Rounding to nearest, ties to even, of a shifted mantissa. *)
Definition round_shr (mrs : shr_record) : Z :=
  round_nearest_even (shr_m mrs) (loc_of_shr_record mrs).

(** [m / 2^n] rounded to nearest, ties to even. *)
Definition rne_shift (m n : Z) : Z :=
  round_shr (fst (shr (Build_shr_record m false false) 0 n)).

(** The last step of [binary_round_aux]: the float of a mantissa and an
    exponent, infinite above the largest exponent. *)
Definition pack (sx : bool) (m e : Z) : spec_float :=
  match m with
  | Z0 => S754_zero sx
  | Zpos p =>
      if e <=? emax - prec then S754_finite sx p e else S754_infinity sx
  | Zneg _ => S754_nan
  end.

(** The mantissa and exponent that [binary_round] reaches from a
    positive mantissa at an exponent of the format. *)
Definition round_out (m e : Z) : Z * Z :=
  let d := Zdigits2 m in
  let F := fexp prec emax (d + e) in
  if d <=? 53 then (m * 2 ^ (e - F), F)
  else
    let mr := rne_shift m (d - 53) in
    if mr =? 2 ^ 53 then (2 ^ 52, F + 1) else (mr, F).

(** The order of two results of [round_out]: by exponent, then by
    mantissa. *)
Definition out_le (a b : Z * Z) : Prop :=
  snd a < snd b \/ (snd a = snd b /\ fst a <= fst b).

(** The exponent of a finite float; a zero fits any exponent. *)
Definition SFexp (x : spec_float) : Z :=
  match x with
  | S754_finite _ _ e => e
  | _ => emax - prec
  end.

(** The signed mantissa of a finite float at the exponent [E]. *)
Definition SFmant (x : spec_float) (E : Z) : Z :=
  match x with
  | S754_finite s m e => cond_Zopp s (Zpos m * 2 ^ (e - E))
  | _ => 0
  end.

(** Equality of floats up to the sign of zero. *)
Definition zero_equiv (a b : spec_float) : Prop :=
  a = b \/ exists s s', a = S754_zero s /\ b = S754_zero s'.

(** The mantissa and exponent that [binary_round_aux] reaches from a
    mantissa, with its location, that needs no left shift. *)
Definition round_aux_out (m e : Z) (l : location) : Z * Z :=
  let F := fexp prec emax (Zdigits2 m + e) in
  let mr := round_shr (fst (shr (shr_record_of_loc m l) e (F - e))) in
  if mr =? 2 ^ 53 then (2 ^ 52, F + 1) else (mr, F).

(** The state of a right shift, as [shr_code] numbers it, that
    represents the rational [a / b]: twice the integer part of [2a / b],
    plus one when [2a / b] is no integer. *)
Definition sticky (a b : Z) : Z :=
  2 * (2 * a / b) + (if (2 * a) mod b =? 0 then 0 else 1).

(** A market with other outcomes and token amounts, every other field
    unchanged. *)
Definition with_liquidity (m : OmenMarket.t) (outcomes : list string)
    (amounts : list OmenOutcomeToken) : OmenMarket.t :=
  OmenMarket.mk (OmenMarket.id m) (OmenMarket.title m)
    (OmenMarket.collateralVolume m) (OmenMarket.usdVolume m)
    (OmenMarket.collateralToken m) outcomes (Some amounts)
    (OmenMarket.outcomeTokenMarginalPrices m) (OmenMarket.fee m)
    (OmenMarket.resolutionTimestamp m)
    (OmenMarket.answerFinalizedTimestamp m) (OmenMarket.currentAnswer m)
    (OmenMarket.creationTimestamp m).





(** The implied probability as the specification words it: two token
    amounts and a "Yes" label are enough for [p_yes] to return. *)
Definition p_yes_candidate (m : OmenMarket.t) : Prop :=
  forall amounts : list OmenOutcomeToken,
    OmenMarket.outcomeTokenAmounts m = Some amounts ->
    List.length amounts = 2%nat ->
    In "Yes" (OmenMarket.outcomes m) ->
    (sum amounts = 0 -> OmenMarket.p_yes m = Ok 0.5%float) /\
    (sum amounts <> 0 ->
     exists (i : Z) (a : OmenOutcomeToken) (q : float),
       index (OmenMarket.outcomes m) "Yes" = Ok i /\
       getitem amounts i = Ok a /\
       int_truediv a (sum amounts) = Ok q /\
       OmenMarket.p_yes m = Ok (1 - q)%float).

(** The shape guard as the specification words it: a market whose
    outcomes are not two makes [p_yes] raise the shape error. *)
Definition p_yes_shape_candidate (m : OmenMarket.t) : Prop :=
  List.length (OmenMarket.outcomes m) <> 2%nat ->
  exists e,
    OmenMarket.p_yes m = Err (ValueError e) /\
    (e = NoOutcomeTokenAmounts (OmenMarket.title m) \/
     exists n, e = OutcomeCount (OmenMarket.title m) n).

(** The resolution as the specification words it: a resolved market
    always has YES or NO. *)
Definition resolution_enum_candidate (m : OmenMarket.t) : Prop :=
  (OmenMarket.is_resolved m = true ->
   OmenMarket.get_resolution_enum m = Ok (Some Resolution.YES) \/
   OmenMarket.get_resolution_enum m = Ok (Some Resolution.NO)) /\
  (OmenMarket.is_resolved m = false ->
   OmenMarket.get_resolution_enum m = Ok None).

(** The safety of the answer index as the specification words it: on a
    binary and resolved market the list access is in range only for the
    indices 0 and 1. *)
Definition answer_index_candidate (m : OmenMarket.t) : Prop :=
  forall (answer : string) (i : Z),
    OmenMarket.is_binary m = true ->
    OmenMarket.is_resolved m = true ->
    OmenMarket.currentAnswer m = Some answer ->
    int_base16 answer = Ok i ->
    OmenMarket.boolean_outcome m <> Err IndexError ->
    i = 0 \/ i = 1.


(** ** Instances of the collaborators and sample records *)

(** The conversion of web3 on the amounts it accepts, from 0 to
    [2^256 - 1] wei: one xDai is [10^18] wei, rounded once to a float. *)
Definition wei_per_xdai : Z := 10 ^ 18.

Definition wei_to_xdai_ether (wei : Wei) : xDai :=
  SF2Prim (SFdiv prec emax (Z2SF wei) (Z2SF wei_per_xdai)).

(** A calendar in UTC: a datetime is its timestamp, and the years run
    from 1 to 9999. *)
Definition utc_localtime (timestamp : Z) : option Z :=
  if (-62135596800 <=? timestamp) && (timestamp <=? 253402300799)
  then Some timestamp else None.

Definition sample_market (outcomes : list string)
    (amounts : list OmenOutcomeToken) (finalized : option Z)
    (answer : option string) : OmenMarket.t :=
  OmenMarket.mk "0xa3e4" "Will it rain?" 0 0%float "0xe91d" outcomes
    (Some amounts) None None None finalized answer None.

Definition sample_fpmm (outcomes : list string) (finalized resolution : option Z)
    (answer : option string) : OmenBetFPMM.t :=
  OmenBetFPMM.mk "0xa3e4" outcomes "Will it rain?" finalized resolution
    answer false false 1700000000.

Definition sample_bet (collateral fee traded index : Z) (usd : USD)
    (market : OmenBetFPMM.t) : OmenBet.t :=
  OmenBet.mk "0xb1" "Will it rain?" "0xe91d" 0.5%float 0.5%float "Buy"
    (OmenBetCreator.mk "0xc0") 1700000100 collateral usd fee index traded
    "0xd2" market.

Definition yes_no : list string := ["Yes"; "No"].

Definition resolved_yes_fpmm : OmenBetFPMM.t :=
  sample_fpmm yes_no (Some 1700000200) (Some 1700000300) (Some "0x0").

(** * Properties *)

(** ** The result monad and the builtins *)

Lemma bind_inv_ok {A B : Type} (r : result A) (k : A -> result B) (b : B) :
  bind r k = Ok b -> exists a, r = Ok a /\ k a = Ok b.
Proof. destruct r as [a|e]; simpl; intros H; [eauto | discriminate]. Qed.

Lemma getitem_two {A : Type} (x y : A) (i : Z) :
  getitem [x; y] i =
    if (i =? 0) || (i =? -2) then Ok x
    else if (i =? 1) || (i =? -1) then Ok y
    else Err IndexError.
Proof.
  unfold getitem, raise. cbn [List.length Z.of_nat Pos.of_succ_nat Pos.succ].
  destruct (i <? 0) eqn:Hneg.
  - apply Z.ltb_lt in Hneg.
    destruct (Z.eq_dec i (-2)) as [-> | H2]; [reflexivity |].
    destruct (Z.eq_dec i (-1)) as [-> | H1]; [reflexivity |].
    replace (i =? 0) with false by (symmetry; apply Z.eqb_neq; lia).
    replace (i =? -2) with false by (symmetry; apply Z.eqb_neq; lia).
    replace (i =? 1) with false by (symmetry; apply Z.eqb_neq; lia).
    replace (i =? -1) with false by (symmetry; apply Z.eqb_neq; lia).
    replace (i + 2 <? 0) with true by (symmetry; apply Z.ltb_lt; lia).
    reflexivity.
  - apply Z.ltb_ge in Hneg.
    destruct (Z.eq_dec i 0) as [-> | H0]; [reflexivity |].
    destruct (Z.eq_dec i 1) as [-> | H1]; [reflexivity |].
    replace (i =? 0) with false by (symmetry; apply Z.eqb_neq; lia).
    replace (i =? -2) with false by (symmetry; apply Z.eqb_neq; lia).
    replace (i =? 1) with false by (symmetry; apply Z.eqb_neq; lia).
    replace (i =? -1) with false by (symmetry; apply Z.eqb_neq; lia).
    replace (i <? 0) with false by (symmetry; apply Z.ltb_ge; lia).
    replace (2 <=? i) with true by (symmetry; apply Z.leb_le; lia).
    reflexivity.
Qed.

Lemma length_two {A : Type} (l : list A) :
  List.length l = 2%nat -> exists x y, l = [x; y].
Proof.
  destruct l as [|x [|y [|z l]]]; simpl; intros H; try discriminate.
  eauto.
Qed.

(** ** Rounding of binary floats

    Bounds on the steps of [binary_round_aux]: the right shifts halve
    the mantissa, and the rounding adds at most one. *)

Lemma shr_record_of_loc_m (m : Z) (l : location) :
  shr_m (shr_record_of_loc m l) = m.
Proof. destruct l as [|[]]; reflexivity. Qed.

Lemma shr_1_bounds (mrs : shr_record) :
  0 <= shr_m mrs ->
  0 <= shr_m (shr_1 mrs) /\
  2 * shr_m (shr_1 mrs) <= shr_m mrs < 2 * (shr_m (shr_1 mrs) + 1).
Proof.
  destruct mrs as [m r s]. simpl.
  destruct m as [|[p|p|]|p]; simpl; lia.
Qed.

Lemma iter_shr_1_bounds (p : positive) (mrs : shr_record) :
  0 <= shr_m mrs ->
  0 <= shr_m (iter_pos shr_1 p mrs) /\
  2 ^ Zpos p * shr_m (iter_pos shr_1 p mrs) <= shr_m mrs
    < 2 ^ Zpos p * (shr_m (iter_pos shr_1 p mrs) + 1).
Proof.
  revert mrs. induction p as [p IH | p IH |]; intros mrs H; simpl iter_pos.
  - destruct (shr_1_bounds mrs H) as [H1 H2].
    destruct (IH _ H1) as [H3 H4]. destruct (IH _ H3) as [H5 H6].
    split; [assumption |].
    replace (Zpos p~1) with (Zpos p + Zpos p + 1) by lia.
    rewrite !Z.pow_add_r by lia.
    assert (0 < 2 ^ Zpos p) by (apply Z.pow_pos_nonneg; lia).
    change (2 ^ 1) with 2. nia.
  - destruct (IH _ H) as [H3 H4]. destruct (IH _ H3) as [H5 H6].
    split; [assumption |].
    replace (Zpos p~0) with (Zpos p + Zpos p) by lia.
    rewrite !Z.pow_add_r by lia.
    assert (0 < 2 ^ Zpos p) by (apply Z.pow_pos_nonneg; lia).
    nia.
  - change (2 ^ 1) with 2. apply shr_1_bounds. assumption.
Qed.

Lemma digits2_pos_bounds (p : positive) :
  2 ^ (Zpos (digits2_pos p) - 1) <= Zpos p < 2 ^ Zpos (digits2_pos p).
Proof.
  induction p as [p IH | p IH |]; simpl digits2_pos.
  - rewrite Pos2Z.inj_succ.
    replace (Z.succ (Zpos (digits2_pos p)) - 1)
      with (Zpos (digits2_pos p) - 1 + 1) by lia.
    rewrite Z.pow_succ_r, Z.pow_add_r by lia. change (2 ^ 1) with 2. lia.
  - rewrite Pos2Z.inj_succ.
    replace (Z.succ (Zpos (digits2_pos p)) - 1)
      with (Zpos (digits2_pos p) - 1 + 1) by lia.
    rewrite Z.pow_succ_r, Z.pow_add_r by lia. change (2 ^ 1) with 2. lia.
  - simpl. lia.
Qed.

Lemma shr_fexp_bounds (m e : Z) (l : location) :
  0 <= m ->
  let mrs := fst (shr_fexp prec emax m e l) in
  let e' := snd (shr_fexp prec emax m e l) in
  0 <= shr_m mrs /\ e <= e' /\ 2 ^ (e' - e) * shr_m mrs <= m /\
  (e' = e \/ e' = fexp prec emax (Zdigits2 m + e)).
Proof.
  intros H. unfold shr_fexp, shr.
  destruct (fexp prec emax (Zdigits2 m + e) - e) as [|p|p] eqn:Hn; simpl.
  - rewrite shr_record_of_loc_m, Z.sub_diag. change (2 ^ 0) with 1. lia.
  - destruct (iter_shr_1_bounds p (shr_record_of_loc m l)) as [H1 H2].
    { rewrite shr_record_of_loc_m. assumption. }
    rewrite shr_record_of_loc_m in H2.
    replace (e + Zpos p - e) with (Zpos p) by lia.
    repeat split; try lia.
  - rewrite shr_record_of_loc_m, Z.sub_diag. change (2 ^ 0) with 1. lia.
Qed.

Lemma shr_fexp_pos (m e : Z) (l : location) :
  0 < m -> emin <= e ->
  0 < shr_m (fst (shr_fexp prec emax m e l)).
Proof.
  intros Hm He. unfold shr_fexp, shr.
  destruct (fexp prec emax (Zdigits2 m + e) - e) as [|p|p] eqn:Hn; simpl;
    try (rewrite shr_record_of_loc_m; assumption).
  destruct (iter_shr_1_bounds p (shr_record_of_loc m l)) as [H1 H2].
  { rewrite shr_record_of_loc_m. lia. }
  rewrite shr_record_of_loc_m in H2.
  destruct m as [|pm|pm]; try lia.
  simpl Zdigits2 in Hn.
  pose proof (digits2_pos_bounds pm) as Hd.
  assert (Hp : Zpos p <= Zpos (digits2_pos pm) - 1).
  { unfold fexp, SpecFloat.emin, prec, emax in *. lia. }
  assert (2 ^ Zpos p <= 2 ^ (Zpos (digits2_pos pm) - 1))
    by (apply Z.pow_le_mono_r; lia).
  assert (0 < 2 ^ Zpos p) by (apply Z.pow_pos_nonneg; lia).
  nia.
Qed.

Lemma round_nearest_even_bounds (m : Z) (l : location) :
  0 <= m -> m <= round_nearest_even m l <= m + 1.
Proof.
  intros H. unfold round_nearest_even.
  destruct l as [|[]]; try lia. destruct (Z.even m); lia.
Qed.

Lemma Zdigits2_upper (m k : Z) :
  0 <= m < 2 ^ k -> 0 <= k -> Zdigits2 m <= k.
Proof.
  intros [H0 H1] Hk. destruct m as [|p|p]; simpl; [lia | | lia].
  destruct (Z_le_gt_dec (Zpos (digits2_pos p)) k) as [H | H]; [assumption |].
  pose proof (digits2_pos_bounds p) as Hl.
  assert (2 ^ k <= 2 ^ (Zpos (digits2_pos p) - 1)) by (apply Z.pow_le_mono_r; lia).
  lia.
Qed.

(** ** True division of a part by the whole

    The quotient of [a] by [s] with [0 <= a <= s] is at most one, so its
    rounding is a finite float: the exponent that [binary_round_aux]
    reaches stays below zero, far from the overflow threshold. *)

Lemma fexp_upper (x : Z) : x <= 2 -> fexp prec emax x <= -51.
Proof. unfold fexp, emin, prec, emax. lia. Qed.

Lemma binary_round_aux_fraction (sx : bool) (m e : Z) (l : location) :
  0 <= m -> e <= 0 -> m <= 2 ^ (- e) ->
  match binary_round_aux prec emax sx m e l with
  | S754_infinity _ | S754_nan => False
  | _ => True
  end.
Proof.
  intros Hm He Hb. unfold binary_round_aux.
  pose proof (shr_fexp_bounds m e l Hm) as H1. cbv zeta in H1.
  destruct (shr_fexp prec emax m e l) as [mrs1 e1]. simpl fst in H1; simpl snd in H1.
  destruct H1 as (Hm1 & Hle1 & Hb1 & He1).
  assert (Hd : Zdigits2 m <= - e + 1).
  { apply Zdigits2_upper; [| lia].
    split; [assumption |]. rewrite Z.pow_add_r by lia. change (2 ^ 1) with 2.
    assert (0 < 2 ^ (- e)) by (apply Z.pow_pos_nonneg; lia). lia. }
  assert (He1' : e1 <= 0).
  { destruct He1 as [-> | ->]; [assumption |].
    pose proof (fexp_upper (Zdigits2 m + e)). lia. }
  assert (Hb1' : shr_m mrs1 <= 2 ^ (- e1)).
  { assert (Hp : 2 ^ (- e) = 2 ^ (e1 - e) * 2 ^ (- e1)).
    { rewrite <- Z.pow_add_r by lia. f_equal. lia. }
    assert (0 < 2 ^ (e1 - e)) by (apply Z.pow_pos_nonneg; lia).
    nia. }
  set (mr := round_nearest_even (shr_m mrs1) (loc_of_shr_record mrs1)).
  pose proof (round_nearest_even_bounds (shr_m mrs1) (loc_of_shr_record mrs1) Hm1) as Hr.
  fold mr in Hr.
  assert (Hmr : 0 <= mr) by lia.
  pose proof (shr_fexp_bounds mr e1 loc_Exact Hmr) as H2. cbv zeta in H2.
  destruct (shr_fexp prec emax mr e1 loc_Exact) as [mrs2 e2]. simpl fst in H2; simpl snd in H2.
  destruct H2 as (Hm2 & Hle2 & Hb2 & He2).
  assert (Hd2 : Zdigits2 mr <= - e1 + 2).
  { apply Zdigits2_upper; [| lia].
    split; [lia |]. rewrite Z.pow_add_r by lia. change (2 ^ 2) with 4.
    assert (0 < 2 ^ (- e1)) by (apply Z.pow_pos_nonneg; lia). lia. }
  assert (He2' : e2 <= 0).
  { destruct He2 as [-> | ->]; [assumption |].
    pose proof (fexp_upper (Zdigits2 mr + e1)). lia. }
  destruct (shr_m mrs2) as [|p|p]; [exact I | | lia].
  replace (e2 <=? emax - prec) with true; [exact I |].
  symmetry. apply Z.leb_le. unfold emax, prec. lia.
Qed.

Lemma SFdiv_fraction (pa ps : positive) :
  (pa <= ps)%positive ->
  match SFdiv prec emax (S754_finite false pa 0) (S754_finite false ps 0) with
  | S754_infinity _ | S754_nan => False
  | _ => True
  end.
Proof.
  intros Hle. unfold SFdiv, SFdiv_core_binary.
  set (e' := Z.min _ _).
  assert (He : e' <= 0) by (unfold e'; lia).
  replace (0 - 0 - e') with (- e') by lia.
  set (m' := match - e' with Z0 => Zpos pa | Zpos _ => Z.shiftl (Zpos pa) (- e') | Zneg _ => 0 end).
  assert (Hm' : m' = Zpos pa * 2 ^ (- e')).
  { unfold m'. destruct (- e') as [|p|p] eqn:Hs; [simpl; lia | | lia].
    rewrite Z.shiftl_mul_pow2 by lia. reflexivity. }
  pose proof (Z_div_mod m' (Zpos ps) eq_refl) as Hdiv.
  destruct (Z.div_eucl m' (Zpos ps)) as [q r]. destruct Hdiv as [Heq Hr].
  assert (Hp : 0 < 2 ^ (- e')) by (apply Z.pow_pos_nonneg; lia).
  apply binary_round_aux_fraction; [nia | assumption | nia].
Qed.

Lemma int_truediv_fraction (a s : Z) :
  0 <= a <= s -> 0 < s -> exists q, int_truediv a s = Ok q.
Proof.
  intros [Ha Has] Hs. unfold int_truediv.
  replace (s =? 0) with false by (symmetry; apply Z.eqb_neq; lia).
  destruct s as [|ps|ps]; try lia.
  destruct a as [|pa|pa]; try lia.
  - simpl. eauto.
  - pose proof (SFdiv_fraction pa ps) as H. simpl Z2SF.
    destruct (SFdiv prec emax (S754_finite false pa 0)
                (S754_finite false ps 0));
      [eauto | destruct H; lia | destruct H; lia | eauto].
Qed.

(** ** Sign of a float difference

    For finite floats the difference [x - y] is non-negative exactly
    when [y <= x]: the rounding of a nonzero mantissa at an exponent of
    the format is never zero and keeps the sign. *)

Lemma binary_round_aux_sign (sx : bool) (m e : Z) (l : location) :
  0 < m -> emin <= e -> has_sign sx (binary_round_aux prec emax sx m e l).
Proof.
  intros Hm He. unfold binary_round_aux.
  pose proof (shr_fexp_pos m e l Hm He) as Hp1.
  pose proof (shr_fexp_bounds m e l (Z.lt_le_incl _ _ Hm)) as Hb1. cbv zeta in Hb1.
  destruct (shr_fexp prec emax m e l) as [mrs1 e1].
  simpl fst in *; simpl snd in *.
  pose proof (round_nearest_even_bounds (shr_m mrs1) (loc_of_shr_record mrs1)
                (Z.lt_le_incl _ _ Hp1)) as Hr.
  set (mr := round_nearest_even (shr_m mrs1) (loc_of_shr_record mrs1)) in *.
  assert (Hmr : 0 < mr) by lia.
  assert (He1 : emin <= e1) by lia.
  pose proof (shr_fexp_pos mr e1 loc_Exact Hmr He1) as Hp2.
  destruct (shr_fexp prec emax mr e1 loc_Exact) as [mrs2 e2].
  simpl fst in *.
  destruct (shr_m mrs2) as [|p|p]; try lia.
  destruct (e2 <=? emax - prec); reflexivity.
Qed.

Lemma binary_round_sign (sx : bool) (mx : positive) (ex : Z) :
  emin <= ex -> has_sign sx (binary_round prec emax sx mx ex).
Proof.
  intros He. unfold binary_round, shl_align.
  set (F := fexp prec emax (Zpos (digits2_pos mx) + ex)).
  assert (HF : emin <= F) by (unfold F, fexp; lia).
  destruct (F - ex) as [|d|d] eqn:Hd;
    apply binary_round_aux_sign; lia.
Qed.

Lemma binary_normalize_nonneg (d e : Z) :
  emin <= e ->
  SFleb (S754_zero false) (binary_normalize prec emax d e false) = (0 <=? d).
Proof.
  intros He. destruct d as [|p|p]; simpl binary_normalize.
  - reflexivity.
  - pose proof (binary_round_sign false p e He) as H.
    destruct (binary_round prec emax false p e); simpl in H; try contradiction;
      subst; reflexivity.
  - pose proof (binary_round_sign true p e He) as H.
    destruct (binary_round prec emax true p e); simpl in H; try contradiction;
      subst; reflexivity.
Qed.

Lemma shl_align_value (m : positive) (e ez : Z) :
  ez <= e -> Zpos (fst (shl_align m e ez)) = Zpos m * 2 ^ (e - ez).
Proof.
  intros H. unfold shl_align.
  destruct (ez - e) as [|d|d] eqn:Hd; simpl fst.
  - replace (e - ez) with 0 by lia. change (2 ^ 0) with 1. lia.
  - lia.
  - replace (e - ez) with (Zpos d) by lia.
    change (Pos.iter xO m d) with (shift_pos d m).
    rewrite shift_pos_correct. change (2 ^ Zpos d) with (Zpower_pos 2 d). lia.
Qed.

Lemma bounded_canonical (m : positive) (e : Z) :
  bounded prec emax m e = true ->
  emin <= e /\ Zpos (digits2_pos m) <= 53 /\
  (emin < e -> Zpos (digits2_pos m) = 53).
Proof.
  unfold bounded, canonical_mantissa. intros H.
  apply andb_true_iff in H. destruct H as [H _]. apply Z.eqb_eq in H.
  unfold fexp, SpecFloat.emin, prec, emax in *. lia.
Qed.

Lemma canonical_compare (m1 m2 : positive) (e1 e2 : Z) :
  bounded prec emax m1 e1 = true ->
  bounded prec emax m2 e2 = true ->
  match e1 ?= e2 with
  | Lt => Lt
  | Gt => Gt
  | Eq => Pos.compare_cont Eq m1 m2
  end =
  (Zpos (fst (shl_align m1 e1 (Z.min e1 e2)))
     ?= Zpos (fst (shl_align m2 e2 (Z.min e1 e2)))).
Proof.
  intros H1 H2.
  destruct (bounded_canonical _ _ H1) as (Hmin1 & Hd1 & Hn1).
  destruct (bounded_canonical _ _ H2) as (Hmin2 & Hd2 & Hn2).
  pose proof (digits2_pos_bounds m1) as Hb1.
  pose proof (digits2_pos_bounds m2) as Hb2.
  rewrite !shl_align_value by lia.
  destruct (Z.compare_spec e1 e2) as [Heq | Hlt | Hgt].
  - subst. rewrite Z.min_id, Z.sub_diag. change (2 ^ 0) with 1.
    rewrite !Z.mul_1_r. reflexivity.
  - rewrite Z.min_l, Z.sub_diag by lia. change (2 ^ 0) with 1.
    rewrite Z.mul_1_r. symmetry. apply Z.compare_lt_iff.
    rewrite (Hn2 ltac:(lia)) in Hb2. change (53 - 1) with 52 in Hb2.
    assert (Zpos m1 < 2 ^ 53).
    { apply Z.lt_le_trans with (1 := proj2 Hb1).
      apply Z.pow_le_mono_r; lia. }
    assert (2 ^ 1 <= 2 ^ (e2 - e1)) by (apply Z.pow_le_mono_r; lia).
    change (2 ^ 1) with 2 in *. change (2 ^ 53) with (2 * 2 ^ 52) in *.
    nia.
  - rewrite Z.min_r, Z.sub_diag by lia. change (2 ^ 0) with 1.
    rewrite Z.mul_1_r. symmetry. apply Z.compare_gt_iff.
    rewrite (Hn1 ltac:(lia)) in Hb1. change (53 - 1) with 52 in Hb1.
    assert (Zpos m2 < 2 ^ 53).
    { apply Z.lt_le_trans with (1 := proj2 Hb2).
      apply Z.pow_le_mono_r; lia. }
    assert (2 ^ 1 <= 2 ^ (e1 - e2)) by (apply Z.pow_le_mono_r; lia).
    change (2 ^ 1) with 2 in *. change (2 ^ 53) with (2 * 2 ^ 52) in *.
    nia.
Qed.

Lemma SFsub_nonneg (x y : spec_float) :
  valid_binary x = true -> valid_binary y = true ->
  SFfinite x = true -> SFfinite y = true ->
  SFleb (S754_zero false) (SFsub prec emax x y) = SFleb y x.
Proof.
  intros Vx Vy Fx Fy.
  destruct x as [sx | sx | | sx mx ex]; try discriminate;
    destruct y as [sy | sy | | sy my ey]; try discriminate.
  - destruct sx, sy; reflexivity.
  - destruct sy; reflexivity.
  - destruct sx; reflexivity.
  - simpl in Vx, Vy. unfold SFsub.
    destruct (bounded_canonical _ _ Vx) as (Hmin1 & _).
    destruct (bounded_canonical _ _ Vy) as (Hmin2 & _).
    rewrite binary_normalize_nonneg by lia.
    pose proof (canonical_compare mx my ex ey Vx Vy) as Hc.
    pose proof (canonical_compare my mx ey ex Vy Vx) as Hc'.
    rewrite (Z.min_comm ey ex) in Hc'.
    unfold SFleb, SFcompare.
    set (ax := Zpos (fst (shl_align mx ex (Z.min ex ey)))) in *.
    set (ay := Zpos (fst (shl_align my ey (Z.min ex ey)))) in *.
    assert (0 < ax) by (unfold ax; lia). assert (0 < ay) by (unfold ay; lia).
    clear Hc. clearbody ax ay. revert Hc'.
    destruct sx, sy; simpl cond_Zopp;
      (destruct (ey ?= ex); [destruct (Pos.compare_cont Eq my mx) | |]);
      simpl; intros Hc'; symmetry in Hc';
      first [apply Z.compare_eq_iff in Hc'
            | apply -> Z.compare_lt_iff in Hc'
            | apply -> Z.compare_gt_iff in Hc'];
      first [apply Z.leb_le; lia | apply Z.leb_gt; lia].
Qed.

Lemma is_finite_SFfinite (x : float) :
  is_finite x = true -> SFfinite (Prim2SF x) = true.
Proof.
  unfold is_finite, is_nan, is_infinity.
  rewrite !eqb_spec, abs_spec.
  change (Prim2SF infinity) with (S754_infinity false).
  destruct (Prim2SF x) as [s | s | | s m e]; simpl; try reflexivity.
  - destruct s; discriminate.
  - discriminate.
Qed.

Lemma sub_nonneg (x y : float) :
  is_finite x = true -> is_finite y = true ->
  (0 <=? x - y)%float = (y <=? x)%float.
Proof.
  intros Fx Fy. rewrite !leb_spec, sub_spec.
  change (Prim2SF 0) with (S754_zero false).
  apply SFsub_nonneg; auto using Prim2SF_valid, is_finite_SFfinite.
Qed.

(** ** Monotonicity of float subtraction

    [binary_round] in closed form, through [round_out]; it is monotone
    in the mantissa and does not depend on how the value is split
    between mantissa and exponent.  Hence for finite [x <= y] the
    difference [g - y] is at most [g - x]. *)

Lemma Zdigits2_eq (m k : Z) :
  2 ^ (k - 1) <= m < 2 ^ k -> 0 < m -> Zdigits2 m = k.
Proof.
  intros [Hl Hu] Hm. destruct m as [|p|p]; try lia. simpl.
  pose proof (digits2_pos_bounds p) as [Hl' Hu'].
  set (d := Zpos (digits2_pos p)) in *.
  assert (0 < d) by (unfold d; lia).
  destruct (Z.lt_trichotomy d k) as [H1 | [H1 | H1]]; [| assumption |].
  - assert (2 ^ d <= 2 ^ (k - 1)) by (apply Z.pow_le_mono_r; lia). lia.
  - assert (0 <= k).
    { destruct (Z_lt_le_dec k 0) as [Hk | Hk]; [| assumption].
      rewrite (Z.pow_neg_r 2 k Hk) in Hu. lia. }
    assert (2 ^ k <= 2 ^ (d - 1)) by (apply Z.pow_le_mono_r; lia). lia.
Qed.

Lemma Zdigits2_shift (m k : Z) :
  0 < m -> 0 <= k -> Zdigits2 (m * 2 ^ k) = Zdigits2 m + k.
Proof.
  intros Hm Hk. destruct m as [|p|p]; try lia.
  pose proof (digits2_pos_bounds p) as [Hl Hu].
  simpl Zdigits2 at 2. set (d := Zpos (digits2_pos p)) in *.
  assert (0 < d) by (unfold d; lia).
  assert (0 < 2 ^ k) by (apply Z.pow_pos_nonneg; lia).
  apply Zdigits2_eq; [| nia].
  replace (d + k - 1) with (d - 1 + k) by lia.
  rewrite !Z.pow_add_r by lia. nia.
Qed.

Lemma iter_pos_iter {A : Type} (f : A -> A) (p : positive) (x : A) :
  iter_pos f p x = Pos.iter f x p.
Proof.
  revert x. induction p as [p IH | p IH |]; intros x; simpl.
  - rewrite !IH. rewrite <- !Pos.iter_swap. reflexivity.
  - rewrite !IH. reflexivity.
  - reflexivity.
Qed.

Lemma iter_pos_add {A : Type} (f : A -> A) (p q : positive) (x : A) :
  iter_pos f (p + q) x = iter_pos f p (iter_pos f q x).
Proof. rewrite !iter_pos_iter. apply Pos.iter_add. Qed.

Lemma shr_1_exact (m : Z) :
  0 <= m ->
  shr_1 (Build_shr_record (m * 2) false false) = Build_shr_record m false false.
Proof.
  intros H. rewrite Z.mul_comm. destruct m as [|p|p]; try lia; reflexivity.
Qed.

Lemma iter_shr_1_exact (p : positive) (m : Z) :
  0 <= m ->
  iter_pos shr_1 p (Build_shr_record (m * 2 ^ Zpos p) false false)
  = Build_shr_record m false false.
Proof.
  intros Hm. rewrite iter_pos_iter. revert m Hm.
  induction p as [|p IH] using Pos.peano_ind; intros m Hm.
  - simpl Pos.iter. change (2 ^ 1) with 2. apply shr_1_exact. assumption.
  - rewrite Pos.iter_succ_r.
    rewrite Pos2Z.inj_succ, Z.pow_succ_r by lia.
    replace (m * (2 * 2 ^ Zpos p)) with (m * 2 ^ Zpos p * 2) by lia.
    assert (0 < 2 ^ Zpos p) by (apply Z.pow_pos_nonneg; lia).
    rewrite shr_1_exact by nia. apply IH. assumption.
Qed.

Lemma shr_1_code (mrs : shr_record) :
  0 <= shr_m mrs ->
  shr_code (shr_1 mrs) =
    2 * shr_m mrs + (if shr_r mrs || shr_s mrs then 1 else 0).
Proof.
  destruct mrs as [m r s]. unfold shr_code. cbn [shr_m shr_r shr_s]. intros H.
  destruct m as [|[p|p|]|p]; [| | | | exfalso; lia]; destruct r, s;
    cbn [shr_1 shr_m shr_r shr_s orb];
    try rewrite (Pos2Z.inj_xI p); try rewrite (Pos2Z.inj_xO p); lia.
Qed.

Lemma shr_1_mono (a b : shr_record) :
  0 <= shr_m a -> 0 <= shr_m b ->
  shr_code a <= shr_code b -> shr_code (shr_1 a) <= shr_code (shr_1 b).
Proof.
  intros Ha Hb H. rewrite !shr_1_code by assumption.
  unfold shr_code in H. revert H.
  destruct (shr_r a), (shr_s a), (shr_r b), (shr_s b);
    cbv [orb]; cbv iota; lia.
Qed.

Lemma iter_shr_1_mono (p : positive) (a b : shr_record) :
  0 <= shr_m a -> 0 <= shr_m b ->
  shr_code a <= shr_code b ->
  shr_code (iter_pos shr_1 p a) <= shr_code (iter_pos shr_1 p b).
Proof.
  revert a b. induction p as [p IH | p IH |]; intros a b Ha Hb H; simpl.
  - pose proof (shr_1_bounds a Ha) as [Ha1 _].
    pose proof (shr_1_bounds b Hb) as [Hb1 _].
    pose proof (iter_shr_1_bounds p _ Ha1) as [Ha2 _].
    pose proof (iter_shr_1_bounds p _ Hb1) as [Hb2 _].
    apply IH; try assumption. apply IH; try assumption.
    apply shr_1_mono; assumption.
  - pose proof (iter_shr_1_bounds p _ Ha) as [Ha2 _].
    pose proof (iter_shr_1_bounds p _ Hb) as [Hb2 _].
    apply IH; try assumption. apply IH; assumption.
  - apply shr_1_mono; assumption.
Qed.

Lemma round_shr_mono (a b : shr_record) :
  0 <= shr_m a -> 0 <= shr_m b ->
  shr_code a <= shr_code b -> round_shr a <= round_shr b.
Proof.
  destruct a as [ma ra sa], b as [mb rb sb].
  unfold shr_code, round_shr. cbn [shr_m shr_r shr_s]. intros Ha Hb H.
  destruct (Z.eq_dec ma mb) as [-> | Hne].
  - destruct ra, sa, rb, sb;
      cbv [loc_of_shr_record round_nearest_even] in *; cbv iota in *;
      try lia; destruct (Z.even mb); lia.
  - assert (ma + 1 <= mb)
      by (destruct ra, sa, rb, sb; cbv iota in H; lia).
    clear H.
    destruct ra, sa, rb, sb;
      cbv [loc_of_shr_record round_nearest_even]; cbv iota;
      try destruct (Z.even ma); try destruct (Z.even mb); lia.
Qed.

Lemma round_shr_bounds (a : shr_record) :
  0 <= shr_m a -> shr_m a <= round_shr a <= shr_m a + 1.
Proof. intros H. apply round_nearest_even_bounds. assumption. Qed.

Lemma rne_shift_mono (m m' n : Z) :
  0 <= m <= m' -> rne_shift m n <= rne_shift m' n.
Proof.
  intros [H0 Hle]. unfold rne_shift, shr.
  destruct n as [|p|p]; simpl fst.
  - assumption.
  - apply round_shr_mono.
    + apply iter_shr_1_bounds. simpl. assumption.
    + apply iter_shr_1_bounds. simpl. lia.
    + apply iter_shr_1_mono; cbn [shr_m]; try lia.
      unfold shr_code. cbn [shr_m shr_r shr_s]. lia.
  - assumption.
Qed.

Lemma rne_shift_bounds (m : Z) (p : positive) :
  0 <= m ->
  2 ^ Zpos p * (rne_shift m (Zpos p) - 1) <= m
    < 2 ^ Zpos p * (rne_shift m (Zpos p) + 1) /\ 0 <= rne_shift m (Zpos p).
Proof.
  intros H. unfold rne_shift, shr. simpl fst.
  pose proof (iter_shr_1_bounds p (Build_shr_record m false false) H)
    as [H1 H2]. simpl shr_m in H2 at 2 3.
  pose proof (round_shr_bounds _ H1) as H3.
  assert (0 < 2 ^ Zpos p) by (apply Z.pow_pos_nonneg; lia).
  nia.
Qed.

Lemma rne_shift_exact (m n : Z) :
  0 <= m -> 0 <= n -> rne_shift (m * 2 ^ n) n = m.
Proof.
  intros Hm Hn. unfold rne_shift, shr.
  destruct n as [|p|p]; try lia; simpl fst.
  - change (2 ^ 0) with 1. rewrite Z.mul_1_r. reflexivity.
  - rewrite iter_shr_1_exact by assumption. reflexivity.
Qed.

Lemma rne_shift_scale (m n k : Z) :
  0 <= m -> 0 < n -> 0 <= k ->
  rne_shift (m * 2 ^ k) (n + k) = rne_shift m n.
Proof.
  intros Hm Hn Hk. unfold rne_shift, shr.
  destruct n as [|p|p]; try lia.
  destruct k as [|q|q]; try lia.
  - change (2 ^ 0) with 1. rewrite Z.mul_1_r, Z.add_0_r. reflexivity.
  - change (Zpos p + Zpos q) with (Zpos (p + q)). simpl fst.
    rewrite iter_pos_add, iter_shr_1_exact by assumption. reflexivity.
Qed.

Lemma fexp_eq (x : Z) : fexp prec emax x = Z.max (x - 53) (-1074).
Proof. reflexivity. Qed.

Lemma shr_fexp_noshift (m e : Z) (l : location) :
  fexp prec emax (Zdigits2 m + e) <= e ->
  shr_fexp prec emax m e l = (shr_record_of_loc m l, e).
Proof.
  intros H. unfold shr_fexp, shr.
  destruct (fexp prec emax (Zdigits2 m + e) - e) eqn:Hn; try reflexivity. lia.
Qed.

Lemma binary_round_aux_pack (sx : bool) (m e : Z) (l : location) :
  binary_round_aux prec emax sx m e l =
    pack sx
      (shr_m (fst (shr_fexp prec emax
                     (round_shr (fst (shr_fexp prec emax m e l)))
                     (snd (shr_fexp prec emax m e l)) loc_Exact)))
      (snd (shr_fexp prec emax
              (round_shr (fst (shr_fexp prec emax m e l)))
              (snd (shr_fexp prec emax m e l)) loc_Exact)).
Proof.
  unfold binary_round_aux, round_shr.
  destruct (shr_fexp prec emax m e l) as [mrs1 e1]. simpl fst. simpl snd.
  destruct (shr_fexp prec emax _ e1 loc_Exact) as [mrs2 e2]. reflexivity.
Qed.

Lemma binary_round_aux_canonical (sx : bool) (m e : Z) :
  fexp prec emax (Zdigits2 m + e) <= e ->
  binary_round_aux prec emax sx m e loc_Exact = pack sx m e.
Proof.
  intros H. rewrite binary_round_aux_pack.
  rewrite (shr_fexp_noshift m e loc_Exact H). cbn [fst snd].
  change (round_shr (shr_record_of_loc m loc_Exact)) with m.
  rewrite (shr_fexp_noshift m e loc_Exact H). reflexivity.
Qed.

Lemma shl_align_spec (m : positive) (e ez : Z) :
  ez <= e ->
  Zpos (fst (shl_align m e ez)) = Zpos m * 2 ^ (e - ez) /\
  snd (shl_align m e ez) = ez.
Proof.
  intros H. split; [apply shl_align_value; assumption |].
  unfold shl_align. destruct (ez - e) eqn:Hd; simpl snd; lia.
Qed.

Lemma binary_round_small (sx : bool) (p : positive) (e : Z) :
  Zpos (digits2_pos p) <= 53 -> emin <= e ->
  binary_round prec emax sx p e =
    pack sx (Zpos p * 2 ^ (e - fexp prec emax (Zpos (digits2_pos p) + e)))
         (fexp prec emax (Zpos (digits2_pos p) + e)).
Proof.
  intros Hd He. unfold binary_round.
  set (F := fexp prec emax (Zpos (digits2_pos p) + e)).
  assert (HF : F <= e) by (unfold F; rewrite fexp_eq; unfold emin in He; simpl in He; lia).
  destruct (shl_align_spec p e F HF) as [Hv Hs].
  destruct (shl_align p e F) as [mz ez]. simpl fst in Hv. simpl snd in Hs.
  subst ez. rewrite binary_round_aux_canonical.
  - rewrite Hv. reflexivity.
  - rewrite Hv, Zdigits2_shift by lia. simpl Zdigits2.
    replace (Zpos (digits2_pos p) + (e - F) + F)
      with (Zpos (digits2_pos p) + e) by lia.
    fold F. lia.
Qed.

Lemma rne_shift_normal (m d : Z) :
  53 < d -> 2 ^ (d - 1) <= m < 2 ^ d ->
  2 ^ 52 <= rne_shift m (d - 53) <= 2 ^ 53.
Proof.
  intros Hd [Hl Hu].
  destruct (d - 53) as [|n|n] eqn:Hn; try lia.
  assert (0 <= m).
  { assert (0 < 2 ^ (d - 1)) by (apply Z.pow_pos_nonneg; lia). lia. }
  pose proof (rne_shift_bounds m n H) as [[H1 H2] H3].
  assert (Hp : 0 < 2 ^ Zpos n) by (apply Z.pow_pos_nonneg; lia).
  assert (E1 : 2 ^ d = 2 ^ Zpos n * 2 ^ 53).
  { rewrite <- Z.pow_add_r by lia. f_equal. lia. }
  assert (E2 : 2 ^ (d - 1) = 2 ^ Zpos n * 2 ^ 52).
  { rewrite <- Z.pow_add_r by lia. f_equal. lia. }
  rewrite E1 in Hu. rewrite E2 in Hl.
  set (mr := rne_shift m (Zpos n)) in *.
  split.
  - apply Z.lt_succ_r. apply (Z.mul_lt_mono_pos_l (2 ^ Zpos n)); [assumption |].
    unfold Z.succ. lia.
  - apply Z.lt_succ_r. unfold Z.succ.
    assert (2 ^ Zpos n * (mr - 1) < 2 ^ Zpos n * 2 ^ 53) by lia.
    apply Z.mul_lt_mono_pos_l in H0; [lia | assumption].
Qed.

Lemma binary_round_large (sx : bool) (p : positive) (e : Z) :
  53 < Zpos (digits2_pos p) -> emin <= e ->
  binary_round prec emax sx p e =
    let F := Zpos (digits2_pos p) + e - 53 in
    let mr := rne_shift (Zpos p) (Zpos (digits2_pos p) - 53) in
    if mr =? 2 ^ 53 then pack sx (2 ^ 52) (F + 1) else pack sx mr F.
Proof.
  intros Hd He. cbv zeta. unfold binary_round.
  set (d := Zpos (digits2_pos p)) in *.
  assert (He' : -1074 <= e) by exact He.
  assert (HF : fexp prec emax (d + e) = d + e - 53) by (rewrite fexp_eq; lia).
  rewrite HF.
  pose proof (rne_shift_normal (Zpos p) d Hd (digits2_pos_bounds p)) as Hmr.
  assert (Hal : shl_align p e (d + e - 53) = (p, e)).
  { unfold shl_align. destruct (d + e - 53 - e) eqn:Hn; try reflexivity. lia. }
  rewrite Hal. rewrite binary_round_aux_pack.
  assert (H1 : shr_fexp prec emax (Zpos p) e loc_Exact =
               shr (Build_shr_record (Zpos p) false false) e (d - 53)).
  { unfold shr_fexp. simpl Zdigits2. fold d. rewrite HF.
    replace (d + e - 53 - e) with (d - 53) by lia. reflexivity. }
  assert (H2 : round_shr (fst (shr_fexp prec emax (Zpos p) e loc_Exact))
               = rne_shift (Zpos p) (d - 53)).
  { rewrite H1. unfold rne_shift, shr. destruct (d - 53); reflexivity. }
  assert (H3 : snd (shr_fexp prec emax (Zpos p) e loc_Exact) = d + e - 53).
  { rewrite H1. unfold shr. destruct (d - 53) eqn:Hn; simpl snd; lia. }
  rewrite H2, H3.
  set (mr := rne_shift (Zpos p) (d - 53)) in *.
  destruct (Z.eqb_spec mr (2 ^ 53)) as [Heq | Hne].
  - rewrite Heq.
    assert (Hs : shr_fexp prec emax (2 ^ 53) (d + e - 53) loc_Exact
                 = (Build_shr_record (2 ^ 52) false false, d + e - 53 + 1)).
    { unfold shr_fexp. change (Zdigits2 (2 ^ 53)) with 54.
      rewrite fexp_eq.
      replace (Z.max (54 + (d + e - 53) - 53) (-1074) - (d + e - 53))
        with 1 by lia.
      reflexivity. }
    rewrite Hs. reflexivity.
  - assert (Hdig : Zdigits2 mr = 53) by (apply Zdigits2_eq; lia).
    rewrite shr_fexp_noshift by (rewrite Hdig, fexp_eq; lia).
    reflexivity.
Qed.

Lemma binary_round_out (sx : bool) (p : positive) (e : Z) :
  emin <= e ->
  binary_round prec emax sx p e =
    pack sx (fst (round_out (Zpos p) e)) (snd (round_out (Zpos p) e)).
Proof.
  intros He. unfold round_out. simpl Zdigits2.
  destruct (Z.leb_spec (Zpos (digits2_pos p)) 53) as [Hd | Hd].
  - rewrite binary_round_small by assumption. reflexivity.
  - rewrite binary_round_large by assumption. cbv zeta.
    assert (Hf : fexp prec emax (Zpos (digits2_pos p) + e)
                 = Zpos (digits2_pos p) + e - 53).
    { assert (-1074 <= e) by exact He. rewrite fexp_eq. lia. }
    rewrite Hf.
    destruct (rne_shift (Zpos p) (Zpos (digits2_pos p) - 53) =? 2 ^ 53);
      reflexivity.
Qed.

Lemma Zdigits2_mono (m m' : Z) :
  0 < m <= m' -> Zdigits2 m <= Zdigits2 m'.
Proof.
  intros [H0 Hle]. destruct m as [|p|p]; try lia.
  destruct m' as [|p'|p']; try lia. simpl.
  pose proof (digits2_pos_bounds p) as [Hl _].
  pose proof (digits2_pos_bounds p') as [_ Hu'].
  destruct (Z_le_gt_dec (Zpos (digits2_pos p)) (Zpos (digits2_pos p')))
    as [H | H]; [assumption |].
  assert (2 ^ Zpos (digits2_pos p') <= 2 ^ (Zpos (digits2_pos p) - 1))
    by (apply Z.pow_le_mono_r; lia).
  lia.
Qed.

Lemma round_out_pos (m e : Z) :
  0 < m -> emin <= e -> 0 < fst (round_out m e).
Proof.
  intros Hm He. unfold round_out.
  destruct m as [|p|p]; try lia. cbn [Zdigits2].
  destruct (Z.leb_spec (Zpos (digits2_pos p)) 53) as [Hd | Hd]; cbn [fst].
  - assert (-1074 <= e) by exact He.
    assert (0 < 2 ^ (e - fexp prec emax (Zpos (digits2_pos p) + e))).
    { apply Z.pow_pos_nonneg; [lia |]. rewrite fexp_eq. lia. }
    apply Z.mul_pos_pos; [lia | assumption].
  - pose proof (rne_shift_normal (Zpos p) _ Hd (digits2_pos_bounds p)) as Hmr.
    destruct (_ =? 2 ^ 53); cbn [fst]; lia.
Qed.

Lemma round_out_mono (m m' e : Z) :
  0 < m <= m' -> emin <= e -> out_le (round_out m e) (round_out m' e).
Proof.
  intros [Hm Hle] He. assert (He' : -1074 <= e) by exact He.
  pose proof (Zdigits2_mono m m' (conj Hm Hle)) as Hdd.
  unfold round_out, out_le.
  destruct m as [|p|p]; try lia. destruct m' as [|p'|p']; try lia.
  cbn [Zdigits2] in *.
  pose proof (digits2_pos_bounds p) as Hb.
  pose proof (digits2_pos_bounds p') as Hb'.
  set (d := Zpos (digits2_pos p)) in *.
  set (d' := Zpos (digits2_pos p')) in *.
  rewrite !fexp_eq.
  destruct (Z.leb_spec d 53) as [Hd | Hd];
    destruct (Z.leb_spec d' 53) as [Hd' | Hd']; try lia.
  - (* both exact *)
    cbn [fst snd].
    destruct (Z.eq_dec (Z.max (d + e - 53) (-1074)) (Z.max (d' + e - 53) (-1074)))
      as [Heq | Hne]; [right | left; lia].
    split; [assumption |]. rewrite <- Heq.
    assert (0 <= 2 ^ (e - Z.max (d + e - 53) (-1074)))
      by (apply Z.pow_nonneg; lia).
    nia.
  - (* exact, then rounded *)
    left. destruct (_ =? 2 ^ 53); cbn [fst snd]; lia.
  - (* both rounded *)
    pose proof (rne_shift_normal (Zpos p) d Hd Hb) as Hmr.
    pose proof (rne_shift_normal (Zpos p') d' Hd' Hb') as Hmr'.
    destruct (Z.eq_dec d d') as [Heq | Hne].
    + rewrite <- Heq in *.
      pose proof (rne_shift_mono (Zpos p) (Zpos p') (d - 53)
                    (conj (Z.lt_le_incl _ _ Hm) Hle)) as Hmono.
      destruct (Z.eqb_spec (rne_shift (Zpos p) (d - 53)) (2 ^ 53));
        destruct (Z.eqb_spec (rne_shift (Zpos p') (d - 53)) (2 ^ 53));
        cbn [fst snd]; lia.
    + destruct (Z.eqb_spec (rne_shift (Zpos p) (d - 53)) (2 ^ 53));
        destruct (Z.eqb_spec (rne_shift (Zpos p') (d' - 53)) (2 ^ 53));
        cbn [fst snd]; lia.
Qed.

Lemma pack_le (m1 e1 m2 e2 : Z) :
  0 < m1 -> 0 < m2 -> out_le (m1, e1) (m2, e2) ->
  SFleb (pack false m1 e1) (pack false m2 e2) = true /\
  SFleb (pack true m2 e2) (pack true m1 e1) = true.
Proof.
  intros H1 H2 Hle. unfold out_le in Hle. cbn [fst snd] in Hle.
  destruct m1 as [|p1|p1]; try lia. destruct m2 as [|p2|p2]; try lia.
  unfold pack.
  destruct (Z.leb_spec e1 (emax - prec)) as [L1 | L1];
    destruct (Z.leb_spec e2 (emax - prec)) as [L2 | L2];
    try (exfalso; lia); try (split; reflexivity).
  unfold SFleb, SFcompare.
  destruct Hle as [Hlt | [-> Hm]].
  - rewrite (proj2 (Z.compare_lt_iff e1 e2) Hlt).
    rewrite (proj2 (Z.compare_gt_iff e2 e1) Hlt). split; reflexivity.
  - rewrite Z.compare_refl.
    change (Pos.compare_cont Eq p1 p2) with (Pos.compare p1 p2).
    change (Pos.compare_cont Eq p2 p1) with (Pos.compare p2 p1).
    rewrite (Pos.compare_antisym p1 p2).
    destruct (Pos.compare_spec p1 p2); try (split; reflexivity). lia.
Qed.

Lemma binary_normalize_mono (d d' e : Z) :
  emin <= e -> d <= d' ->
  SFleb (binary_normalize prec emax d e false)
        (binary_normalize prec emax d' e false) = true.
Proof.
  intros He Hle.
  destruct d as [|p|p]; destruct d' as [|p'|p']; try lia;
    simpl binary_normalize; try reflexivity.
  - pose proof (binary_round_sign false p' e He) as H.
    destruct (binary_round prec emax false p' e); simpl in H;
      try contradiction; subst; reflexivity.
  - rewrite !binary_round_out by assumption.
    apply pack_le; try (apply round_out_pos; lia).
    pose proof (round_out_mono (Zpos p) (Zpos p') e) as H.
    unfold out_le in *. cbn [fst snd]. apply H; lia.
  - pose proof (binary_round_sign true p e He) as H.
    destruct (binary_round prec emax true p e); simpl in H;
      try contradiction; subst; reflexivity.
  - pose proof (binary_round_sign true p e He) as H.
    pose proof (binary_round_sign false p' e He) as H'.
    destruct (binary_round prec emax true p e); simpl in H;
      try contradiction; subst;
      destruct (binary_round prec emax false p' e); simpl in H';
      try contradiction; subst; reflexivity.
  - rewrite !binary_round_out by assumption.
    apply pack_le; try (apply round_out_pos; lia).
    pose proof (round_out_mono (Zpos p') (Zpos p) e) as H.
    unfold out_le in *. cbn [fst snd]. apply H; lia.
Qed.

Lemma round_out_scale (m e k : Z) :
  0 < m -> 0 <= k -> emin <= e - k ->
  round_out (m * 2 ^ k) (e - k) = round_out m e.
Proof.
  intros Hm Hk He. assert (He' : -1074 <= e - k) by exact He.
  unfold round_out. rewrite Zdigits2_shift by assumption.
  replace (Zdigits2 m + k + (e - k)) with (Zdigits2 m + e) by lia.
  destruct m as [|p|p]; try lia. cbn [Zdigits2].
  pose proof (digits2_pos_bounds p) as Hb.
  set (d := Zpos (digits2_pos p)) in *.
  assert (0 < d) by (unfold d; lia).
  rewrite !fexp_eq.
  destruct (Z.leb_spec (d + k) 53) as [Hdk | Hdk];
    destruct (Z.leb_spec d 53) as [Hd | Hd]; try lia.
  - f_equal. rewrite <- Z.mul_assoc, <- Z.pow_add_r by lia.
    f_equal. f_equal. lia.
  - replace (Z.max (d + e - 53) (-1074)) with (d + e - 53) by lia.
    replace (Zpos p * 2 ^ k)
      with (Zpos p * 2 ^ (53 - d) * 2 ^ (d + k - 53)).
    2:{ rewrite <- Z.mul_assoc, <- Z.pow_add_r by lia. f_equal. f_equal. lia. }
    assert (Hp : 0 < 2 ^ (53 - d)) by (apply Z.pow_pos_nonneg; lia).
    rewrite rne_shift_exact by nia.
    assert (Hlt : Zpos p * 2 ^ (53 - d) < 2 ^ 53).
    { replace (2 ^ 53) with (2 ^ d * 2 ^ (53 - d)).
      - apply Z.mul_lt_mono_pos_r; lia.
      - rewrite <- Z.pow_add_r by lia. f_equal. lia. }
    destruct (Z.eqb_spec (Zpos p * 2 ^ (53 - d)) (2 ^ 53)) as [Heq | _];
      [lia |].
    f_equal. f_equal. f_equal. lia.
  - replace (d + k - 53) with (d - 53 + k) by lia.
    rewrite rne_shift_scale by lia. reflexivity.
Qed.

Lemma binary_normalize_scale (d e k : Z) (sz : bool) :
  0 <= k -> emin <= e - k ->
  binary_normalize prec emax (d * 2 ^ k) (e - k) sz =
  binary_normalize prec emax d e sz.
Proof.
  intros Hk He.
  assert (Hp : 0 < 2 ^ k) by (apply Z.pow_pos_nonneg; lia).
  assert (He' : emin <= e) by (unfold emin in *; lia).
  destruct d as [|p|p].
  - reflexivity.
  - destruct (Zpos p * 2 ^ k) as [|p'|p'] eqn:Hprod; try lia.
    cbn [binary_normalize].
    rewrite !binary_round_out by assumption.
    rewrite <- Hprod, round_out_scale by (assumption || lia). reflexivity.
  - destruct (Zneg p * 2 ^ k) as [|p'|p'] eqn:Hprod; try lia.
    cbn [binary_normalize].
    rewrite !binary_round_out by assumption.
    replace (Zpos p') with (Zpos p * 2 ^ k) by lia.
    rewrite round_out_scale by (assumption || lia). reflexivity.
Qed.

Lemma binary_round_canonical (sx : bool) (m : positive) (e : Z) :
  bounded prec emax m e = true ->
  binary_round prec emax sx m e = S754_finite sx m e.
Proof.
  intros H. pose proof (bounded_canonical m e H) as (He & Hd & _).
  unfold bounded, canonical_mantissa in H.
  apply andb_true_iff in H. destruct H as [Hc Hb].
  apply Z.eqb_eq in Hc. apply Z.leb_le in Hb.
  rewrite binary_round_small by assumption.
  rewrite Hc, Z.sub_diag. change (2 ^ 0) with 1. rewrite Z.mul_1_r.
  unfold pack. apply Z.leb_le in Hb. rewrite Hb. reflexivity.
Qed.

Lemma SFexp_bounds (x : spec_float) :
  valid_binary x = true -> emin <= SFexp x <= emax - prec.
Proof.
  destruct x as [s | s | | s m e]; cbn [SFexp SpecFloat.valid_binary];
    intros H;
    try (split; [vm_compute; discriminate | apply Z.le_refl]).
  pose proof (bounded_canonical m e H) as (He & _).
  unfold bounded in H. apply andb_true_iff in H. destruct H as [_ H].
  apply Z.leb_le in H. split; assumption.
Qed.

Lemma SFleb_zero_equiv (a a' b b' : spec_float) :
  zero_equiv a a' -> zero_equiv b b' -> SFleb a b = SFleb a' b'.
Proof.
  intros [-> | (s1 & s1' & -> & ->)] [-> | (s2 & s2' & -> & ->)];
    try reflexivity;
    try (destruct a; reflexivity); try (destruct b; reflexivity);
    try (destruct a'; reflexivity); try (destruct b'; reflexivity).
Qed.

Lemma cond_Zopp_mul (s : bool) (a b : Z) :
  cond_Zopp s a * b = cond_Zopp s (a * b).
Proof. destruct s; cbn [cond_Zopp]; lia. Qed.

Lemma SFsub_normalize (a b : spec_float) (E : Z) :
  valid_binary a = true -> valid_binary b = true ->
  SFfinite a = true -> SFfinite b = true ->
  emin <= E -> E <= SFexp a -> E <= SFexp b ->
  zero_equiv (SFsub prec emax a b)
    (binary_normalize prec emax (SFmant a E - SFmant b E) E false).
Proof.
  intros Va Vb Fa Fb HE Ha Hb.
  destruct a as [sa | sa | | sa ma ea]; try discriminate;
    destruct b as [sb | sb | | sb mb eb]; try discriminate;
    cbn [SFexp SFmant] in *.
  - right. destruct sa, sb; simpl; eauto.
  - left. cbn [SFsub].
    replace (0 - cond_Zopp sb (Zpos mb * 2 ^ (eb - E)))
      with (cond_Zopp (negb sb) (Zpos mb) * 2 ^ (eb - E))
      by (destruct sb; cbn [cond_Zopp negb]; lia).
    replace E with (eb - (eb - E)) at 2 by lia.
    rewrite binary_normalize_scale by lia.
    destruct sb; simpl; rewrite binary_round_canonical by exact Vb;
      reflexivity.
  - left. cbn [SFsub].
    replace (cond_Zopp sa (Zpos ma * 2 ^ (ea - E)) - 0)
      with (cond_Zopp sa (Zpos ma) * 2 ^ (ea - E))
      by (destruct sa; cbn [cond_Zopp negb]; lia).
    replace E with (ea - (ea - E)) at 2 by lia.
    rewrite binary_normalize_scale by lia.
    destruct sa; simpl; rewrite binary_round_canonical by exact Va;
      reflexivity.
  - left. cbn [SFsub].
    pose proof (bounded_canonical ma ea Va) as (Hea & _).
    pose proof (bounded_canonical mb eb Vb) as (Heb & _).
    set (ez := Z.min ea eb).
    rewrite !shl_align_value by (unfold ez; lia).
    replace (cond_Zopp sa (Zpos ma * 2 ^ (ea - E)) -
             cond_Zopp sb (Zpos mb * 2 ^ (eb - E)))
      with ((cond_Zopp sa (Zpos ma * 2 ^ (ea - ez)) -
             cond_Zopp sb (Zpos mb * 2 ^ (eb - ez))) * 2 ^ (ez - E)).
    + replace E with (ez - (ez - E)) at 2 by lia.
      rewrite binary_normalize_scale by (unfold ez; lia). reflexivity.
    + rewrite Z.mul_sub_distr_r, !cond_Zopp_mul, <- !Z.mul_assoc,
        <- !Z.pow_add_r by (unfold ez; lia).
      replace (ea - ez + (ez - E)) with (ea - E) by lia.
      replace (eb - ez + (ez - E)) with (eb - E) by lia.
      reflexivity.
Qed.

Lemma SFleb_mant (x y : spec_float) (E : Z) :
  valid_binary x = true -> valid_binary y = true ->
  SFfinite x = true -> SFfinite y = true ->
  E <= SFexp x -> E <= SFexp y ->
  SFleb x y = (SFmant x E <=? SFmant y E).
Proof.
  intros Vx Vy Fx Fy Hx Hy.
  destruct x as [sx | sx | | sx mx ex]; try discriminate;
    destruct y as [sy | sy | | sy my ey]; try discriminate;
    cbn [SFexp SFmant] in *.
  - reflexivity.
  - assert (0 < Zpos my * 2 ^ (ey - E))
      by (apply Z.mul_pos_pos; [lia | apply Z.pow_pos_nonneg; lia]).
    destruct sy; cbn [cond_Zopp]; unfold SFleb, SFcompare; symmetry;
      [apply Z.leb_gt | apply Z.leb_le]; lia.
  - assert (0 < Zpos mx * 2 ^ (ex - E))
      by (apply Z.mul_pos_pos; [lia | apply Z.pow_pos_nonneg; lia]).
    destruct sx; cbn [cond_Zopp]; unfold SFleb, SFcompare; symmetry;
      [apply Z.leb_le | apply Z.leb_gt]; lia.
  - pose proof (bounded_canonical mx ex Vx) as (Hex & _).
    pose proof (bounded_canonical my ey Vy) as (Hey & _).
    pose proof (canonical_compare mx my ex ey Vx Vy) as Hc.
    set (ez := Z.min ex ey) in *.
    rewrite !shl_align_value in Hc by (unfold ez; lia).
    replace (Zpos mx * 2 ^ (ex - E))
      with (Zpos mx * 2 ^ (ex - ez) * 2 ^ (ez - E)).
    2:{ rewrite <- Z.mul_assoc, <- Z.pow_add_r by (unfold ez; lia).
        f_equal. f_equal. lia. }
    replace (Zpos my * 2 ^ (ey - E))
      with (Zpos my * 2 ^ (ey - ez) * 2 ^ (ez - E)).
    2:{ rewrite <- Z.mul_assoc, <- Z.pow_add_r by (unfold ez; lia).
        f_equal. f_equal. lia. }
    assert (Hax : 0 < Zpos mx * 2 ^ (ex - ez))
      by (apply Z.mul_pos_pos;
          [lia | apply Z.pow_pos_nonneg; unfold ez; lia]).
    assert (Hay : 0 < Zpos my * 2 ^ (ey - ez))
      by (apply Z.mul_pos_pos;
          [lia | apply Z.pow_pos_nonneg; unfold ez; lia]).
    assert (Hc2 : 0 < 2 ^ (ez - E))
      by (apply Z.pow_pos_nonneg; unfold ez; lia).
    set (ax := Zpos mx * 2 ^ (ex - ez)) in *.
    set (ay := Zpos my * 2 ^ (ey - ez)) in *.
    set (c := 2 ^ (ez - E)) in *.
    clearbody ax ay c. unfold SFleb, SFcompare. revert Hc.
    destruct sx, sy; cbn [cond_Zopp];
      (destruct (ex ?= ey); [destruct (Pos.compare_cont Eq mx my) | |]);
      cbn [CompOpp]; intros Hc; symmetry in Hc;
      first [apply Z.compare_eq_iff in Hc
            | apply -> Z.compare_lt_iff in Hc
            | apply -> Z.compare_gt_iff in Hc];
      symmetry; first [apply Z.leb_le; nia | apply Z.leb_gt; nia].
Qed.

Lemma SFsub_antitone (g x y : spec_float) :
  valid_binary g = true -> valid_binary x = true -> valid_binary y = true ->
  g <> S754_nan -> SFfinite x = true -> SFfinite y = true ->
  SFleb x y = true ->
  SFleb (SFsub prec emax g y) (SFsub prec emax g x) = true.
Proof.
  intros Vg Vx Vy Hg Fx Fy Hle.
  destruct (SFfinite g) eqn:Fg.
  - set (E := Z.min (SFexp g) (Z.min (SFexp x) (SFexp y))).
    pose proof (SFexp_bounds g Vg). pose proof (SFexp_bounds x Vx).
    pose proof (SFexp_bounds y Vy).
    assert (HE : emin <= E) by (unfold E; lia).
    assert (Hgx : E <= SFexp g) by (unfold E; lia).
    assert (Hxx : E <= SFexp x) by (unfold E; lia).
    assert (Hyy : E <= SFexp y) by (unfold E; lia).
    rewrite (SFleb_zero_equiv _ _ _ _
               (SFsub_normalize g y E Vg Vy Fg Fy HE Hgx Hyy)
               (SFsub_normalize g x E Vg Vx Fg Fx HE Hgx Hxx)).
    apply binary_normalize_mono; [assumption |].
    rewrite (SFleb_mant x y E Vx Vy Fx Fy Hxx Hyy) in Hle.
    apply Z.leb_le in Hle. lia.
  - destruct g as [sg | sg | | sg mg eg]; try discriminate; [| congruence].
    destruct x as [sx | sx | | sx mx ex]; try discriminate;
      destruct y as [sy | sy | | sy my ey]; try discriminate;
      destruct sg; reflexivity.
Qed.

Lemma is_nan_SF (x : float) : is_nan x = false -> Prim2SF x <> S754_nan.
Proof.
  unfold is_nan. rewrite eqb_spec. intros H Hn. rewrite Hn in H.
  discriminate.
Qed.

Lemma sub_antitone (g x y : float) :
  is_nan g = false -> is_finite x = true -> is_finite y = true ->
  (x <=? y)%float = true -> (g - y <=? g - x)%float = true.
Proof.
  intros Hg Fx Fy. rewrite !leb_spec, !sub_spec.
  apply SFsub_antitone;
    auto using Prim2SF_valid, is_finite_SFfinite, is_nan_SF.
Qed.

(** ** The outcome decoder *)

Lemma get_boolean_outcome_invalid (s : string) :
  s <> "Yes" -> s <> "No" ->
  get_boolean_outcome s = Err (ValueError (NotBooleanOutcome s)).
Proof.
  intros Hy Hn. unfold get_boolean_outcome, OMEN_TRUE_OUTCOME, OMEN_FALSE_OUTCOME.
  destruct (String.eqb_spec s "Yes"); [contradiction |].
  destruct (String.eqb_spec s "No"); [contradiction | reflexivity].
Qed.

(** C7. [get_boolean_outcome] returns true on exactly the string "Yes",
    false on exactly the string "No", and raises the invalid-label
    [ValueError] on every other string; the comparison is case-sensitive.
    Being a function of its argument alone, it has no side effect. *)
Theorem get_boolean_outcome_spec (s : string) :
  (get_boolean_outcome s = Ok true <-> s = "Yes") /\
  (get_boolean_outcome s = Ok false <-> s = "No") /\
  (s <> "Yes" -> s <> "No" ->
   get_boolean_outcome s = Err (ValueError (NotBooleanOutcome s))).
Proof.
  unfold get_boolean_outcome, OMEN_TRUE_OUTCOME, OMEN_FALSE_OUTCOME, raise.
  destruct (String.eqb_spec s "Yes") as [-> | Hy].
  - repeat split; intros; try reflexivity; try discriminate; congruence.
  - destruct (String.eqb_spec s "No") as [-> | Hn].
    + repeat split; intros; try reflexivity; try discriminate; congruence.
    + repeat split; intros; try reflexivity; try discriminate; congruence.
Qed.

Lemma get_boolean_outcome_lowercase :
  get_boolean_outcome "Yes" = Ok true /\
  get_boolean_outcome "No" = Ok false /\
  get_boolean_outcome "yes" = Err (ValueError (NotBooleanOutcome "yes")).
Proof.
  split; [| split].
  - apply (proj1 (get_boolean_outcome_spec "Yes")). reflexivity.
  - apply (proj1 (proj2 (get_boolean_outcome_spec "No"))). reflexivity.
  - apply (proj2 (proj2 (get_boolean_outcome_spec "yes"))); discriminate.
Defined.

(** ** The resolved outcome of a market *)

Lemma market_boolean_outcome_resolved (m : OmenMarket.t) (answer : string) :
  OmenMarket.is_binary m = true ->
  OmenMarket.is_resolved m = true ->
  OmenMarket.currentAnswer m = Some answer ->
  OmenMarket.boolean_outcome m = decode_answer (OmenMarket.outcomes m) answer.
Proof.
  intros Hb Hr Ha. unfold OmenMarket.boolean_outcome.
  rewrite Hb, Hr, Ha. reflexivity.
Qed.

Lemma fpmm_boolean_outcome_resolved (m : OmenBetFPMM.t) (answer : string) :
  OmenBetFPMM.is_binary m = true ->
  OmenBetFPMM.is_resolved m = true ->
  OmenBetFPMM.currentAnswer m = Some answer ->
  OmenBetFPMM.boolean_outcome m = decode_answer (OmenBetFPMM.outcomes m) answer.
Proof.
  intros Hb Hr Ha. unfold OmenBetFPMM.boolean_outcome.
  rewrite Hb, Hr, Ha. reflexivity.
Qed.

Lemma decode_answer_unrecognized (outcomes : list string) (answer : string)
    (i : Z) (label : string) :
  int_base16 answer = Ok i ->
  getitem outcomes i = Ok label ->
  label <> "Yes" -> label <> "No" ->
  decode_answer outcomes answer = Err (ValueError (NotBooleanOutcome label)).
Proof.
  intros Hi Hl Hy Hn. unfold decode_answer.
  rewrite Hi. simpl. rewrite Hl. simpl.
  apply get_boolean_outcome_invalid; assumption.
Qed.

(** ** Profit of a bet *)

Section Profit.

Context (wei_to_xdai : Wei -> xDai).


Lemma get_profit_consults_market (b : OmenBet.t) (e : exn) :
  OmenBetFPMM.boolean_outcome (OmenBet.fpmm b) = Err e ->
  exists e', OmenBet.get_profit wei_to_xdai b = Err e'.
Proof.
  intros Hr. unfold OmenBet.get_profit.
  destruct (OmenBet.boolean_outcome b) as [chosen | e0]; simpl.
  - rewrite Hr. simpl. eauto.
  - eauto.
Qed.


(** C9. [get_profit] is not total: it raises, and returns no profit,
    whenever the embedded market is not resolved, or is not binary, or
    its decoded outcome label is not a recognized one, because the
    profit consults the resolved boolean outcome of the market. *)
Theorem get_profit_not_total (b : OmenBet.t) :
  OmenBetFPMM.is_resolved (OmenBet.fpmm b) = false \/
  OmenBetFPMM.is_binary (OmenBet.fpmm b) = false \/
  (exists answer i label,
     OmenBetFPMM.currentAnswer (OmenBet.fpmm b) = Some answer /\
     int_base16 answer = Ok i /\
     getitem (OmenBetFPMM.outcomes (OmenBet.fpmm b)) i = Ok label /\
     label <> "Yes" /\ label <> "No") ->
  exists e, OmenBet.get_profit wei_to_xdai b = Err e.
Proof.
  intros H.
  assert (Hm : exists e, OmenBetFPMM.boolean_outcome (OmenBet.fpmm b) = Err e).
  { unfold OmenBetFPMM.boolean_outcome, raise.
    destruct (OmenBetFPMM.is_binary (OmenBet.fpmm b)) eqn:Hb; simpl; [| eauto].
    destruct (OmenBetFPMM.is_resolved (OmenBet.fpmm b)) eqn:Hr; simpl; [| eauto].
    destruct H as [H | [H | (answer & i & label & Ha & Hi & Hl & Hy & Hn)]];
      try discriminate.
    rewrite Ha. simpl.
    change (exists e, decode_answer (OmenBetFPMM.outcomes (OmenBet.fpmm b)) answer = Err e).
    rewrite (decode_answer_unrecognized _ _ _ _ Hi Hl Hy Hn). eauto. }
  destruct Hm as [e He].
  exact (get_profit_consults_market b e He).
Qed.


End Profit.


(** A bet on a market with three outcomes has no profit. *)
Lemma get_profit_three_outcomes :
  exists e,
    OmenBet.get_profit wei_to_xdai_ether
      (sample_bet 10 1 15 0 10%float
         (sample_fpmm ["Yes"; "No"; "Maybe"] (Some 1700000200)
            (Some 1700000300) (Some "0x0"))) = Err e.
Proof.
  apply get_profit_not_total. right. left. reflexivity.
Defined.



(** ** Implied probability of a market *)

Lemma sum_two (a0 a1 : Z) : sum [a0; a1] = a0 + a1.
Proof. unfold sum. simpl. reflexivity. Qed.

Lemma index_from_lower (x : string) (l : list string) (start i : Z) :
  index_from x l start = Ok i -> start <= i.
Proof.
  revert start. induction l as [|y l IH]; simpl; intros start H.
  - discriminate.
  - destruct (String.eqb y x).
    + injection H as <-. lia.
    + apply IH in H. lia.
Qed.

(** [p_yes] once the two guards on the amounts have passed. *)
Lemma p_yes_two_amounts (m : OmenMarket.t) (a0 a1 : OmenOutcomeToken) :
  OmenMarket.outcomeTokenAmounts m = Some [a0; a1] ->
  OmenMarket.p_yes m =
    (true_index <- index (OmenMarket.outcomes m) "Yes" ;;
     if a0 + a1 =? 0 then Ok 0.5%float
     else
       true_amount <- getitem [a0; a1] true_index ;;
       q <- int_truediv true_amount (a0 + a1) ;;
       Ok (1 - q)%float).
Proof.
  intros Ha. unfold OmenMarket.p_yes. rewrite Ha.
  cbn [List.length Nat.eqb negb]. rewrite sum_two. reflexivity.
Qed.

(** C1, as the code has it.  For a market with exactly two token amounts
    whose outcomes hold "Yes" first at index 0 or 1, [p_yes] returns 0.5
    when the amounts sum to zero; otherwise it takes the amount at that
    index, divides it by the sum (one correctly rounded true division)
    and returns 1 minus the quotient.  With non-negative amounts the
    division always has a result. *)
Theorem p_yes_spec (m : OmenMarket.t) (amounts : list OmenOutcomeToken)
    (i : Z) :
  OmenMarket.outcomeTokenAmounts m = Some amounts ->
  List.length amounts = 2%nat ->
  index (OmenMarket.outcomes m) "Yes" = Ok i ->
  i < 2 ->
  (sum amounts = 0 -> OmenMarket.p_yes m = Ok 0.5%float) /\
  (sum amounts <> 0 ->
   exists a : OmenOutcomeToken,
     getitem amounts i = Ok a /\
     OmenMarket.p_yes m =
       (q <- int_truediv a (sum amounts) ;; Ok (1 - q)%float) /\
     (Forall (fun x => 0 <= x) amounts ->
      exists q : float,
        int_truediv a (sum amounts) = Ok q /\
        OmenMarket.p_yes m = Ok (1 - q)%float)).
Proof.
  intros Ha Hlen Hi Hlt.
  destruct (length_two amounts Hlen) as (a0 & a1 & ->).
  rewrite (p_yes_two_amounts m a0 a1 Ha), Hi, sum_two. simpl bind.
  pose proof (index_from_lower _ _ _ _ Hi) as Hge.
  split; intros Hs.
  - rewrite Hs. reflexivity.
  - pose proof Hs as Hs'. apply Z.eqb_neq in Hs'. rewrite Hs'.
    assert (Hcase : i = 0 \/ i = 1) by lia.
    destruct Hcase as [-> | ->].
    + exists a0. repeat split.
      intros Hpos. inversion Hpos as [|? ? H0 Hpos']; subst.
      inversion Hpos' as [|? ? H1 _]; subst.
      destruct (int_truediv_fraction a0 (a0 + a1)) as [q Hq]; [lia | lia |].
      exists q. split; [assumption |].
      change (getitem [a0; a1] 0) with (Ok a0). simpl bind.
      rewrite Hq. reflexivity.
    + exists a1. repeat split.
      intros Hpos. inversion Hpos as [|? ? H0 Hpos']; subst.
      inversion Hpos' as [|? ? H1 _]; subst.
      destruct (int_truediv_fraction a1 (a0 + a1)) as [q Hq]; [lia | lia |].
      exists q. split; [assumption |].
      change (getitem [a0; a1] 1) with (Ok a1). simpl bind.
      rewrite Hq. reflexivity.
Qed.

#[local] Set Warnings "-inexact-float".

(** The scenario of the specification: outcomes "Yes", "No" with token
    amounts 30 and 70 give 1 - 30/100, the float 0.7. *)
Lemma p_yes_scenario :
  OmenMarket.p_yes (sample_market yes_no [30; 70] None None) = Ok 0.7%float.
Proof.
  destruct (p_yes_spec (sample_market yes_no [30; 70] None None) [30; 70] 0
              eq_refl eq_refl eq_refl eq_refl) as [_ H].
  destruct H as (a & Ha & Hp & _).
  - discriminate.
  - injection Ha as <-. rewrite Hp. reflexivity.
Defined.

(** C1 fails as worded: with two token amounts and "Yes" as the third
    outcome, the amount at index 2 does not exist and [p_yes] raises
    [IndexError]. *)
Lemma p_yes_yes_at_third :
  ~ p_yes_candidate (sample_market ["No"; "Maybe"; "Yes"] [30; 70] None None).
Proof.
  intros H.
  destruct (H [30; 70] eq_refl eq_refl) as [_ H'].
  - simpl. auto.
  - destruct H' as (i & a & q & _ & _ & _ & Hp); discriminate.
Qed.

Lemma p_yes_inv (m : OmenMarket.t) (p : Probability) :
  OmenMarket.p_yes m = Ok p ->
  exists a0 a1, OmenMarket.outcomeTokenAmounts m = Some [a0; a1].
Proof.
  unfold OmenMarket.p_yes, raise.
  destruct (OmenMarket.outcomeTokenAmounts m) as [amounts |]; [| discriminate].
  destruct (Nat.eqb (List.length amounts) 2) eqn:Hlen; simpl; [| discriminate].
  intros _. apply Nat.eqb_eq in Hlen.
  destruct (length_two amounts Hlen) as (a0 & a1 & ->). eauto.
Qed.

(** C5, as the code has it.  The guard of [p_yes] is on the token
    amounts: a market whose outcomeTokenAmounts are absent, or are not
    exactly two, makes [p_yes] raise the shape error, and [p_yes]
    returns only on a market with exactly two token amounts.  The number
    of outcomes is not examined. *)
Theorem p_yes_shape (m : OmenMarket.t) :
  (OmenMarket.outcomeTokenAmounts m = None ->
   OmenMarket.p_yes m =
     Err (ValueError (NoOutcomeTokenAmounts (OmenMarket.title m)))) /\
  (forall amounts,
     OmenMarket.outcomeTokenAmounts m = Some amounts ->
     List.length amounts <> 2%nat ->
     OmenMarket.p_yes m =
       Err (ValueError (OutcomeCount (OmenMarket.title m)
                          (List.length amounts)))) /\
  (forall p,
     OmenMarket.p_yes m = Ok p ->
     exists a0 a1, OmenMarket.outcomeTokenAmounts m = Some [a0; a1]).
Proof.
  split; [| split].
  - intros H. unfold OmenMarket.p_yes. rewrite H. reflexivity.
  - intros amounts H Hlen. unfold OmenMarket.p_yes. rewrite H.
    apply Nat.eqb_neq in Hlen. rewrite Hlen. reflexivity.
  - apply p_yes_inv.
Qed.

(** Three token amounts raise the shape error; two return. *)
Lemma p_yes_shape_examples :
  OmenMarket.p_yes (sample_market yes_no [30; 30; 40] None None) =
    Err (ValueError (OutcomeCount "Will it rain?" 3)) /\
  exists a0 a1,
    OmenMarket.outcomeTokenAmounts (sample_market yes_no [30; 70] None None)
    = Some [a0; a1].
Proof.
  split.
  - apply (proj1 (proj2 (p_yes_shape
                           (sample_market yes_no [30; 30; 40] None None)))
             [30; 30; 40] eq_refl).
    discriminate.
  - apply (proj2 (proj2 (p_yes_shape
                           (sample_market yes_no [30; 70] None None)))
             0.7%float).
    reflexivity.
Defined.

(** C5 fails as worded: a market with three outcomes and two token
    amounts has an implied probability. *)
Lemma p_yes_three_outcomes :
  ~ p_yes_shape_candidate
      (sample_market ["Yes"; "No"; "Maybe"] [30; 70] None None).
Proof.
  intros H. destruct H as (e & He & _).
  - discriminate.
  - discriminate He.
Qed.

(** ** Resolution of a market *)

(** C4, as the code has it.  An unresolved market has the "no
    resolution yet" value.  A resolved market has YES or NO, following
    its resolved boolean outcome, when [boolean_outcome] returns; when
    [boolean_outcome] raises (the market is not binary, or the answer
    does not decode to a "Yes" or "No" label), [get_resolution_enum]
    raises the same error. *)
Theorem get_resolution_enum_spec (m : OmenMarket.t) :
  (OmenMarket.is_resolved m = false ->
   OmenMarket.get_resolution_enum m = Ok None) /\
  (OmenMarket.is_resolved m = true ->
   forall b : bool,
     OmenMarket.boolean_outcome m = Ok b ->
     OmenMarket.get_resolution_enum m =
       Ok (Some (if b then Resolution.YES else Resolution.NO))) /\
  (OmenMarket.is_resolved m = true ->
   forall e : exn,
     OmenMarket.boolean_outcome m = Err e ->
     OmenMarket.get_resolution_enum m = Err e).
Proof.
  unfold OmenMarket.get_resolution_enum.
  split; [| split]; intros Hr.
  - rewrite Hr. reflexivity.
  - intros b Hb. rewrite Hr, Hb. destruct b; reflexivity.
  - intros e He. rewrite Hr, He. reflexivity.
Qed.

(** A market resolved to its second outcome, "No". *)
Lemma get_resolution_enum_no :
  OmenMarket.get_resolution_enum
    (sample_market yes_no [30; 70] (Some 1700000200) (Some "0x1"))
  = Ok (Some Resolution.NO).
Proof.
  apply (proj1 (proj2 (get_resolution_enum_spec
           (sample_market yes_no [30; 70] (Some 1700000200) (Some "0x1"))))
           eq_refl false).
  reflexivity.
Defined.

(** C4 fails as worded: a resolved market with three outcomes has no
    resolution, [get_resolution_enum] raises the not-binary error. *)
Lemma get_resolution_enum_three_outcomes :
  ~ resolution_enum_candidate
      (sample_market ["Yes"; "No"; "Maybe"] [30; 30; 40] (Some 1700000200)
         (Some "0x0")).
Proof.
  intros [H _]. destruct (H eq_refl) as [H' | H']; discriminate H'.
Qed.

(** ** The answer index *)

Lemma get_boolean_outcome_no_index_error (s : string) :
  get_boolean_outcome s <> Err IndexError.
Proof.
  unfold get_boolean_outcome, raise.
  destruct (String.eqb s OMEN_TRUE_OUTCOME); [discriminate |].
  destruct (String.eqb s OMEN_FALSE_OUTCOME); discriminate.
Qed.

Lemma decode_answer_two (x y : string) (answer : string) (i : Z) :
  int_base16 answer = Ok i ->
  (decode_answer [x; y] answer = Err IndexError <-> i < -2 \/ 2 <= i).
Proof.
  intros Hi. unfold decode_answer. rewrite Hi. simpl bind.
  rewrite getitem_two.
  destruct (Z.eqb_spec i 0); simpl orb.
  - simpl bind. split; [intros H | lia].
    exfalso. exact (get_boolean_outcome_no_index_error x H).
  - destruct (Z.eqb_spec i (-2)); simpl orb.
    + simpl bind. split; [intros H | lia].
      exfalso. exact (get_boolean_outcome_no_index_error x H).
    + destruct (Z.eqb_spec i 1); simpl orb.
      * simpl bind. split; [intros H | lia].
        exfalso. exact (get_boolean_outcome_no_index_error y H).
      * destruct (Z.eqb_spec i (-1)); simpl orb.
        -- simpl bind. split; [intros H | lia].
           exfalso. exact (get_boolean_outcome_no_index_error y H).
        -- simpl bind. split; [lia | reflexivity].
Qed.

(** C8, as the code has it.  On a binary and resolved market, be it an
    [OmenMarket] or an [OmenBetFPMM], [boolean_outcome] reads
    outcomes[int(currentAnswer, 16)], and the access raises [IndexError]
    exactly when the decoded index is below -2 or above 1: being binary
    and resolved does not make it safe, and the safe indices are -2, -1,
    0 and 1, since an index below zero counts from the end. *)
Theorem boolean_outcome_index_safety (answer : string) (i : Z) :
  int_base16 answer = Ok i ->
  (forall m : OmenMarket.t,
     OmenMarket.is_binary m = true ->
     OmenMarket.is_resolved m = true ->
     OmenMarket.currentAnswer m = Some answer ->
     OmenMarket.boolean_outcome m =
       (outcome <- getitem (OmenMarket.outcomes m) i ;;
        get_boolean_outcome outcome) /\
     (OmenMarket.boolean_outcome m = Err IndexError <-> i < -2 \/ 2 <= i)) /\
  (forall m : OmenBetFPMM.t,
     OmenBetFPMM.is_binary m = true ->
     OmenBetFPMM.is_resolved m = true ->
     OmenBetFPMM.currentAnswer m = Some answer ->
     OmenBetFPMM.boolean_outcome m =
       (outcome <- getitem (OmenBetFPMM.outcomes m) i ;;
        get_boolean_outcome outcome) /\
     (OmenBetFPMM.boolean_outcome m = Err IndexError <-> i < -2 \/ 2 <= i)).
Proof.
  intros Hi. split; intros m Hb Hr Ha.
  - rewrite (market_boolean_outcome_resolved m answer Hb Hr Ha).
    split; [unfold decode_answer; rewrite Hi; reflexivity |].
    unfold OmenMarket.is_binary in Hb. apply Nat.eqb_eq in Hb.
    destruct (length_two _ Hb) as (x & y & ->).
    apply decode_answer_two. assumption.
  - rewrite (fpmm_boolean_outcome_resolved m answer Hb Hr Ha).
    split; [unfold decode_answer; rewrite Hi; reflexivity |].
    unfold OmenBetFPMM.is_binary in Hb. apply Nat.eqb_eq in Hb.
    destruct (length_two _ Hb) as (x & y & ->).
    apply decode_answer_two. assumption.
Qed.

(** A binary and resolved market whose answer is 2, and one whose answer
    is the invalid-answer word of the oracle, raise [IndexError]. *)
Lemma boolean_outcome_out_of_range :
  OmenMarket.boolean_outcome
    (sample_market yes_no [30; 70] (Some 1700000200) (Some "0x2"))
  = Err IndexError /\
  OmenBetFPMM.boolean_outcome
    (sample_fpmm yes_no (Some 1700000200) (Some 1700000300)
       (Some "0xffffffffffffffffffffffffffffffffffffffffffffffffffffffffffffffff"))
  = Err IndexError.
Proof.
  split.
  - apply (proj1 (boolean_outcome_index_safety "0x2" 2 eq_refl)
             (sample_market yes_no [30; 70] (Some 1700000200) (Some "0x2"))
             eq_refl eq_refl eq_refl).
    right. apply Z.le_refl.
  - apply (proj2 (boolean_outcome_index_safety
                    "0xffffffffffffffffffffffffffffffffffffffffffffffffffffffffffffffff"
                    (2 ^ 256 - 1) eq_refl)
             (sample_fpmm yes_no (Some 1700000200) (Some 1700000300)
                (Some "0xffffffffffffffffffffffffffffffffffffffffffffffffffffffffffffffff"))
             eq_refl eq_refl eq_refl).
    right. discriminate.
Defined.

(** C8 fails as worded: the answer "-1" decodes to the index -1,
    which is the last outcome, and [boolean_outcome] returns. *)
Lemma boolean_outcome_negative_index :
  ~ answer_index_candidate
      (sample_market yes_no [30; 70] (Some 1700000200) (Some "-1")).
Proof.
  intros H.
  destruct (H "-1" (-1) eq_refl eq_refl eq_refl eq_refl) as [H' | H'];
    discriminate.
Qed.

(** ** Projection to a resolved bet *)

Lemma getitem_error {A : Type} (l : list A) (i : Z) (e : exn) :
  getitem l i = Err e -> e = IndexError.
Proof.
  unfold getitem, raise.
  destruct (_ || _); [congruence |].
  destruct (nth_error _ _); congruence.
Qed.

Lemma get_boolean_outcome_error (s : string) (e : exn) :
  get_boolean_outcome s = Err e -> e = ValueError (NotBooleanOutcome s).
Proof.
  unfold get_boolean_outcome, raise.
  destruct (String.eqb s OMEN_TRUE_OUTCOME); [discriminate |].
  destruct (String.eqb s OMEN_FALSE_OUTCOME); congruence.
Qed.

Lemma int_base16_error (s : string) (e : exn) :
  int_base16 s = Err e -> e = ValueError (InvalidLiteral s).
Proof.
  unfold int_base16, raise.
  destruct (match lstrip s with
            | String "-" r => (true, r)
            | String "+" r => (false, r)
            | _ => (false, lstrip s)
            end) as [neg s2].
  destruct (hex_digits 0 false (strip_prefix s2)); congruence.
Qed.



Section Projection.

Context (wei_to_xdai : Wei -> xDai).
Context {datetime : Type} (localtime : Z -> option datetime).





Lemma to_generic_resolved_bet_inv (b : OmenBet.t)
    (r : ResolvedBet.t datetime) :
  OmenBet.to_generic_resolved_bet wei_to_xdai localtime b = Ok r ->
  OmenBetFPMM.is_resolved (OmenBet.fpmm b) = true /\
  ResolvedBet.amount r =
    BetAmount.mk (Decimal_of_float (OmenBet.collateralAmountUSD b))
                 Currency.xDai.
Proof.
  unfold OmenBet.to_generic_resolved_bet, raise.
  destruct (OmenBetFPMM.is_resolved (OmenBet.fpmm b)); simpl; [| discriminate].
  intros H.
  apply bind_inv_ok in H. destruct H as (c & _ & H).
  apply bind_inv_ok in H. destruct H as (d & _ & H).
  apply bind_inv_ok in H. destruct H as (mo & _ & H).
  apply bind_inv_ok in H. destruct H as (ts & _ & H).
  apply bind_inv_ok in H. destruct H as (d' & _ & H).
  apply bind_inv_ok in H. destruct H as (p & _ & H).
  injection H as <-. split; reflexivity.
Qed.


(** C10. Whenever [to_generic_resolved_bet] returns, which it does only
    for a bet whose embedded market is resolved, the amount of the
    resolved bet is the decimal of collateralAmountUSD, the collateral in
    USD, and its currency tag is [Currency.xDai], the bet amount
    currency of [OmenMarket]: the tag does not name the unit of the
    amount. *)
Theorem to_generic_resolved_bet_amount (b : OmenBet.t)
    (r : ResolvedBet.t datetime) :
  OmenBet.to_generic_resolved_bet wei_to_xdai localtime b = Ok r ->
  OmenBetFPMM.is_resolved (OmenBet.fpmm b) = true /\
  BetAmount.amount (ResolvedBet.amount r) =
    Decimal_of_float (OmenBet.collateralAmountUSD b) /\
  BetAmount.currency (ResolvedBet.amount r) = Currency.xDai /\
  BetAmount.currency (ResolvedBet.amount r) = OmenMarket.BET_AMOUNT_CURRENCY.
Proof.
  intros H. apply to_generic_resolved_bet_inv in H.
  destruct H as [Hres ->]. repeat split; assumption.
Qed.

End Projection.



(** A bet of 10 xDai worth 9.97 USD: the resolved bet carries 9.97
    tagged xDai. *)
Lemma to_generic_resolved_bet_amount_example :
  exists r,
    OmenBet.to_generic_resolved_bet wei_to_xdai_ether utc_localtime
      (sample_bet (10 * 10 ^ 18) (10 ^ 18) (15 * 10 ^ 18) 0 9.97%float
         resolved_yes_fpmm) = Ok r /\
    BetAmount.amount (ResolvedBet.amount r) = Decimal_of_float 9.97%float /\
    BetAmount.currency (ResolvedBet.amount r) = Currency.xDai /\
    wei_to_xdai_ether (10 * 10 ^ 18) = 10%float.
Proof.
  eexists. split; [reflexivity |].
  destruct (to_generic_resolved_bet_amount wei_to_xdai_ether utc_localtime
              (sample_bet (10 * 10 ^ 18) (10 ^ 18) (15 * 10 ^ 18) 0 9.97%float
                 resolved_yes_fpmm) _ eq_refl) as (_ & Ha & Hc & _).
  split; [exact Ha | split; [exact Hc | reflexivity]].
Defined.

(** * Further properties *)

(** ** Rounded quotients are floats of the format, and a part of the
    whole is at most one *)

Lemma Zdigits2_lt (m : Z) : 0 <= m -> m < 2 ^ Zdigits2 m.
Proof.
  intros H. destruct m as [|p|p]; try lia.
  - reflexivity.
  - apply digits2_pos_bounds.
Qed.

Lemma Zdigits2_nonneg (m : Z) : 0 <= Zdigits2 m.
Proof. destruct m; simpl; lia. Qed.

Lemma Zdigits2_ge (m : Z) : 0 < m -> 2 ^ (Zdigits2 m - 1) <= m.
Proof.
  intros H. destruct m as [|p|p]; try lia. apply digits2_pos_bounds.
Qed.

Lemma shr_first_bounds (m e : Z) (l : location) :
  0 <= m -> e <= fexp prec emax (Zdigits2 m + e) ->
  let F := fexp prec emax (Zdigits2 m + e) in
  let mrs := fst (shr (shr_record_of_loc m l) e (F - e)) in
  shr_fexp prec emax m e l = (mrs, F) /\
  0 <= shr_m mrs < 2 ^ 53 /\
  2 ^ (F - e) * shr_m mrs <= m < 2 ^ (F - e) * (shr_m mrs + 1) /\
  (emin < F -> 2 ^ 52 <= shr_m mrs).
Proof.
  intros Hm He F mrs.
  assert (HF : F = Z.max (Zdigits2 m + e - 53) (-1074)) by apply fexp_eq.
  pose proof (Zdigits2_lt m Hm) as Hlt.
  pose proof (Zdigits2_nonneg m) as Hd0.
  assert (Hmin : emin = -1074) by reflexivity.
  assert (Hbnd : 0 <= shr_m mrs /\
                 2 ^ (F - e) * shr_m mrs <= m < 2 ^ (F - e) * (shr_m mrs + 1)).
  { unfold mrs, shr. destruct (F - e) as [|p|p] eqn:Hn; try lia; cbn [fst].
    - rewrite shr_record_of_loc_m. change (2 ^ 0) with 1. lia.
    - pose proof (iter_shr_1_bounds p (shr_record_of_loc m l)) as Hi.
      rewrite shr_record_of_loc_m in Hi. specialize (Hi Hm). lia. }
  destruct Hbnd as [H0 Hb].
  assert (Hp : 0 < 2 ^ (F - e)) by (apply Z.pow_pos_nonneg; lia).
  split; [| split; [split; [assumption |] | split; [assumption |]]].
  - unfold shr_fexp. fold F. unfold mrs, shr.
    destruct (F - e) as [|p|p] eqn:Hn; try lia; cbn [fst]; f_equal; lia.
  - (* m1 < 2^53 *)
    assert (Hpow : 2 ^ Zdigits2 m <= 2 ^ (F - e) * 2 ^ 53).
    { rewrite <- Z.pow_add_r by lia. apply Z.pow_le_mono_r; lia. }
    apply (Z.mul_lt_mono_pos_l (2 ^ (F - e))); [assumption | lia].
  - intros HFe.
    assert (HF' : F = Zdigits2 m + e - 53) by lia.
    assert (0 < m).
    { destruct (Z.eq_dec m 0) as [-> | ]; [| lia]. simpl in HF'. lia. }
    pose proof (Zdigits2_ge m H) as Hge.
    assert (Hpow : 2 ^ (Zdigits2 m - 1) = 2 ^ (F - e) * 2 ^ 52).
    { rewrite <- Z.pow_add_r by lia. f_equal. lia. }
    apply Z.lt_succ_r.
    apply (Z.mul_lt_mono_pos_l (2 ^ (F - e))); [assumption |].
    unfold Z.succ. lia.
Qed.

Lemma binary_round_aux_out (sx : bool) (m e : Z) (l : location) :
  0 <= m -> e <= fexp prec emax (Zdigits2 m + e) ->
  binary_round_aux prec emax sx m e l =
    pack sx (fst (round_aux_out m e l)) (snd (round_aux_out m e l)).
Proof.
  intros Hm He.
  destruct (shr_first_bounds m e l Hm He) as (Hs & [H0 H53] & Hb & Hn).
  rewrite binary_round_aux_pack, Hs. cbn [fst snd].
  unfold round_aux_out.
  set (F := fexp prec emax (Zdigits2 m + e)) in *.
  set (mrs := fst (shr (shr_record_of_loc m l) e (F - e))) in *.
  pose proof (round_shr_bounds mrs H0) as Hr.
  set (mr := round_shr mrs) in *.
  assert (HFmin : -1074 <= F) by (unfold F; rewrite fexp_eq; lia).
  destruct (Z.eqb_spec mr (2 ^ 53)) as [Heq | Hne].
  - rewrite Heq.
    assert (Hsh : shr_fexp prec emax (2 ^ 53) F loc_Exact
                 = (Build_shr_record (2 ^ 52) false false, F + 1)).
    { unfold shr_fexp. change (Zdigits2 (2 ^ 53)) with 54. rewrite fexp_eq.
      replace (Z.max (54 + F - 53) (-1074) - F) with 1 by lia. reflexivity. }
    rewrite Hsh. reflexivity.
  - assert (Hlt : mr < 2 ^ 53) by lia.
    assert (Hnoshift : fexp prec emax (Zdigits2 mr + F) <= F).
    { rewrite fexp_eq.
      destruct (Z.eq_dec mr 0) as [-> | Hnz]; [simpl; lia |].
      assert (Zdigits2 mr <= 53) by (apply Zdigits2_upper; lia). lia. }
    rewrite shr_fexp_noshift by assumption. reflexivity.
Qed.

Lemma pack_valid (sx : bool) (m e : Z) :
  0 <= m -> (0 < m -> fexp prec emax (Zdigits2 m + e) = e) ->
  valid_binary (pack sx m e) = true.
Proof.
  intros H0 Hc. destruct m as [|p|p]; try lia; [reflexivity |].
  unfold pack. destruct (Z.leb_spec e (emax - prec)) as [Hle | Hgt];
    [| reflexivity].
  cbn [SpecFloat.valid_binary]. unfold bounded, canonical_mantissa.
  specialize (Hc ltac:(lia)). cbn [Zdigits2] in Hc.
  rewrite Hc, Z.eqb_refl. apply Z.leb_le in Hle. rewrite Hle. reflexivity.
Qed.

Lemma binary_round_aux_valid (sx : bool) (m e : Z) (l : location) :
  0 <= m -> e <= fexp prec emax (Zdigits2 m + e) ->
  valid_binary (binary_round_aux prec emax sx m e l) = true.
Proof.
  intros Hm He. rewrite binary_round_aux_out by assumption.
  destruct (shr_first_bounds m e l Hm He) as (Hs & [H0 H53] & Hb & Hn).
  unfold round_aux_out.
  set (F := fexp prec emax (Zdigits2 m + e)) in *.
  set (mrs := fst (shr (shr_record_of_loc m l) e (F - e))) in *.
  pose proof (round_shr_bounds mrs H0) as Hr.
  set (mr := round_shr mrs) in *.
  assert (HFmin : -1074 <= F) by (unfold F; rewrite fexp_eq; lia).
  assert (Hmin : emin = -1074) by reflexivity.
  destruct (Z.eqb_spec mr (2 ^ 53)) as [Heq | Hne]; cbn [fst snd].
  - apply pack_valid; [lia |]. intros _.
    change (Zdigits2 (2 ^ 52)) with 53. rewrite fexp_eq. lia.
  - apply pack_valid; [lia |]. intros Hpos. rewrite fexp_eq.
    assert (Hd : Zdigits2 mr <= 53) by (apply Zdigits2_upper; lia).
    destruct (Z.eq_dec F (-1074)) as [HFe | HFe]; [lia |].
    assert (Zdigits2 mr = 53) by (apply Zdigits2_eq; lia). lia.
Qed.

Lemma SFdiv_core_int (m1 m2 : positive) :
  exists q e' l,
    SFdiv_core_binary prec emax (Zpos m1) 0 (Zpos m2) 0 = (q, e', l) /\
    e' <= 0 /\ 0 <= q /\
    Zpos m2 * q <= Zpos m1 * 2 ^ (- e') < Zpos m2 * (q + 1) /\
    (Zpos m2 * q = Zpos m1 * 2 ^ (- e') -> l = loc_Exact) /\
    e' <= fexp prec emax (Zdigits2 q + e').
Proof.
  unfold SFdiv_core_binary.
  set (d1 := Zdigits2 (Zpos m1)). set (d2 := Zdigits2 (Zpos m2)).
  set (e' := Z.min (fexp prec emax (d1 + 0 - (d2 + 0))) (0 - 0)).
  assert (He : e' <= 0) by (unfold e'; lia).
  replace (0 - 0 - e') with (- e') by lia.
  set (m' := match - e' with
             | Z0 => Zpos m1
             | Zpos _ => Z.shiftl (Zpos m1) (- e')
             | Zneg _ => 0
             end).
  assert (Hm' : m' = Zpos m1 * 2 ^ (- e')).
  { unfold m'. destruct (- e') as [|p|p] eqn:Hs; [simpl; lia | | lia].
    rewrite Z.shiftl_mul_pow2 by lia. reflexivity. }
  pose proof (Z_div_mod m' (Zpos m2) eq_refl) as Hdiv.
  destruct (Z.div_eucl m' (Zpos m2)) as [q r]. destruct Hdiv as [Heq Hr].
  assert (Hp : 0 < 2 ^ (- e')) by (apply Z.pow_pos_nonneg; lia).
  assert (Hq : 0 <= q) by nia.
  exists q, e', (new_location (Zpos m2) r). rewrite <- Hm'.
  split; [reflexivity |]. split; [assumption |]. split; [assumption |].
  split; [lia |]. split.
  - intros Hex. assert (r = 0) by lia. subst r.
    unfold new_location, new_location_even, new_location_odd.
    destruct (Z.even (Zpos m2)); reflexivity.
  - (* enough digits *)
    pose proof (Zdigits2_lt q Hq) as Hql.
    pose proof (digits2_pos_bounds m1) as [Hl1 _].
    pose proof (digits2_pos_bounds m2) as [_ Hu2].
    fold (Zdigits2 (Zpos m1)) in Hl1. fold d1 in Hl1.
    fold (Zdigits2 (Zpos m2)) in Hu2. fold d2 in Hu2.
    pose proof (Zdigits2_nonneg q) as Hdq.
    assert (Hd1 : 0 < d1) by (unfold d1; simpl; lia).
    assert (Hd2 : 0 < d2) by (unfold d2; simpl; lia).
    assert (Hlow : 2 ^ (d1 - 1 + - e') < 2 ^ (d2 + Zdigits2 q)).
    { rewrite !Z.pow_add_r by lia.
      assert (0 < 2 ^ Zdigits2 q) by (apply Z.pow_pos_nonneg; lia).
      assert (0 < 2 ^ d2) by (apply Z.pow_pos_nonneg; lia).
      nia. }
    apply Z.pow_lt_mono_r_iff in Hlow; [| lia | lia].
    rewrite fexp_eq. unfold e'. rewrite fexp_eq.
    unfold e' in Hlow. rewrite fexp_eq in Hlow. lia.
Qed.

Lemma SFdiv_int_valid (a b : Z) :
  valid_binary (SFdiv prec emax (Z2SF a) (Z2SF b)) = true.
Proof.
  destruct a as [|pa|pa], b as [|pb|pb]; try reflexivity;
    cbn [Z2SF SFdiv];
    destruct (SFdiv_core_int pa pb) as (q & e' & l & -> & _ & Hq & _ & _ & He);
    apply binary_round_aux_valid; assumption.
Qed.

Lemma pack_le_one (m e : Z) :
  0 <= m -> e <= -52 -> m <= 2 ^ (- e) ->
  SFleb (pack false m e) (S754_finite false 4503599627370496 (-52)) = true.
Proof.
  intros H0 He Hm.
  destruct (Z.eq_dec m 0) as [-> | Hnz]; [reflexivity |].
  change (S754_finite false 4503599627370496 (-52))
    with (pack false (2 ^ 52) (-52)).
  apply pack_le; [lia | reflexivity |].
  unfold out_le. cbn [fst snd].
  destruct (Z.eq_dec e (-52)) as [-> | Hne]; [right | left; lia].
  split; [reflexivity | exact Hm].
Qed.

Lemma SFdiv_fraction_le_one (pa ps : positive) :
  (pa <= ps)%positive ->
  SFleb (SFdiv prec emax (S754_finite false pa 0) (S754_finite false ps 0))
        (S754_finite false 4503599627370496 (-52)) = true.
Proof.
  intros Hle. cbn [SFdiv].
  destruct (SFdiv_core_int pa ps)
    as (q & e' & l & -> & He & Hq & [Hlo Hhi] & Hex & Hf).
  cbn [xorb]. rewrite binary_round_aux_out by assumption.
  destruct (shr_first_bounds q e' l Hq Hf) as (Hs & [H0 H53] & Hb & Hn).
  unfold round_aux_out.
  set (F := fexp prec emax (Zdigits2 q + e')) in *.
  set (mrs := fst (shr (shr_record_of_loc q l) e' (F - e'))) in *.
  pose proof (round_shr_bounds mrs H0) as Hr.
  set (mr := round_shr mrs) in *.
  assert (Hp : 0 < 2 ^ (- e')) by (apply Z.pow_pos_nonneg; lia).
  assert (Hq2 : q <= 2 ^ (- e')) by nia.
  assert (HF : F <= -52).
  { assert (Zdigits2 q <= - e' + 1).
    { apply Zdigits2_upper; [| lia]. rewrite Z.pow_add_r by lia.
      change (2 ^ 1) with 2. lia. }
    unfold F. rewrite fexp_eq. lia. }
  assert (Hpn : 0 < 2 ^ (F - e')) by (apply Z.pow_pos_nonneg; lia).
  assert (Hsplit : 2 ^ (- e') = 2 ^ (F - e') * 2 ^ (- F)).
  { rewrite <- Z.pow_add_r by lia. f_equal. lia. }
  assert (Hmr : mr <= 2 ^ (- F)).
  { destruct (Z.eq_dec q (2 ^ (- e'))) as [Heq | Hne].
    - assert (Hl : l = loc_Exact) by (apply Hex; nia). subst l.
      clear Hsplit. unfold mr, mrs, shr. rewrite Heq.
      destruct (F - e') as [|p|p] eqn:Hn'; try lia; cbn [fst].
      + replace (- e') with (- F) by lia.
        change (round_shr (shr_record_of_loc (2 ^ (- F)) loc_Exact))
          with (2 ^ (- F)). lia.
      + replace (2 ^ (- e')) with (2 ^ (- F) * 2 ^ Zpos p).
        2:{ rewrite <- Z.pow_add_r by lia. f_equal. lia. }
        change (shr_record_of_loc (2 ^ (- F) * 2 ^ Zpos p) loc_Exact)
          with (Build_shr_record (2 ^ (- F) * 2 ^ Zpos p) false false).
        rewrite iter_shr_1_exact by (apply Z.pow_nonneg; lia).
        change (round_shr (Build_shr_record (2 ^ (- F)) false false))
          with (2 ^ (- F)). lia.
    - assert (shr_m mrs < 2 ^ (- F)).
      { apply (Z.mul_lt_mono_pos_l (2 ^ (F - e'))); [assumption | lia]. }
      lia. }
  destruct (Z.eqb_spec mr (2 ^ 53)) as [Heq | Hne]; cbn [fst snd].
  - apply pack_le_one; [lia | |].
    + assert (2 ^ 53 <= 2 ^ (- F)) by lia.
      apply Z.pow_le_mono_r_iff in H; lia.
    + assert (2 ^ 53 <= 2 ^ (- F)) by lia.
      apply Z.pow_le_mono_r_iff in H; [| lia | lia].
      apply Z.pow_le_mono_r; lia.
  - apply pack_le_one; [lia | assumption | assumption].
Qed.

Lemma SFfinite_is_finite (x : float) :
  SFfinite (Prim2SF x) = true -> is_finite x = true.
Proof.
  unfold is_finite, is_nan, is_infinity.
  rewrite !eqb_spec, abs_spec.
  change (Prim2SF infinity) with (S754_infinity false).
  destruct (Prim2SF x) as [s | s | | s m e]; try discriminate; intros _.
  - destruct s; reflexivity.
  - unfold SFeqb, SFabs, SFcompare.
    rewrite Z.compare_refl, Pos.compare_cont_refl.
    destruct s; reflexivity.
Qed.

Lemma leb_unit_finite (q : float) :
  (0 <=? q)%float = true -> (q <=? 1)%float = true -> is_finite q = true.
Proof.
  rewrite !leb_spec. change (Prim2SF 0) with (S754_zero false).
  change (Prim2SF 1) with (S754_finite false 4503599627370496 (-52)).
  intros H0 H1. apply SFfinite_is_finite.
  destruct (Prim2SF q) as [s | s | | s m e]; try reflexivity;
    try discriminate.
  destruct s; discriminate.
Qed.

Lemma sub_zero_r (g : float) : (g - 0)%float = g.
Proof.
  apply Prim2SF_inj. rewrite sub_spec.
  change (Prim2SF 0) with (S754_zero false).
  destruct (Prim2SF g) as [s | s | | s m e]; try reflexivity.
  destruct s; reflexivity.
Qed.

Lemma sub_diag (x : float) : is_finite x = true -> (x - x)%float = 0%float.
Proof.
  intros Fx. apply Prim2SF_inj. rewrite sub_spec.
  change (Prim2SF 0) with (S754_zero false).
  apply is_finite_SFfinite in Fx.
  destruct (Prim2SF x) as [s | s | | s m e]; try discriminate.
  - destruct s; reflexivity.
  - unfold SF64sub, SFsub. rewrite Z.sub_diag. reflexivity.
Qed.

Lemma unit_complement (q : float) :
  (0 <=? q)%float = true -> (q <=? 1)%float = true ->
  (0 <=? 1 - q)%float = true /\ (1 - q <=? 1)%float = true.
Proof.
  intros H0 H1. pose proof (leb_unit_finite q H0 H1) as Fq. split.
  - rewrite (sub_nonneg 1 q eq_refl Fq). exact H1.
  - pose proof (sub_antitone 1 0 q eq_refl eq_refl Fq H0) as H.
    rewrite sub_zero_r in H. exact H.
Qed.

Lemma SFleb_trans (x y z : spec_float) :
  valid_binary x = true -> valid_binary y = true -> valid_binary z = true ->
  SFfinite x = true -> SFfinite y = true -> SFfinite z = true ->
  SFleb x y = true -> SFleb y z = true -> SFleb x z = true.
Proof.
  intros Vx Vy Vz Fx Fy Fz.
  set (E := Z.min (SFexp x) (Z.min (SFexp y) (SFexp z))).
  assert (Hx : E <= SFexp x) by (unfold E; lia).
  assert (Hy : E <= SFexp y) by (unfold E; lia).
  assert (Hz : E <= SFexp z) by (unfold E; lia).
  rewrite (SFleb_mant x y E), (SFleb_mant y z E), (SFleb_mant x z E)
    by assumption.
  intros H1 H2. apply Z.leb_le in H1, H2. apply Z.leb_le. lia.
Qed.




Lemma round_aux_out_nonneg (m e : Z) (l : location) :
  0 <= m -> e <= fexp prec emax (Zdigits2 m + e) ->
  0 <= fst (round_aux_out m e l).
Proof.
  intros Hm He.
  destruct (shr_first_bounds m e l Hm He) as (_ & [H0 _] & _ & _).
  unfold round_aux_out.
  pose proof (round_shr_bounds _ H0) as Hr.
  destruct (_ =? 2 ^ 53); cbn [fst]; lia.
Qed.

Lemma SFdiv_fraction_nonneg (pa ps : positive) :
  SFleb (S754_zero false)
        (SFdiv prec emax (S754_finite false pa 0) (S754_finite false ps 0))
  = true.
Proof.
  cbn [SFdiv].
  destruct (SFdiv_core_int pa ps) as (q & e' & l & -> & _ & Hq & _ & _ & Hf).
  cbn [xorb]. rewrite binary_round_aux_out by assumption.
  pose proof (round_aux_out_nonneg q e' l Hq Hf) as Hn.
  unfold pack. destruct (fst (round_aux_out q e' l)); try reflexivity;
    [| lia].
  destruct (_ <=? _); reflexivity.
Qed.

(** ** Builtins: positions in a list, quotients of integers *)

Lemma index_from_found (x : string) (l : list string) (start : Z) :
  In x l -> exists i, index_from x l start = Ok i.
Proof.
  revert start. induction l as [|y l IH]; simpl; intros start H.
  - contradiction.
  - destruct (String.eqb_spec y x) as [-> | Hne]; [eauto |].
    destruct H as [H | H]; [contradiction |]. apply IH. assumption.
Qed.

Lemma index_from_absent (x : string) (l : list string) (start : Z) (e : exn) :
  index_from x l start = Err e ->
  e = ValueError (NotInList x) /\ ~ In x l.
Proof.
  revert start. induction l as [|y l IH]; simpl; intros start H.
  - injection H as <-. auto.
  - destruct (String.eqb_spec y x) as [-> | Hne]; [discriminate |].
    destruct (IH _ H) as [-> Hn]. split; [reflexivity |].
    intros [Hy | Hin]; [contradiction | exact (Hn Hin)].
Qed.

Lemma index_absent (x : string) (l : list string) :
  ~ In x l -> index l x = Err (ValueError (NotInList x)).
Proof.
  intros Hn. unfold index.
  destruct (index_from x l 0) as [i | e] eqn:Hi.
  - exfalso. apply Hn. clear Hn. revert Hi. generalize 0.
    induction l as [|y l IH]; simpl; intros start H; [discriminate |].
    destruct (String.eqb_spec y x) as [-> | Hne]; [auto |].
    right. exact (IH _ H).
  - apply index_from_absent in Hi. destruct Hi as [-> _]. reflexivity.
Qed.

Lemma getitem_spec {A : Type} (l : list A) (i : Z) :
  let n := Z.of_nat (List.length l) in
  (i < - n \/ n <= i -> getitem l i = Err IndexError) /\
  (0 <= i < n ->
   exists x, nth_error l (Z.to_nat i) = Some x /\ getitem l i = Ok x) /\
  (- n <= i < 0 ->
   exists x, nth_error l (Z.to_nat (n + i)) = Some x /\ getitem l i = Ok x).
Proof.
  intros n. unfold getitem, raise. cbv zeta. fold n.
  assert (Hnth : forall j, 0 <= j < n ->
            exists x, nth_error l (Z.to_nat j) = Some x).
  { intros j Hj. destruct (nth_error l (Z.to_nat j)) as [x |] eqn:Hx;
      [eauto |].
    apply nth_error_None in Hx. unfold n in Hj. lia. }
  assert (Hn : 0 <= n) by (unfold n; lia). clearbody n.
  split; [| split]; intros H.
  - destruct (Z.ltb_spec i 0); cbv iota.
    + destruct (Z.ltb_spec (i + n) 0); [reflexivity | lia].
    + destruct (Z.ltb_spec i 0); [lia |].
      destruct (Z.leb_spec n i); [reflexivity | lia].
  - destruct (Z.ltb_spec i 0); [lia |]. cbv iota.
    destruct (Z.ltb_spec i 0); [lia |].
    destruct (Z.leb_spec n i); [lia |]. cbn [orb].
    destruct (Hnth i H) as [x Hx]. exists x. rewrite Hx. split; reflexivity.
  - destruct (Z.ltb_spec i 0); [| lia]. cbv iota.
    destruct (Z.ltb_spec (i + n) 0); [lia |].
    destruct (Z.leb_spec n (i + n)); [lia |]. cbn [orb].
    destruct (Hnth (n + i)) as [x Hx]; [lia |]. exists x.
    rewrite (Z.add_comm i n), Hx. split; reflexivity.
Qed.

Lemma int_truediv_error (a b : Z) (e : exn) :
  int_truediv a b = Err e ->
  (b = 0 /\ e = ZeroDivisionError) \/ (b <> 0 /\ e = OverflowError).
Proof.
  unfold int_truediv, raise.
  destruct (Z.eqb_spec b 0) as [-> | Hb].
  - intros [= <-]. left. split; reflexivity.
  - destruct (SFdiv prec emax (Z2SF a) (Z2SF b)); intros [= <-];
      right; split; auto.
Qed.

(** The quotient of a part by the whole is a float between 0 and 1. *)
Lemma int_truediv_unit (a s : Z) :
  0 <= a <= s -> 0 < s ->
  exists q, int_truediv a s = Ok q /\
    (0 <=? q)%float = true /\ (q <=? 1)%float = true.
Proof.
  intros [Ha Has] Hs. unfold int_truediv.
  replace (s =? 0) with false by (symmetry; apply Z.eqb_neq; lia).
  destruct s as [|ps|ps]; try lia.
  destruct a as [|pa|pa]; try lia.
  - exists 0%float. repeat split.
  - pose proof (SFdiv_fraction pa ps) as Hf.
    pose proof (SFdiv_int_valid (Zpos pa) (Zpos ps)) as Hv.
    pose proof (SFdiv_fraction_nonneg pa ps) as H0.
    pose proof (SFdiv_fraction_le_one pa ps) as H1.
    cbn [Z2SF] in *.
    set (q := SFdiv prec emax (S754_finite false pa 0)
                (S754_finite false ps 0)) in *.
    exists (SF2Prim q). rewrite !leb_spec, (Prim2SF_SF2Prim q Hv).
    change (Prim2SF 0) with (S754_zero false).
    change (Prim2SF 1) with (S754_finite false 4503599627370496 (-52)).
    split; [| split; [exact H0 | apply H1; lia]].
    destruct q; [reflexivity | destruct Hf; lia | destruct Hf; lia
                | reflexivity].
Qed.

(** ** Implied probabilities: range, errors, symmetry *)

(** The implied probability of a market with liquidity. *)
Lemma p_yes_unit (m : OmenMarket.t) (a0 a1 : OmenOutcomeToken) (i : Z) :
  OmenMarket.outcomeTokenAmounts m = Some [a0; a1] ->
  index (OmenMarket.outcomes m) "Yes" = Ok i ->
  i < 2 ->
  0 <= a0 -> 0 <= a1 ->
  exists p : Probability,
    OmenMarket.p_yes m = Ok p /\
    (0 <=? p)%float = true /\ (p <=? 1)%float = true.
Proof.
  intros Ha Hi Hlt H0 H1.
  rewrite (p_yes_two_amounts m a0 a1 Ha), Hi. simpl bind.
  pose proof (index_from_lower _ _ _ _ Hi) as Hge.
  destruct (Z.eqb_spec (a0 + a1) 0) as [Hs | Hs].
  - exists 0.5%float. repeat split.
  - assert (Hq : exists a, getitem [a0; a1] i = Ok a /\ 0 <= a <= a0 + a1).
    { assert (Hcase : i = 0 \/ i = 1) by lia.
      destruct Hcase as [-> | ->]; [exists a0 | exists a1];
        (split; [reflexivity | lia]). }
    destruct Hq as (a & -> & Hle). simpl bind.
    destruct (int_truediv_unit a (a0 + a1) Hle) as (q & -> & Hq0 & Hq1);
      [lia |].
    exists (1 - q)%float. split; [reflexivity |].
    apply unit_complement; assumption.
Qed.

(** X1. On a market with two non-negative token amounts whose outcomes
    hold "Yes" first at index 0 or 1, [p_yes] and [p_no] both return, and
    both probabilities lie between 0 and 1, bounds included: the range
    follows from the amounts, no clamping is needed. *)
Theorem p_yes_unit_interval (m : OmenMarket.t) (a0 a1 : OmenOutcomeToken)
    (i : Z) :
  OmenMarket.outcomeTokenAmounts m = Some [a0; a1] ->
  index (OmenMarket.outcomes m) "Yes" = Ok i ->
  i < 2 ->
  0 <= a0 -> 0 <= a1 ->
  exists p p' : Probability,
    OmenMarket.p_yes m = Ok p /\
    OmenMarket.p_no m = Ok p' /\
    (0 <=? p)%float = true /\ (p <=? 1)%float = true /\
    (0 <=? p')%float = true /\ (p' <=? 1)%float = true.
Proof.
  intros Ha Hi Hlt H0 H1.
  destruct (p_yes_unit m a0 a1 i Ha Hi Hlt H0 H1) as (p & Hp & Hp0 & Hp1).
  exists p, (1 - p)%float. unfold OmenMarket.p_no. rewrite Hp.
  split; [reflexivity | split; [reflexivity |]].
  split; [assumption | split; [assumption |]].
  apply unit_complement; assumption.
Qed.

(** Token amounts 30 and 70: both probabilities are in range. *)
Lemma p_yes_unit_interval_example :
  exists p p' : Probability,
    OmenMarket.p_yes (sample_market yes_no [30; 70] None None) = Ok p /\
    OmenMarket.p_no (sample_market yes_no [30; 70] None None) = Ok p' /\
    (0 <=? p)%float = true /\ (p <=? 1)%float = true /\
    (0 <=? p')%float = true /\ (p' <=? 1)%float = true.
Proof.
  apply (p_yes_unit_interval (sample_market yes_no [30; 70] None None)
           30 70 0); [reflexivity | reflexivity | lia | lia | lia].
Defined.

(** X2. On a market with two token amounts that sum to zero and with
    "Yes" among its outcomes, [p_yes] and [p_no] both return 0.5,
    wherever "Yes" stands in the outcomes and whatever the signs of the
    amounts: the amounts are not indexed and nothing is divided. *)
Theorem p_yes_no_liquidity (m : OmenMarket.t)
    (amounts : list OmenOutcomeToken) :
  OmenMarket.outcomeTokenAmounts m = Some amounts ->
  List.length amounts = 2%nat ->
  sum amounts = 0 ->
  In "Yes" (OmenMarket.outcomes m) ->
  OmenMarket.p_yes m = Ok 0.5%float /\ OmenMarket.p_no m = Ok 0.5%float.
Proof.
  intros Ha Hlen Hs Hin.
  assert (Hp : OmenMarket.p_yes m = Ok 0.5%float).
  { destruct (length_two amounts Hlen) as (a0 & a1 & ->).
    rewrite (p_yes_two_amounts m a0 a1 Ha).
    destruct (index_from_found "Yes" _ 0 Hin) as [i Hi].
    unfold index. rewrite Hi. simpl bind.
    rewrite sum_two in Hs. rewrite Hs. reflexivity. }
  split; [exact Hp |]. unfold OmenMarket.p_no. rewrite Hp. reflexivity.
Qed.

(** "Yes" as the fourth outcome, amounts 5 and -5. *)
Lemma p_yes_no_liquidity_example :
  let m := sample_market ["A"; "B"; "C"; "Yes"] [5; -5] None None in
  OmenMarket.p_yes m = Ok 0.5%float /\ OmenMarket.p_no m = Ok 0.5%float.
Proof.
  intros m. apply (p_yes_no_liquidity m [5; -5]);
    [reflexivity | reflexivity | reflexivity | simpl; auto].
Defined.

Lemma p_yes_absent (m : OmenMarket.t) (a0 a1 : OmenOutcomeToken) :
  OmenMarket.outcomeTokenAmounts m = Some [a0; a1] ->
  (OmenMarket.p_yes m = Err (ValueError (NotInList "Yes")) <->
   ~ In "Yes" (OmenMarket.outcomes m)).
Proof.
  intros Ha. rewrite (p_yes_two_amounts m a0 a1 Ha). split.
  - intros H Hin. destruct (index_from_found "Yes" _ 0 Hin) as [i Hi].
    unfold index in H. rewrite Hi in H. simpl bind in H.
    destruct (a0 + a1 =? 0); [discriminate |].
    destruct (getitem [a0; a1] i) as [a | e] eqn:Hg; simpl bind in H.
    + destruct (int_truediv a (a0 + a1)) as [q | e] eqn:Hq;
        simpl bind in H; [discriminate |].
      apply int_truediv_error in Hq.
      destruct Hq as [[_ ->] | [_ ->]]; discriminate.
    + apply getitem_error in Hg. subst. discriminate.
  - intros Hn. rewrite (index_absent "Yes" _ Hn). reflexivity.
Qed.

(** X3. On a market with two token amounts, [p_yes] raises the
    not-in-list [ValueError] of [list.index] exactly when "Yes" is not
    among the outcomes, and so does [p_no]; the lookup comes before the
    test of the sum, so a market without "Yes" has no 0.5 either. *)
Theorem p_yes_label_absent (m : OmenMarket.t) (a0 a1 : OmenOutcomeToken) :
  OmenMarket.outcomeTokenAmounts m = Some [a0; a1] ->
  (OmenMarket.p_yes m = Err (ValueError (NotInList "Yes")) <->
   ~ In "Yes" (OmenMarket.outcomes m)) /\
  (OmenMarket.p_no m = Err (ValueError (NotInList "Yes")) <->
   ~ In "Yes" (OmenMarket.outcomes m)).
Proof.
  intros Ha. pose proof (p_yes_absent m a0 a1 Ha) as H.
  split; [exact H |]. rewrite <- H. unfold OmenMarket.p_no.
  destruct (OmenMarket.p_yes m) as [p | e]; simpl bind.
  - split; discriminate.
  - reflexivity.
Qed.

(** Outcomes in lower case, no liquidity: the lookup fails. *)
Lemma p_yes_label_absent_example :
  OmenMarket.p_yes (sample_market ["yes"; "no"] [0; 0] None None) =
    Err (ValueError (NotInList "Yes")).
Proof.
  apply (proj1 (p_yes_label_absent
                  (sample_market ["yes"; "no"] [0; 0] None None) 0 0
                  eq_refl)).
  simpl. intros [H | [H | []]]; discriminate.
Defined.

(** X4. The errors of [p_yes], in the order of the code: no token
    amounts; a number of amounts other than two; "Yes" not among the
    outcomes; [IndexError] when "Yes" stands first at index 2 or above
    and the sum is not zero; [OverflowError] of the division, which
    needs a negative amount.  It never raises [ZeroDivisionError]. *)
Theorem p_yes_errors (m : OmenMarket.t) (e : exn) :
  OmenMarket.p_yes m = Err e ->
  e <> ZeroDivisionError /\
  ((OmenMarket.outcomeTokenAmounts m = None /\
    e = ValueError (NoOutcomeTokenAmounts (OmenMarket.title m))) \/
   (exists amounts,
      OmenMarket.outcomeTokenAmounts m = Some amounts /\
      List.length amounts <> 2%nat /\
      e = ValueError (OutcomeCount (OmenMarket.title m)
                        (List.length amounts))) \/
   (exists a0 a1,
      OmenMarket.outcomeTokenAmounts m = Some [a0; a1] /\
      ((~ In "Yes" (OmenMarket.outcomes m) /\
        e = ValueError (NotInList "Yes")) \/
       (exists i,
          index (OmenMarket.outcomes m) "Yes" = Ok i /\
          a0 + a1 <> 0 /\
          ((2 <= i /\ e = IndexError) \/
           (i < 2 /\ (a0 < 0 \/ a1 < 0) /\ e = OverflowError)))))).
Proof.
  intros H.
  assert (Hcases :
    (OmenMarket.outcomeTokenAmounts m = None /\
     e = ValueError (NoOutcomeTokenAmounts (OmenMarket.title m))) \/
    (exists amounts,
       OmenMarket.outcomeTokenAmounts m = Some amounts /\
       List.length amounts <> 2%nat /\
       e = ValueError (OutcomeCount (OmenMarket.title m)
                         (List.length amounts))) \/
    (exists a0 a1,
       OmenMarket.outcomeTokenAmounts m = Some [a0; a1] /\
       ((~ In "Yes" (OmenMarket.outcomes m) /\
         e = ValueError (NotInList "Yes")) \/
        (exists i,
           index (OmenMarket.outcomes m) "Yes" = Ok i /\
           a0 + a1 <> 0 /\
           ((2 <= i /\ e = IndexError) \/
            (i < 2 /\ (a0 < 0 \/ a1 < 0) /\ e = OverflowError)))))).
  { destruct (OmenMarket.outcomeTokenAmounts m) as [amounts |] eqn:Ha.
    2:{ left. unfold OmenMarket.p_yes in H. rewrite Ha in H.
        injection H as <-. auto. }
    right.
    destruct (Nat.eq_dec (List.length amounts) 2) as [Hlen | Hlen].
    2:{ left. exists amounts. unfold OmenMarket.p_yes in H. rewrite Ha in H.
        pose proof Hlen as Hb. apply Nat.eqb_neq in Hb. rewrite Hb in H.
        injection H as <-. auto. }
    right. destruct (length_two amounts Hlen) as (a0 & a1 & ->).
    exists a0, a1. split; [reflexivity |].
    rewrite (p_yes_two_amounts m a0 a1 Ha) in H.
    destruct (index (OmenMarket.outcomes m) "Yes") as [i | e0] eqn:Hi;
      simpl bind in H.
    2:{ left. injection H as <-. unfold index in Hi.
        apply index_from_absent in Hi. destruct Hi as [-> Hn]. auto. }
    right. exists i. split; [reflexivity |].
    pose proof (index_from_lower _ _ _ _ Hi) as Hge.
    destruct (Z.eqb_spec (a0 + a1) 0) as [Hs | Hs]; [discriminate |].
    split; [assumption |].
    destruct (getitem [a0; a1] i) as [a | e0] eqn:Hg; simpl bind in H.
    - right. rewrite getitem_two in Hg.
      assert (Hi2 : i < 2 /\ (a = a0 \/ a = a1)).
      { destruct (Z.eqb_spec i 0); [simpl in Hg; injection Hg; lia |].
        destruct (Z.eqb_spec i (-2)); [lia |].
        destruct (Z.eqb_spec i 1); [simpl in Hg; injection Hg; lia |].
        destruct (Z.eqb_spec i (-1)); [lia |]. discriminate. }
      destruct Hi2 as [Hlt Haa]. split; [assumption |].
      destruct (int_truediv a (a0 + a1)) as [q | e0] eqn:Hq;
        simpl bind in H; [discriminate |].
      injection H as <-.
      pose proof (int_truediv_error _ _ _ Hq) as [[Hz _] | [_ ->]];
        [contradiction |].
      split; [| reflexivity].
      destruct (Z.lt_ge_cases a0 0) as [|P0]; [auto |].
      destruct (Z.lt_ge_cases a1 0) as [|P1]; [auto |].
      exfalso.
      destruct (int_truediv_fraction a (a0 + a1)) as [q Hq']; [lia | lia |].
      congruence.
    - left. injection H as <-. pose proof (getitem_error _ _ _ Hg) as ->.
      split; [| reflexivity].
      rewrite getitem_two in Hg.
      destruct (Z.eqb_spec i 0); [discriminate |].
      destruct (Z.eqb_spec i (-2)); [discriminate |].
      destruct (Z.eqb_spec i 1); [discriminate |]. lia. }
  split; [| exact Hcases].
  intros ->.
  destruct Hcases as [[_ He] | [(l & _ & _ & He) | (a0 & a1 & _ & Hc)]];
    try discriminate.
  destruct Hc as [[_ He] | (i & _ & _ & [[_ He] | (_ & _ & He)])];
    discriminate.
Qed.

(** "Yes" as the third outcome of a market with two amounts. *)
Lemma p_yes_errors_example :
  exists i,
    index ["No"; "Maybe"; "Yes"] "Yes" = Ok i /\ 2 <= i /\
    OmenMarket.p_yes (sample_market ["No"; "Maybe"; "Yes"] [30; 70] None None)
    = Err IndexError.
Proof.
  pose (m := sample_market ["No"; "Maybe"; "Yes"] [30; 70] None None).
  destruct (p_yes_errors m IndexError eq_refl)
    as [_ [[_ H] | [(l & _ & _ & H) | (a0 & a1 & _ & H)]]];
    try discriminate H.
  destruct H as [[_ H] | (i & Hi & _ & [[Hle _] | (_ & _ & H)])];
    try discriminate H.
  exists i. split; [exact Hi | split; [exact Hle | reflexivity]].
Defined.

(** X5. Relabelling is immaterial: on a market with two distinct
    outcome labels and two token amounts, exchanging the two labels
    together with the two amounts leaves [p_yes], value or error,
    unchanged. *)
Theorem p_yes_swap (m : OmenMarket.t) (o0 o1 : string)
    (a0 a1 : OmenOutcomeToken) :
  OmenMarket.outcomes m = [o0; o1] ->
  OmenMarket.outcomeTokenAmounts m = Some [a0; a1] ->
  o0 <> o1 ->
  OmenMarket.p_yes (with_liquidity m [o1; o0] [a1; a0]) = OmenMarket.p_yes m.
Proof.
  intros Ho Ha Hne.
  rewrite (p_yes_two_amounts m a0 a1 Ha).
  rewrite (p_yes_two_amounts (with_liquidity m [o1; o0] [a1; a0]) a1 a0 eq_refl).
  rewrite Ho. cbn [with_liquidity OmenMarket.outcomes].
  rewrite (Z.add_comm a1 a0).
  unfold index. cbn [index_from].
  destruct (String.eqb_spec o0 "Yes") as [E0 | N0];
    destruct (String.eqb_spec o1 "Yes") as [E1 | N1];
    try congruence; reflexivity.
Qed.

(** Amounts 30 and 70 for "Yes" and "No", or 70 and 30 for "No" and
    "Yes". *)
Lemma p_yes_swap_example :
  OmenMarket.p_yes (sample_market ["No"; "Yes"] [70; 30] None None) =
  OmenMarket.p_yes (sample_market yes_no [30; 70] None None).
Proof.
  apply (p_yes_swap (sample_market yes_no [30; 70] None None)
           "Yes" "No" 30 70 eq_refl eq_refl).
  discriminate.
Defined.

(** ** Open, resolved, and the two market records *)

(** X6. [is_open] and [is_resolved] exclude each other.  An open market
    has the "no resolution yet" value of [get_resolution_enum], and its
    [boolean_outcome] raises a [ValueError]: the not-binary one when the
    outcomes are not two, the not-resolved one otherwise.  A market that
    is neither open nor resolved (an answer that is not finalized) has
    no resolution either. *)
Theorem is_open_spec (m : OmenMarket.t) :
  (OmenMarket.is_open m = true -> OmenMarket.is_resolved m = false) /\
  (OmenMarket.is_resolved m = true -> OmenMarket.is_open m = false) /\
  (OmenMarket.is_open m = true ->
   OmenMarket.get_resolution_enum m = Ok None /\
   OmenMarket.boolean_outcome m =
     Err (ValueError
            (if OmenMarket.is_binary m
             then NotResolved (OmenMarket.title m)
             else NotBinary (OmenMarket.title m)
                    (List.length (OmenMarket.outcomes m))))) /\
  (OmenMarket.is_open m = false -> OmenMarket.is_resolved m = false ->
   OmenMarket.answerFinalizedTimestamp m = None /\
   OmenMarket.get_resolution_enum m = Ok None).
Proof.
  unfold OmenMarket.get_resolution_enum, OmenMarket.boolean_outcome,
    OmenMarket.is_open, OmenMarket.is_resolved, raise.
  destruct (OmenMarket.currentAnswer m) as [answer |],
    (OmenMarket.answerFinalizedTimestamp m) as [ts |];
    (split; [| split; [| split]]); try discriminate; try reflexivity;
    intros; try discriminate; try (split; reflexivity).
  - split; [reflexivity |]. destruct (OmenMarket.is_binary m); reflexivity.
  - split; [reflexivity |]. destruct (OmenMarket.is_binary m); reflexivity.
Qed.

(** A market without an answer, and one whose answer is not finalized. *)
Lemma is_open_examples :
  OmenMarket.is_resolved (sample_market yes_no [30; 70] (Some 1700000200) None)
    = false /\
  OmenMarket.get_resolution_enum
    (sample_market yes_no [30; 70] None (Some "0x0")) = Ok None.
Proof.
  split.
  - apply (proj1 (is_open_spec
                    (sample_market yes_no [30; 70] (Some 1700000200) None))).
    reflexivity.
  - apply (proj2 (proj2 (proj2 (is_open_spec
                    (sample_market yes_no [30; 70] None (Some "0x0")))))
             eq_refl eq_refl).
Defined.

(** X7. The market record and the bet-embedded market record agree: an
    [OmenMarket] and an [OmenBetFPMM] with the same outcomes, title,
    answerFinalizedTimestamp and currentAnswer have the same
    [is_binary], the same [is_resolved] and the same [boolean_outcome],
    value or error. *)
Theorem market_fpmm_agree (m : OmenMarket.t) (f : OmenBetFPMM.t) :
  OmenMarket.outcomes m = OmenBetFPMM.outcomes f ->
  OmenMarket.title m = OmenBetFPMM.title f ->
  OmenMarket.answerFinalizedTimestamp m
    = OmenBetFPMM.answerFinalizedTimestamp f ->
  OmenMarket.currentAnswer m = OmenBetFPMM.currentAnswer f ->
  OmenMarket.is_binary m = OmenBetFPMM.is_binary f /\
  OmenMarket.is_resolved m = OmenBetFPMM.is_resolved f /\
  OmenMarket.boolean_outcome m = OmenBetFPMM.boolean_outcome f.
Proof.
  intros Ho Ht Hf Ha.
  unfold OmenMarket.boolean_outcome, OmenBetFPMM.boolean_outcome,
    OmenMarket.is_binary, OmenBetFPMM.is_binary,
    OmenMarket.is_resolved, OmenBetFPMM.is_resolved.
  rewrite Ho, Ht, Hf, Ha. repeat split.
Qed.

(** The sample market and the sample embedded market, resolved to
    "Yes". *)
Lemma market_fpmm_agree_example :
  OmenMarket.boolean_outcome
    (sample_market yes_no [30; 70] (Some 1700000200) (Some "0x0"))
  = OmenBetFPMM.boolean_outcome resolved_yes_fpmm.
Proof.
  apply (market_fpmm_agree
           (sample_market yes_no [30; 70] (Some 1700000200) (Some "0x0"))
           resolved_yes_fpmm eq_refl eq_refl eq_refl eq_refl).
Defined.

Lemma decode_answer_errors (outcomes : list string) (answer : string)
    (e : exn) :
  decode_answer outcomes answer = Err e ->
  (int_base16 answer = Err e /\ e = ValueError (InvalidLiteral answer)) \/
  (exists i, int_base16 answer = Ok i /\
             getitem outcomes i = Err e /\ e = IndexError) \/
  (exists i label,
     int_base16 answer = Ok i /\ getitem outcomes i = Ok label /\
     label <> "Yes" /\ label <> "No" /\
     e = ValueError (NotBooleanOutcome label)).
Proof.
  unfold decode_answer.
  destruct (int_base16 answer) as [i | e0] eqn:Hi; simpl bind.
  2:{ intros [= <-]. left. split; [reflexivity |].
      exact (int_base16_error _ _ Hi). }
  destruct (getitem outcomes i) as [label | e0] eqn:Hg; simpl bind.
  2:{ intros [= <-]. right. left. exists i.
      pose proof (getitem_error _ _ _ Hg). subst. auto. }
  intros H. right. right. exists i, label.
  pose proof (get_boolean_outcome_error _ _ H) as ->.
  split; [reflexivity | split; [exact Hg |]].
  split; [intros ->; discriminate H |].
  split; [intros ->; discriminate H | reflexivity].
Qed.

(** X8. The errors of [boolean_outcome] of a market, in the order of
    the code: the not-binary [ValueError] whenever the outcomes are not
    two, resolved or not; the not-resolved one on a binary market that
    is not resolved; on a binary and resolved market the invalid-literal
    [ValueError] of an answer that is no hexadecimal number,
    [IndexError] of an index outside the outcomes, or the invalid-label
    [ValueError] of a label that is neither "Yes" nor "No".  The error
    of [check_not_none] is never raised. *)
Theorem boolean_outcome_errors (m : OmenMarket.t) (e : exn) :
  OmenMarket.boolean_outcome m = Err e ->
  e <> ValueError ShouldNotBeNone /\
  ((OmenMarket.is_binary m = false /\
    e = ValueError (NotBinary (OmenMarket.title m)
                      (List.length (OmenMarket.outcomes m)))) \/
   (OmenMarket.is_binary m = true /\ OmenMarket.is_resolved m = false /\
    e = ValueError (NotResolved (OmenMarket.title m))) \/
   (OmenMarket.is_binary m = true /\ OmenMarket.is_resolved m = true /\
    exists answer,
      OmenMarket.currentAnswer m = Some answer /\
      ((int_base16 answer = Err e /\
        e = ValueError (InvalidLiteral answer)) \/
       (exists i, int_base16 answer = Ok i /\
                  (i < -2 \/ 2 <= i) /\ e = IndexError) \/
       (exists i label,
          int_base16 answer = Ok i /\
          getitem (OmenMarket.outcomes m) i = Ok label /\
          label <> "Yes" /\ label <> "No" /\
          e = ValueError (NotBooleanOutcome label))))).
Proof.
  intros H.
  destruct (OmenMarket.is_binary m) eqn:Hb.
  2:{ unfold OmenMarket.boolean_outcome in H. rewrite Hb in H.
      injection H as <-. split; [discriminate | auto]. }
  destruct (OmenMarket.is_resolved m) eqn:Hr.
  2:{ unfold OmenMarket.boolean_outcome in H. rewrite Hb, Hr in H.
      injection H as <-. split; [discriminate | auto]. }
  assert (Ha : exists answer, OmenMarket.currentAnswer m = Some answer).
  { unfold OmenMarket.is_resolved in Hr.
    destruct (OmenMarket.answerFinalizedTimestamp m); [| discriminate].
    destruct (OmenMarket.currentAnswer m); [eauto | discriminate]. }
  destruct Ha as [answer Ha].
  rewrite (market_boolean_outcome_resolved m answer Hb Hr Ha) in H.
  pose proof (decode_answer_errors _ _ _ H)
    as [[Hi ->] | [(i & Hi & Hg & ->) | (i & label & Hi & Hg & Hy & Hn & ->)]].
  - split; [discriminate |]. right. right.
    repeat split. exists answer. split; [assumption |]. left. auto.
  - split; [discriminate |]. right. right.
    repeat split. exists answer. split; [assumption |]. right. left.
    exists i. split; [assumption |]. split; [| reflexivity].
    unfold OmenMarket.is_binary in Hb. apply Nat.eqb_eq in Hb.
    destruct (length_two _ Hb) as (x & y & Hxy). rewrite Hxy in H.
    exact (proj1 (decode_answer_two x y answer i Hi) H).
  - split; [discriminate |]. right. right.
    repeat split. exists answer. split; [assumption |]. right. right.
    exists i, label. auto.
Qed.

(** A resolved market with three outcomes: the not-binary error. *)
Lemma boolean_outcome_errors_example :
  OmenMarket.is_resolved
    (sample_market ["Yes"; "No"; "Maybe"] [30; 30; 40] (Some 1700000200)
       (Some "0x0")) = true /\
  OmenMarket.boolean_outcome
    (sample_market ["Yes"; "No"; "Maybe"] [30; 30; 40] (Some 1700000200)
       (Some "0x0")) = Err (ValueError (NotBinary "Will it rain?" 3)).
Proof.
  split; [reflexivity |].
  destruct (boolean_outcome_errors
              (sample_market ["Yes"; "No"; "Maybe"] [30; 30; 40]
                 (Some 1700000200) (Some "0x0"))
              (ValueError (NotBinary "Will it rain?" 3)) eq_refl)
    as [_ [[_ H] | [(H & _) | (H & _)]]].
  - rewrite H. reflexivity.
  - discriminate H.
  - discriminate H.
Defined.

(** X9. The outcome a bet chose is read at outcomeIndex from the
    outcomes of the embedded market, whatever the state of that market:
    an index from 0 to the number of outcomes, excluded, reads from the
    start, an index below zero down to minus that number reads from the
    end, and any other index raises [IndexError]; the label read is
    then decoded by [get_boolean_outcome]. *)
Theorem bet_boolean_outcome_spec (b : OmenBet.t) :
  let outcomes := OmenBetFPMM.outcomes (OmenBet.fpmm b) in
  let n := Z.of_nat (List.length outcomes) in
  let i := OmenBet.outcomeIndex b in
  (i < - n \/ n <= i -> OmenBet.boolean_outcome b = Err IndexError) /\
  (0 <= i < n ->
   exists label,
     nth_error outcomes (Z.to_nat i) = Some label /\
     OmenBet.boolean_outcome b = get_boolean_outcome label) /\
  (- n <= i < 0 ->
   exists label,
     nth_error outcomes (Z.to_nat (n + i)) = Some label /\
     OmenBet.boolean_outcome b = get_boolean_outcome label).
Proof.
  intros outcomes n i. unfold OmenBet.boolean_outcome. fold outcomes i.
  destruct (getitem_spec outcomes i) as (H1 & H2 & H3). fold n in H1, H2, H3.
  split; [| split]; intros H.
  - rewrite (H1 H). reflexivity.
  - destruct (H2 H) as (label & Hl & ->). eauto.
  - destruct (H3 H) as (label & Hl & ->). eauto.
Qed.

(** A bet on the outcome at index -1 of an unresolved market chose the
    last outcome, "No"; a bet on the outcome at index 2 chose none. *)
Lemma bet_boolean_outcome_examples :
  OmenBet.boolean_outcome
    (sample_bet 10 1 15 2 10%float (sample_fpmm yes_no None None None))
  = Err IndexError /\
  exists label,
    nth_error yes_no 1 = Some label /\
    OmenBet.boolean_outcome
      (sample_bet 10 1 15 (-1) 10%float (sample_fpmm yes_no None None None))
    = get_boolean_outcome label.
Proof.
  split.
  - apply (proj1 (bet_boolean_outcome_spec
                    (sample_bet 10 1 15 2 10%float
                       (sample_fpmm yes_no None None None)))).
    right. simpl. lia.
  - apply (proj2 (proj2 (bet_boolean_outcome_spec
                    (sample_bet 10 1 15 (-1) 10%float
                       (sample_fpmm yes_no None None None))))).
    simpl. lia.
Defined.

(** ** Profit and projection of a bet, continued *)

Section ProfitBounds.

Context (wei_to_xdai : Wei -> xDai).




End ProfitBounds.



Section ProjectionFields.

Context (wei_to_xdai : Wei -> xDai).
Context {datetime : Type} (localtime : Z -> option datetime).

(** X13. [to_generic_resolved_bet] returns a resolved bet exactly when
    the embedded market is resolved and has a resolution timestamp, the
    two boolean outcomes decode, the two timestamps have a datetime and
    [get_profit] returns; every field of the resolved bet is then the
    value of that step: the two outcomes, the two datetimes, the title
    of the bet as the market question, the profit of [get_profit], and
    the USD collateral tagged xDai. *)
Theorem to_generic_resolved_bet_returns (b : OmenBet.t)
    (r : ResolvedBet.t datetime) :
  OmenBet.to_generic_resolved_bet wei_to_xdai localtime b = Ok r <->
  OmenBetFPMM.is_resolved (OmenBet.fpmm b) = true /\
  OmenBet.boolean_outcome b = Ok (ResolvedBet.outcome r) /\
  localtime (OmenBet.creationTimestamp b) = Some (ResolvedBet.created_time r) /\
  OmenBetFPMM.boolean_outcome (OmenBet.fpmm b)
    = Ok (ResolvedBet.market_outcome r) /\
  (exists resolution,
     OmenBetFPMM.resolutionTimestamp (OmenBet.fpmm b) = Some resolution /\
     localtime resolution = Some (ResolvedBet.resolved_time r)) /\
  OmenBet.get_profit wei_to_xdai b = Ok (ResolvedBet.profit r) /\
  ResolvedBet.market_question r = OmenBet.title b /\
  ResolvedBet.amount r =
    BetAmount.mk (Decimal_of_float (OmenBet.collateralAmountUSD b))
                 Currency.xDai.
Proof.
  split.
  - unfold OmenBet.to_generic_resolved_bet, raise.
    destruct (OmenBetFPMM.is_resolved (OmenBet.fpmm b)); simpl;
      [| discriminate].
    intros H.
    apply bind_inv_ok in H. destruct H as (c & Hc & H).
    apply bind_inv_ok in H. destruct H as (d & Hd & H).
    apply bind_inv_ok in H. destruct H as (mo & Hmo & H).
    apply bind_inv_ok in H. destruct H as (ts & Hts & H).
    apply bind_inv_ok in H. destruct H as (d' & Hd' & H).
    apply bind_inv_ok in H. destruct H as (p & Hp & H).
    injection H as <-. cbn.
    unfold OmenBet.fromtimestamp, raise in Hd, Hd'.
    destruct (localtime (OmenBet.creationTimestamp b)) as [x |];
      [| discriminate]. injection Hd as ->.
    destruct (OmenBetFPMM.resolutionTimestamp (OmenBet.fpmm b)) as [t |];
      [| discriminate]. injection Hts as ->.
    destruct (localtime ts) as [y |] eqn:Hy; [| discriminate].
    injection Hd' as ->.
    repeat split; try assumption. exists ts. split; [reflexivity | exact Hy].
  - intros (Hres & Hc & Hcr & Hm & (ts & Hts & Hrs) & Hp & Hq & Ha).
    unfold OmenBet.to_generic_resolved_bet, OmenBet.fromtimestamp.
    rewrite Hres, Hc, Hcr, Hm, Hts. simpl. rewrite Hrs, Hp. simpl.
    destruct r as [am o ct mq mo rt pr]. cbn in *. subst. reflexivity.
Qed.

(** X14. A bet whose embedded market has no resolution timestamp has no
    resolved bet: [to_generic_resolved_bet] raises, also when the market
    is resolved, since the resolved time is read from that timestamp. *)
Theorem to_generic_resolved_bet_needs_timestamp (b : OmenBet.t) :
  OmenBetFPMM.resolutionTimestamp (OmenBet.fpmm b) = None ->
  exists e,
    OmenBet.to_generic_resolved_bet wei_to_xdai localtime b = Err e.
Proof.
  intros Hts. unfold OmenBet.to_generic_resolved_bet, raise.
  destruct (OmenBetFPMM.is_resolved (OmenBet.fpmm b)); simpl; [| eauto].
  destruct (OmenBet.boolean_outcome b); simpl; [| eauto].
  destruct (OmenBet.fromtimestamp localtime (OmenBet.creationTimestamp b));
    simpl; [| eauto].
  destruct (OmenBetFPMM.boolean_outcome (OmenBet.fpmm b)); simpl; [| eauto].
  rewrite Hts. simpl. eauto.
Qed.

End ProjectionFields.


(** The fields of the resolved bet of the sample bet. *)
Lemma to_generic_resolved_bet_returns_example :
  OmenBet.to_generic_resolved_bet wei_to_xdai_ether utc_localtime
    (sample_bet (10 * 10 ^ 18) (10 ^ 18) (15 * 10 ^ 18) 0 9.97%float
       resolved_yes_fpmm)
  = Ok (ResolvedBet.mk
          (BetAmount.mk (Decimal_of_float 9.97%float) Currency.xDai)
          true 1700000100 "Will it rain?" true 1700000300
          (ProfitAmount.mk 4%float Currency.xDai)).
Proof.
  apply (proj2 (to_generic_resolved_bet_returns wei_to_xdai_ether
                  utc_localtime
                  (sample_bet (10 * 10 ^ 18) (10 ^ 18) (15 * 10 ^ 18) 0
                     9.97%float resolved_yes_fpmm) _)).
  repeat split. exists 1700000300. split; reflexivity.
Defined.

(** A resolved market without resolution timestamp. *)
Lemma to_generic_resolved_bet_needs_timestamp_example :
  OmenBetFPMM.is_resolved
    (sample_fpmm yes_no (Some 1700000200) None (Some "0x0")) = true /\
  exists e,
    OmenBet.to_generic_resolved_bet wei_to_xdai_ether utc_localtime
      (sample_bet (10 * 10 ^ 18) (10 ^ 18) (15 * 10 ^ 18) 0 9.97%float
         (sample_fpmm yes_no (Some 1700000200) None (Some "0x0"))) = Err e.
Proof.
  split; [reflexivity |].
  apply to_generic_resolved_bet_needs_timestamp. reflexivity.
Defined.

(** ** Monotonicity of float subtraction in its first argument *)









Lemma SFleb_trans_any (x y z : spec_float) :
  valid_binary x = true -> valid_binary y = true -> valid_binary z = true ->
  SFleb x y = true -> SFleb y z = true -> SFleb x z = true.
Proof.
  intros Vx Vy Vz Hxy Hyz.
  destruct x as [sx | sx | | sx mx ex];
    destruct y as [sy | sy | | sy my ey];
    destruct z as [sz | sz | | sz mz ez];
    try discriminate;
    try exact (SFleb_trans _ _ _ Vx Vy Vz eq_refl eq_refl eq_refl Hxy Hyz);
    try (destruct sx); try (destruct sy); try (destruct sz);
    try discriminate; reflexivity.
Qed.

Lemma leb_trans_any (x y z : float) :
  (x <=? y)%float = true -> (y <=? z)%float = true ->
  (x <=? z)%float = true.
Proof.
  rewrite !leb_spec. apply SFleb_trans_any; apply Prim2SF_valid.
Qed.






(** ** Order of profits *)

Section ProfitOrder.

Context (wei_to_xdai : Wei -> xDai).



End ProfitOrder.



(** ** The state of a right shift as a function of the value shifted *)

Lemma sticky_mono (a b a' b' : Z) :
  0 <= a -> 0 < b -> 0 < b' -> a * b' <= a' * b ->
  sticky a b <= sticky a' b'.
Proof.
  intros Ha Hb Hb' Hle. unfold sticky.
  pose proof (Z.div_mod (2 * a) b ltac:(lia)) as E.
  pose proof (Z.mod_pos_bound (2 * a) b Hb) as B.
  pose proof (Z.div_mod (2 * a') b' ltac:(lia)) as E'.
  pose proof (Z.mod_pos_bound (2 * a') b' Hb') as B'.
  set (Q := 2 * a / b) in *. set (R := (2 * a) mod b) in *.
  set (Q' := 2 * a' / b') in *. set (R' := (2 * a') mod b') in *.
  clearbody Q R Q' R'.
  assert (HQ : Q <= Q').
  { destruct (Z_le_gt_dec Q Q') as [H | H]; [assumption |]. exfalso.
    assert (b * b' * (Q' + 1) <= b * b' * Q) by nia.
    assert (b * (b' * Q' + R') < b * b' * (Q' + 1)) by nia.
    assert (2 * a * b' <= 2 * a' * b) by lia.
    nia. }
  destruct (Z.eq_dec Q Q') as [-> | Hne].
  - destruct (Z.eqb_spec R' 0) as [E0 | N0].
    + assert (R * b' <= 0) by nia.
      assert (R = 0) by nia. subst R.
      change (0 =? 0) with true. cbv iota. lia.
    + destruct (R =? 0); lia.
  - destruct (R =? 0), (R' =? 0); lia.
Qed.

Lemma sticky_scale (a b c : Z) :
  0 < b -> 0 < c -> sticky (a * c) (b * c) = sticky a b.
Proof.
  intros Hb Hc. unfold sticky.
  replace (2 * (a * c)) with (2 * a * c) by lia.
  rewrite Z.div_mul_cancel_r by lia.
  rewrite Z.mul_mod_distr_r by lia.
  destruct (Z.eqb_spec ((2 * a) mod b) 0) as [-> | Hn]; [reflexivity |].
  destruct (Z.eqb_spec ((2 * a) mod b * c) 0) as [H0 | _]; [| reflexivity].
  apply Z.mul_eq_0 in H0. lia.
Qed.

Lemma sticky_int (m : Z) : sticky m 1 = 4 * m.
Proof.
  unfold sticky. rewrite Z.div_1_r, Z.mod_1_r.
  change (0 =? 0) with true. cbv iota. lia.
Qed.

Lemma shr_1_sticky (a : shr_record) (n b : Z) :
  0 <= shr_m a -> 0 < b ->
  shr_code a = sticky n b -> shr_code (shr_1 a) = sticky n (2 * b).
Proof.
  intros Hm Hb H. rewrite shr_1_code by assumption.
  unfold shr_code, sticky in *.
  pose proof (Z.div_mod (2 * n) b ltac:(lia)) as E.
  pose proof (Z.mod_pos_bound (2 * n) b Hb) as B.
  pose proof (Z.div_mod (2 * n) (2 * b) ltac:(lia)) as E2.
  pose proof (Z.mod_pos_bound (2 * n) (2 * b) ltac:(lia)) as B2.
  set (Q := 2 * n / b) in *. set (R := (2 * n) mod b) in *.
  set (Q2 := 2 * n / (2 * b)) in *. set (R2 := (2 * n) mod (2 * b)) in *.
  clearbody Q R Q2 R2.
  assert (HQ : (Q = 2 * Q2 /\ R = R2) \/ (Q = 2 * Q2 + 1 /\ R = R2 - b)).
  { assert (Hd : b * (Q - 2 * Q2) = R2 - R) by lia.
    destruct (Z_lt_ge_dec R2 b) as [Hlt | Hge]; [left | right].
    - assert (Q - 2 * Q2 = 0); [| lia].
      destruct (Z.lt_trichotomy (Q - 2 * Q2) 0) as [L | [L | L]];
        [exfalso; nia | assumption | exfalso; nia].
    - assert (Q - 2 * Q2 = 1); [| lia].
      destruct (Z.lt_trichotomy (Q - 2 * Q2) 1) as [L | [L | L]];
        [exfalso; nia | assumption | exfalso; nia]. }
  destruct (shr_r a), (shr_s a); cbn [orb];
    destruct (Z.eqb_spec R 0), (Z.eqb_spec R2 0); lia.
Qed.

Lemma iter_shr_1_sticky (p : positive) (a : shr_record) (n b : Z) :
  0 <= shr_m a -> 0 < b ->
  shr_code a = sticky n b ->
  shr_code (iter_pos shr_1 p a) = sticky n (b * 2 ^ Zpos p).
Proof.
  intros Hm Hb. rewrite iter_pos_iter. revert a b Hm Hb.
  induction p as [|p IH] using Pos.peano_ind; intros a b Hm Hb H.
  - simpl Pos.iter. change (2 ^ 1) with 2. rewrite Z.mul_comm.
    apply shr_1_sticky; assumption.
  - rewrite Pos.iter_succ_r.
    rewrite Pos2Z.inj_succ, Z.pow_succ_r by lia.
    replace (b * (2 * 2 ^ Zpos p)) with (2 * b * 2 ^ Zpos p) by lia.
    apply IH; [apply shr_1_bounds; assumption | lia |].
    apply shr_1_sticky; assumption.
Qed.

Lemma new_location_sticky (m2 q r : Z) :
  0 < m2 -> 0 <= r < m2 -> 0 <= q ->
  shr_code (shr_record_of_loc q (new_location m2 r)) = sticky (m2 * q + r) m2.
Proof.
  intros Hm Hr Hq. unfold sticky.
  replace (2 * (m2 * q + r)) with (2 * r + (2 * q) * m2) by lia.
  rewrite Z.div_add, Z.mod_add by lia.
  pose proof (Z.div_mod (2 * r) m2 ltac:(lia)) as E.
  pose proof (Z.mod_pos_bound (2 * r) m2 Hm) as B.
  set (Q := 2 * r / m2) in *. set (R := (2 * r) mod m2) in *.
  clearbody Q R.
  assert (HQ : (Q = 0 /\ R = 2 * r) \/ (Q = 1 /\ R = 2 * r - m2)).
  { destruct (Z.lt_trichotomy Q 1) as [L | [L | L]].
    - left. assert (Q = 0) by nia. subst Q. lia.
    - right. subst Q. lia.
    - exfalso. nia. }
  unfold new_location, new_location_even, new_location_odd.
  destruct (Z.even m2) eqn:Hev.
  - destruct (Z.eqb_spec r 0) as [-> | Hr0].
    + unfold shr_code. cbn [shr_record_of_loc shr_m shr_r shr_s].
      destruct (Z.eqb_spec R 0); lia.
    + destruct (Z.compare_spec (2 * r) m2) as [Hc | Hc | Hc];
        unfold shr_code; cbn [shr_record_of_loc shr_m shr_r shr_s];
        destruct (Z.eqb_spec R 0); lia.
  - assert (Hodd : 2 * r <> m2).
    { intros <-. rewrite Z.even_mul in Hev. discriminate. }
    destruct (Z.eqb_spec r 0) as [-> | Hr0].
    + unfold shr_code. cbn [shr_record_of_loc shr_m shr_r shr_s].
      destruct (Z.eqb_spec R 0); lia.
    + destruct (Z.compare_spec (2 * r + 1) m2) as [Hc | Hc | Hc];
        unfold shr_code; cbn [shr_record_of_loc shr_m shr_r shr_s];
        destruct (Z.eqb_spec R 0); lia.
Qed.

Lemma sticky_floor (mrs : shr_record) (a b : Z) :
  0 < b -> shr_code mrs = sticky a b ->
  b * shr_m mrs <= a < b * (shr_m mrs + 1).
Proof.
  intros Hb H. unfold shr_code, sticky in H.
  pose proof (Z.div_mod (2 * a) b ltac:(lia)) as E.
  pose proof (Z.mod_pos_bound (2 * a) b Hb) as B.
  set (Q := 2 * a / b) in *. set (R := (2 * a) mod b) in *.
  clearbody Q R.
  assert (HQ : Q = 2 * shr_m mrs + (if shr_r mrs then 1 else 0)).
  { destruct (shr_r mrs), (shr_s mrs), (R =? 0); lia. }
  destruct (shr_r mrs); nia.
Qed.

(** ** The quotient of two integers is monotone *)

Lemma SFdiv_core_sticky (m1 m2 : positive) :
  exists q e' l,
    SFdiv_core_binary prec emax (Zpos m1) 0 (Zpos m2) 0 = (q, e', l) /\
    e' <= 0 /\ 0 <= q /\
    Zpos m2 * q <= Zpos m1 * 2 ^ (- e') < Zpos m2 * (q + 1) /\
    e' <= fexp prec emax (Zdigits2 q + e') /\
    shr_code (shr_record_of_loc q l) = sticky (Zpos m1 * 2 ^ (- e')) (Zpos m2).
Proof.
  destruct (SFdiv_core_int m1 m2) as (q & e' & l & Heq & He & Hq & Hb & _ & Hf).
  exists q, e', l. repeat split; try assumption; try apply Hb.
  revert Heq. unfold SFdiv_core_binary.
  set (e0 := Z.min _ _).
  replace (0 - 0 - e0) with (- e0) by lia.
  set (m' := match - e0 with
             | Z0 => Zpos m1
             | Zpos _ => Z.shiftl (Zpos m1) (- e0)
             | Zneg _ => 0
             end).
  assert (He0 : e0 <= 0) by (unfold e0; lia).
  assert (Hm' : m' = Zpos m1 * 2 ^ (- e0)).
  { unfold m'. destruct (- e0) as [|p|p] eqn:Hs; [simpl; lia | | lia].
    rewrite Z.shiftl_mul_pow2 by lia. reflexivity. }
  pose proof (Z_div_mod m' (Zpos m2) eq_refl) as Hdiv.
  destruct (Z.div_eucl m' (Zpos m2)) as [q1 r]. destruct Hdiv as [Hdm Hr].
  intros [= -> -> <-]. rewrite <- Hm', Hdm.
  apply new_location_sticky; [lia | lia | assumption].
Qed.

Lemma SFdiv_fraction_out (m1 m2 : positive) :
  (m1 <= m2)%positive ->
  exists (F : Z) (mrs : shr_record),
    -1074 <= F <= -52 /\
    0 <= shr_m mrs < 2 ^ 53 /\
    (-1074 < F -> 2 ^ 52 <= shr_m mrs) /\
    shr_code mrs = sticky (Zpos m1 * 2 ^ (- F)) (Zpos m2) /\
    SFdiv prec emax (S754_finite false m1 0) (S754_finite false m2 0) =
      pack false (if round_shr mrs =? 2 ^ 53 then 2 ^ 52 else round_shr mrs)
                 (if round_shr mrs =? 2 ^ 53 then F + 1 else F).
Proof.
  intros Hle. cbn [SFdiv].
  destruct (SFdiv_core_sticky m1 m2)
    as (q & e' & l & -> & He & Hq & [Hlo Hhi] & Hf & Hc).
  cbn [xorb]. rewrite binary_round_aux_out by assumption.
  destruct (shr_first_bounds q e' l Hq Hf) as (Hs & [H0 H53] & Hb & Hn).
  unfold round_aux_out.
  set (F := fexp prec emax (Zdigits2 q + e')) in *.
  set (mrs := fst (shr (shr_record_of_loc q l) e' (F - e'))) in *.
  assert (HF : F = Z.max (Zdigits2 q + e' - 53) (-1074)) by apply fexp_eq.
  assert (Hp : 0 < 2 ^ (- e')) by (apply Z.pow_pos_nonneg; lia).
  assert (Hdq : Zdigits2 q <= - e' + 1).
  { apply Zdigits2_upper; [| lia]. split; [assumption |].
    rewrite Z.pow_add_r by lia. change (2 ^ 1) with 2. nia. }
  assert (HF52 : -1074 <= F <= -52) by lia.
  exists F, mrs. split; [assumption |]. split; [split; assumption |].
  split; [exact Hn |]. split.
  - assert (Hsplit : Zpos m1 * 2 ^ (- e')
                     = Zpos m1 * 2 ^ (- F) * 2 ^ (F - e')).
    { rewrite <- Z.mul_assoc, <- Z.pow_add_r by lia. f_equal. f_equal. lia. }
    unfold mrs, shr. destruct (F - e') as [|p|p] eqn:Hn'; try lia; cbn [fst].
    + rewrite Hc, Hsplit. change (2 ^ 0) with 1. rewrite Z.mul_1_r.
      reflexivity.
    + rewrite (iter_shr_1_sticky p _ (Zpos m1 * 2 ^ (- e')) (Zpos m2));
        [| rewrite shr_record_of_loc_m; assumption | lia | exact Hc].
      rewrite Hsplit. apply sticky_scale; [lia |].
      apply Z.pow_pos_nonneg; lia.
  - destruct (round_shr mrs =? 2 ^ 53); reflexivity.
Qed.

Lemma SFdiv_fraction_mono (m1 m2 m1' m2' : positive) :
  (m1 <= m2)%positive -> (m1' <= m2')%positive ->
  Zpos m1 * Zpos m2' <= Zpos m1' * Zpos m2 ->
  SFleb (SFdiv prec emax (S754_finite false m1 0) (S754_finite false m2 0))
        (SFdiv prec emax (S754_finite false m1' 0) (S754_finite false m2' 0))
  = true.
Proof.
  intros Hle Hle' Hx.
  destruct (SFdiv_fraction_out m1 m2 Hle)
    as (F & mrs & HF & [H0 H53] & Hn & Hc & ->).
  destruct (SFdiv_fraction_out m1' m2' Hle')
    as (F' & mrs' & HF' & [H0' H53'] & Hn' & Hc' & ->).
  pose proof (round_shr_bounds mrs H0) as Hr.
  pose proof (round_shr_bounds mrs' H0') as Hr'.
  pose proof (sticky_floor mrs _ _ (Pos2Z.is_pos m2) Hc) as Hfl.
  pose proof (sticky_floor mrs' _ _ (Pos2Z.is_pos m2') Hc') as Hfl'.
  assert (HFF : F <= F').
  { destruct (Z_le_gt_dec F F') as [H | H]; [assumption |]. exfalso.
    specialize (Hn ltac:(lia)).
    assert (E : 2 ^ (- F') = 2 ^ (- F) * 2 ^ (F - F')).
    { rewrite <- Z.pow_add_r by lia. f_equal. lia. }
    assert (2 <= 2 ^ (F - F')).
    { change 2 with (2 ^ 1) at 1. apply Z.pow_le_mono_r; lia. }
    assert (0 < 2 ^ (- F)) by (apply Z.pow_pos_nonneg; lia).
    rewrite E in Hfl'.
    set (u := 2 ^ (- F)) in *. set (v := 2 ^ (F - F')) in *.
    clearbody u v.
    assert (A1 : Zpos m2 * 2 ^ 52 <= Zpos m1 * u) by nia.
    assert (A2 : Zpos m1' * u * v < Zpos m2' * 2 ^ 53) by nia.
    assert (A3 : Zpos m1 * u * Zpos m2' <= Zpos m1' * u * Zpos m2) by nia.
    assert (A4 : Zpos m2 * 2 ^ 52 * Zpos m2' <= Zpos m1' * u * Zpos m2) by nia.
    assert (A5 : 2 ^ 52 * Zpos m2' <= Zpos m1' * u) by nia.
    assert (A6 : 2 * (Zpos m1' * u) <= Zpos m1' * u * v) by nia.
    change (2 ^ 53) with (2 * 2 ^ 52) in A2. lia. }
  set (mr := round_shr mrs) in *. set (mr' := round_shr mrs') in *.
  assert (Hout : 0 <= mr /\ (0 < mr -> 0 < mr' /\
            out_le (if mr =? 2 ^ 53 then 2 ^ 52 else mr,
                    if mr =? 2 ^ 53 then F + 1 else F)
                   (if mr' =? 2 ^ 53 then 2 ^ 52 else mr',
                    if mr' =? 2 ^ 53 then F' + 1 else F'))).
  { split; [lia |]. intros Hpos.
    destruct (Z.eq_dec F F') as [<- | Hne].
    - assert (Hm : mr <= mr').
      { apply round_shr_mono; try assumption. rewrite Hc, Hc'.
        assert (0 < 2 ^ (- F)) by (apply Z.pow_pos_nonneg; lia).
        apply sticky_mono; try lia. nia. }
      split; [lia |]. unfold out_le.
      destruct (Z.eqb_spec mr (2 ^ 53)), (Z.eqb_spec mr' (2 ^ 53));
        cbn [fst snd]; lia.
    - specialize (Hn' ltac:(lia)). split; [lia |]. unfold out_le.
      destruct (Z.eqb_spec mr (2 ^ 53)), (Z.eqb_spec mr' (2 ^ 53));
        cbn [fst snd]; lia. }
  destruct Hout as [Hmr0 Hout].
  destruct (Z.eq_dec mr 0) as [Hz | Hnz].
  - rewrite Hz. change (0 =? 2 ^ 53) with false. cbv iota.
    unfold pack at 1.
    assert (0 <= (if mr' =? 2 ^ 53 then 2 ^ 52 else mr'))
      by (destruct (mr' =? 2 ^ 53); lia).
    unfold pack. destruct (if mr' =? 2 ^ 53 then 2 ^ 52 else mr');
      try lia; try reflexivity.
    destruct (_ <=? _); reflexivity.
  - destruct (Hout ltac:(lia)) as [Hpos' Hole].
    apply pack_le; [| | exact Hole].
    + destruct (mr =? 2 ^ 53); lia.
    + destruct (mr' =? 2 ^ 53); lia.
Qed.

Lemma int_truediv_mono (a s a' s' : Z) :
  0 <= a <= s -> 0 < s -> 0 <= a' <= s' -> 0 < s' ->
  a * s' <= a' * s ->
  exists q q',
    int_truediv a s = Ok q /\ int_truediv a' s' = Ok q' /\
    (q <=? q')%float = true.
Proof.
  intros Ha Hs Ha' Hs' Hx.
  destruct (int_truediv_unit a' s' Ha' Hs') as (q' & Hq' & Hq0' & Hq1').
  destruct a as [|pa|pa]; try lia.
  - exists 0%float, q'. split; [| split; assumption].
    unfold int_truediv.
    replace (s =? 0) with false by (symmetry; apply Z.eqb_neq; lia).
    destruct s; try lia. reflexivity.
  - destruct s as [|ps|ps]; try lia.
    destruct a' as [|pa'|pa']; try lia.
    destruct s' as [|ps'|ps']; try lia.
    clear q' Hq' Hq0' Hq1'.
    pose proof (SFdiv_fraction pa ps) as Hf.
    pose proof (SFdiv_int_valid (Zpos pa) (Zpos ps)) as Hv.
    pose proof (SFdiv_fraction pa' ps') as Hf'.
    pose proof (SFdiv_int_valid (Zpos pa') (Zpos ps')) as Hv'.
    pose proof (SFdiv_fraction_mono pa ps pa' ps') as Hm.
    unfold int_truediv. cbn [Z2SF Z.eqb] in *.
    set (q := SFdiv prec emax (S754_finite false pa 0)
                (S754_finite false ps 0)) in *.
    set (q' := SFdiv prec emax (S754_finite false pa' 0)
                 (S754_finite false ps' 0)) in *.
    exists (SF2Prim q), (SF2Prim q').
    rewrite leb_spec, (Prim2SF_SF2Prim q Hv), (Prim2SF_SF2Prim q' Hv').
    split; [| split; [| apply Hm; lia]].
    + destruct q; [reflexivity | destruct Hf; lia | destruct Hf; lia
                  | reflexivity].
    + destruct q'; [reflexivity | destruct Hf'; lia | destruct Hf'; lia
                   | reflexivity].
Qed.

(** ** The implied probability follows the pool *)

(** X17. [p_yes] follows the pool, and [p_no] follows it the other
    way: of two markets whose outcomes hold "Yes" first at the same
    index 0 or 1, with non-negative token amounts, the one whose pool
    holds at least as many "Yes" tokens and at most as many tokens of
    the other outcome has at most the [p_yes], and at least the [p_no],
    of the other market; all four return.  This holds for the rounded
    float results, and also when a pool is empty, 0.5 lying between. *)
Theorem p_yes_monotone (m m' : OmenMarket.t) (i : Z)
    (y n y' n' : OmenOutcomeToken) :
  index (OmenMarket.outcomes m) "Yes" = Ok i ->
  index (OmenMarket.outcomes m') "Yes" = Ok i ->
  i < 2 ->
  OmenMarket.outcomeTokenAmounts m
    = Some (if i =? 0 then [y; n] else [n; y]) ->
  OmenMarket.outcomeTokenAmounts m'
    = Some (if i =? 0 then [y'; n'] else [n'; y']) ->
  0 <= y <= y' -> 0 <= n' <= n ->
  exists p p' : Probability,
    OmenMarket.p_yes m = Ok p /\ OmenMarket.p_yes m' = Ok p' /\
    (p' <=? p)%float = true /\
    OmenMarket.p_no m = Ok (1 - p)%float /\
    OmenMarket.p_no m' = Ok (1 - p')%float /\
    (1 - p <=? 1 - p')%float = true.
Proof.
  intros Hi Hi' Hlt Ha Ha' Hy Hn.
  assert (Hmain : exists p p' : Probability,
            OmenMarket.p_yes m = Ok p /\ OmenMarket.p_yes m' = Ok p' /\
            (p' <=? p)%float = true).
  {
    pose proof (index_from_lower _ _ _ _ Hi) as Hge.
    assert (Hp : OmenMarket.p_yes m =
                   if y + n =? 0 then Ok 0.5%float
                   else q <- int_truediv y (y + n) ;; Ok (1 - q)%float).
    { assert (Hcase : i = 0 \/ i = 1) by lia.
      destruct Hcase as [-> | ->]; cbn [Z.eqb] in Ha;
        rewrite (p_yes_two_amounts m _ _ Ha), Hi; simpl bind;
        [| rewrite (Z.add_comm n y)]; destruct (_ =? 0); reflexivity. }
    assert (Hp' : OmenMarket.p_yes m' =
                   if y' + n' =? 0 then Ok 0.5%float
                   else q <- int_truediv y' (y' + n') ;; Ok (1 - q)%float).
    { assert (Hcase : i = 0 \/ i = 1) by lia.
      destruct Hcase as [-> | ->]; cbn [Z.eqb] in Ha';
        rewrite (p_yes_two_amounts m' _ _ Ha'), Hi'; simpl bind;
        [| rewrite (Z.add_comm n' y')]; destruct (_ =? 0); reflexivity. }
    rewrite Hp, Hp'. clear Hp Hp'.
    destruct (Z.eqb_spec (y + n) 0) as [Hs | Hs];
      destruct (Z.eqb_spec (y' + n') 0) as [Hs' | Hs'].
    - exists 0.5%float, 0.5%float. repeat split.
    - assert (y = 0) by lia. assert (n = 0) by lia. assert (n' = 0) by lia.
      subst. rewrite Z.add_0_r.
      destruct (int_truediv_mono 1 1 y' y') as (q1 & q & Hq1 & Hq & Hle);
        try lia.
      injection Hq1 as <-.
      destruct (int_truediv_unit y' y') as (q0 & Hq0 & B0 & B1); try lia.
      rewrite Hq in Hq0. injection Hq0 as <-.
      rewrite Hq. simpl bind. exists 0.5%float, (1 - q)%float.
      split; [reflexivity | split; [reflexivity |]].
      apply (leb_trans_any _ 0%float); [| reflexivity].
      change 0%float with (1 - 1)%float.
      apply sub_antitone;
        [reflexivity | reflexivity | apply leb_unit_finite; assumption
         | exact Hle].
    - assert (y' = 0) by lia. assert (y = 0) by lia. subst.
      rewrite Z.add_0_l in *. exists 1%float, 0.5%float.
      split; [| split; reflexivity].
      unfold int_truediv.
      replace (n =? 0) with false by (symmetry; apply Z.eqb_neq; lia).
      destruct n as [|pn|pn]; try lia. reflexivity.
    - destruct (int_truediv_mono y (y + n) y' (y' + n'))
        as (q & q' & Hq & Hq' & Hle); try lia; [nia |].
      rewrite Hq, Hq'. simpl bind.
      exists (1 - q)%float, (1 - q')%float.
      split; [reflexivity | split; [reflexivity |]].
      destruct (int_truediv_unit y (y + n)) as (q0 & Hq0 & B0 & B1); try lia.
      destruct (int_truediv_unit y' (y' + n')) as (q0' & Hq0' & B0' & B1');
        try lia.
      rewrite Hq in Hq0. injection Hq0 as <-.
      rewrite Hq' in Hq0'. injection Hq0' as <-.
      apply sub_antitone;
        [reflexivity | apply leb_unit_finite; assumption
         | apply leb_unit_finite; assumption | assumption].
  }
  destruct Hmain as (p & p' & Hp & Hp' & Hle).
  assert (Hi2 : (i =? 0) = true \/ (i =? 0) = false)
    by (destruct (i =? 0); auto).
  assert (Fp : is_finite p = true).
  { destruct Hi2 as [E | E]; rewrite E in Ha;
      destruct (p_yes_unit m _ _ i Ha Hi Hlt) as (q & Hq & B0 & B1);
      try lia; rewrite Hp in Hq; injection Hq as <-;
      apply leb_unit_finite; assumption. }
  assert (Fp' : is_finite p' = true).
  { destruct Hi2 as [E | E]; rewrite E in Ha';
      destruct (p_yes_unit m' _ _ i Ha' Hi' Hlt) as (q & Hq & B0 & B1);
      try lia; rewrite Hp' in Hq; injection Hq as <-;
      apply leb_unit_finite; assumption. }
  exists p, p'. unfold OmenMarket.p_no. rewrite Hp, Hp'.
  split; [reflexivity | split; [reflexivity | split; [exact Hle |]]].
  split; [reflexivity | split; [reflexivity |]].
  apply sub_antitone; [reflexivity | assumption | assumption | exact Hle].
Qed.

(** 30 "Yes" tokens against 70, then 40 against 60. *)
Lemma p_yes_monotone_example :
  exists p p' : Probability,
    OmenMarket.p_yes (sample_market yes_no [30; 70] None None) = Ok p /\
    OmenMarket.p_yes (sample_market yes_no [40; 60] None None) = Ok p' /\
    (p' <=? p)%float = true /\
    OmenMarket.p_no (sample_market yes_no [30; 70] None None)
      = Ok (1 - p)%float /\
    OmenMarket.p_no (sample_market yes_no [40; 60] None None)
      = Ok (1 - p')%float /\
    (1 - p <=? 1 - p')%float = true.
Proof.
  apply (p_yes_monotone (sample_market yes_no [30; 70] None None)
           (sample_market yes_no [40; 60] None None) 0 30 70 40 60);
    try reflexivity; lia.
Defined.

(** ** A probability and its complement sum to one *)

Lemma round_shr_half (mrs : shr_record) (a b : Z) :
  0 < b -> shr_code mrs = sticky a b ->
  2 * (b * round_shr mrs) - 2 * a <= b /\
  2 * a - 2 * (b * round_shr mrs) <= b.
Proof.
  intros Hb H. unfold shr_code, sticky in H.
  pose proof (Z.div_mod (2 * a) b ltac:(lia)) as E.
  pose proof (Z.mod_pos_bound (2 * a) b Hb) as B.
  set (Q := 2 * a / b) in *. set (R := (2 * a) mod b) in *.
  clearbody Q R.
  destruct mrs as [m r s]. unfold round_shr.
  cbn [shr_m shr_r shr_s loc_of_shr_record] in *.
  destruct r, s; cbn [loc_of_shr_record round_nearest_even];
    destruct (Z.eqb_spec R 0); try lia;
    try (assert (Q = 2 * m) by lia; subst Q; nia);
    try (assert (Q = 2 * m + 1) by lia; subst Q; nia).
  - assert (Q = 2 * m + 1) by lia. subst Q.
    destruct (Z.even m); nia.
Qed.

Lemma rne_shift_half (m : Z) (p : positive) :
  0 <= m ->
  2 * (2 ^ Zpos p * rne_shift m (Zpos p)) - 2 * m <= 2 ^ Zpos p /\
  2 * m - 2 * (2 ^ Zpos p * rne_shift m (Zpos p)) <= 2 ^ Zpos p.
Proof.
  intros Hm. unfold rne_shift, shr. cbn [fst].
  apply round_shr_half; [apply Z.pow_pos_nonneg; lia |].
  rewrite <- (Z.mul_1_l (2 ^ Zpos p)).
  apply iter_shr_1_sticky; [assumption | lia |].
  rewrite sticky_int. unfold shr_code. cbn [shr_m shr_r shr_s]. lia.
Qed.

Lemma SFleb_one_eq (x : spec_float) :
  SFleb x (S754_finite false 4503599627370496 (-52)) = true ->
  SFleb (S754_finite false 4503599627370496 (-52)) x = true ->
  x = S754_finite false 4503599627370496 (-52).
Proof.
  destruct x as [s | s | | s m e]; try discriminate.
  - destruct s; discriminate.
  - destruct s; [discriminate |].
    unfold SFleb, SFcompare.
    rewrite (Z.compare_antisym e (-52)).
    destruct (Z.compare_spec e (-52)) as [-> | Hlt | Hgt]; cbn [CompOpp];
      try discriminate.
    rewrite !Pos.compare_cont_spec.
    rewrite (Pos.compare_antisym m 4503599627370496).
    destruct (Pos.compare_spec m 4503599627370496) as [-> | Hl | Hg];
      cbn [CompOpp Pos.switch_Eq]; try discriminate. reflexivity.
Qed.

Lemma binary_normalize_near_one (S E : Z) :
  -1074 <= E <= -54 ->
  2 ^ (- E) - 2 ^ (- E - 54) <= S <= 2 ^ (- E) + 2 ^ (- E - 54) ->
  binary_normalize prec emax S E false
  = S754_finite false 4503599627370496 (-52).
Proof.
  intros HE [Hl Hu].
  assert (Emin : emin <= E) by (unfold emin, emax, prec; lia).
  assert (Hs : 2 ^ (- E) = 2 ^ 54 * 2 ^ (- E - 54)).
  { rewrite <- Z.pow_add_r by lia. f_equal. lia. }
  assert (HL : binary_normalize prec emax (2 ^ (- E) - 2 ^ (- E - 54)) E false
               = S754_finite false 4503599627370496 (-52)).
  { replace (2 ^ (- E) - 2 ^ (- E - 54))
      with ((2 ^ 54 - 1) * 2 ^ (- E - 54)) by lia.
    replace E with (-54 - (- E - 54)) at 2 by lia.
    rewrite binary_normalize_scale;
      [vm_compute; reflexivity | lia |].
    replace (-54 - (- E - 54)) with E by lia. assumption. }
  assert (HU : binary_normalize prec emax (2 ^ (- E) + 2 ^ (- E - 54)) E false
               = S754_finite false 4503599627370496 (-52)).
  { replace (2 ^ (- E) + 2 ^ (- E - 54))
      with ((2 ^ 54 + 1) * 2 ^ (- E - 54)) by lia.
    replace E with (-54 - (- E - 54)) at 2 by lia.
    rewrite binary_normalize_scale;
      [vm_compute; reflexivity | lia |].
    replace (-54 - (- E - 54)) with E by lia. assumption. }
  apply SFleb_one_eq.
  - rewrite <- HU. apply binary_normalize_mono; assumption.
  - rewrite <- HL at 1. apply binary_normalize_mono; assumption.
Qed.

Lemma SFadd_complement (x : spec_float) :
  valid_binary x = true ->
  SFleb (S754_zero false) x = true ->
  SFleb x (S754_finite false 4503599627370496 (-52)) = true ->
  SFadd prec emax x
    (SFsub prec emax (S754_finite false 4503599627370496 (-52)) x)
  = S754_finite false 4503599627370496 (-52).
Proof.
  intros V H0 H1.
  destruct x as [s | s | | s mx ex]; try discriminate.
  - destruct s; vm_compute; reflexivity.
  - destruct s; discriminate.
  - destruct s; [discriminate |]. clear H0.
    pose proof (bounded_canonical mx ex V) as (Hmin & Hd & Hn).
    assert (Hmin' : -1074 <= ex) by exact Hmin.
    pose proof (digits2_pos_bounds mx) as [Hlo Hhi].
    assert (Hmx : Zpos mx < 2 ^ 53).
    { assert (2 ^ Zpos (digits2_pos mx) <= 2 ^ 53)
        by (apply Z.pow_le_mono_r; lia). lia. }
    unfold SFleb, SFcompare in H1.
    destruct (Z.compare_spec ex (-52)) as [-> | Hlt | Hgt];
      [| | discriminate].
    + rewrite Pos.compare_cont_spec in H1. cbn [Pos.switch_Eq] in H1.
      assert (Hd53 : Zpos (digits2_pos mx) = 53)
        by (apply Hn; unfold emin, emax, prec; lia).
      rewrite Hd53 in Hlo. change (2 ^ (53 - 1)) with 4503599627370496 in Hlo.
      destruct (Pos.compare_spec mx 4503599627370496) as [-> | Hl | Hg];
        [vm_compute; reflexivity
        | exfalso; apply Pos2Z.pos_lt_pos in Hl; clear - Hlo Hl; lia
        | discriminate H1].
    + clear H1. cbn [SFsub cond_Zopp].
      rewrite Z.min_r by lia.
      rewrite !shl_align_value by lia.
      rewrite Z.sub_diag. change (2 ^ 0) with 1. rewrite Z.mul_1_r.
      assert (HD : 4503599627370496 * 2 ^ (-52 - ex) = 2 ^ (- ex)).
      { change 4503599627370496 with (2 ^ 52).
        rewrite <- Z.pow_add_r by lia. f_equal. lia. }
      rewrite HD.
      assert (H53 : 2 ^ 53 <= 2 ^ (- ex)) by (apply Z.pow_le_mono_r; lia).
      destruct (2 ^ (- ex) - Zpos mx) as [|pd|pd] eqn:ED; try lia.
      cbn [binary_normalize].
      rewrite binary_round_out by assumption.
      pose proof (round_out_pos (Zpos pd) ex ltac:(lia) Hmin) as Hpos.
      pose proof (digits2_pos_bounds pd) as [Hdl Hdh].
      assert (Hdd : Zpos (digits2_pos pd) <= - ex).
      { apply (Zdigits2_upper (Zpos pd) (- ex)); lia. }
      unfold round_out in *. cbn [Zdigits2] in *.
      set (d := Zpos (digits2_pos pd)) in *.
      rewrite fexp_eq in *.
      destruct (Z.leb_spec d 53) as [Hsm | Hlg]; cbn [fst snd] in *.
      * set (F := Z.max (d + ex - 53) (-1074)) in *.
        assert (HF : F <= ex) by (unfold F; lia).
        assert (HF' : -1074 <= F) by (unfold F; lia).
        destruct (Zpos pd * 2 ^ (ex - F)) as [|pr|pr] eqn:EP; try lia.
        unfold pack.
        replace (F <=? emax - prec) with true
          by (symmetry; apply Z.leb_le; unfold emax, prec; lia).
        cbn [SFadd cond_Zopp]. rewrite Z.min_r by lia.
        rewrite !shl_align_value by lia.
        rewrite Z.sub_diag. change (2 ^ 0) with 1. rewrite Z.mul_1_r.
        rewrite <- EP.
        replace (Zpos mx * 2 ^ (ex - F) + Zpos pd * 2 ^ (ex - F))
          with (2 ^ (- ex) * 2 ^ (ex - F)) by lia.
        rewrite <- Z.pow_add_r by lia.
        replace (- ex + (ex - F)) with (- F) by lia.
        rewrite <- (Z.mul_1_l (2 ^ (- F))).
        replace F with (0 - (- F)) at 2 by lia.
        rewrite binary_normalize_scale; [vm_compute; reflexivity | lia |].
        replace (0 - (- F)) with F by lia.
        unfold emin, emax, prec. lia.
      * assert (HF : Z.max (d + ex - 53) (-1074) = d + ex - 53) by lia.
        rewrite HF in *. clear HF.
        pose proof (rne_shift_normal (Zpos pd) d Hlg (conj Hdl Hdh)) as Hmr.
        destruct (d - 53) as [|k|k] eqn:Ek; try lia.
        pose proof (rne_shift_half (Zpos pd) k ltac:(lia)) as [Hh1 Hh2].
        set (mr := rne_shift (Zpos pd) (Zpos k)) in *.
        assert (Hk : 2 * 2 ^ Zpos k <= 2 * 2 ^ (- ex - 54) * 2).
        { replace (2 * 2 ^ (- ex - 54)) with (2 ^ (- ex - 53)).
          - assert (2 ^ Zpos k <= 2 ^ (- ex - 53))
              by (apply Z.pow_le_mono_r; lia). lia.
          - replace (- ex - 53) with (1 + (- ex - 54)) by lia.
            rewrite Z.pow_add_r by lia. reflexivity. }
        assert (Hsum : forall M E',
                  0 < M -> E' <= emax - prec -> ex <= E' ->
                  M * 2 ^ (E' - ex) = mr * 2 ^ Zpos k ->
                  SFadd prec emax (S754_finite false mx ex) (pack false M E')
                  = S754_finite false 4503599627370496 (-52)).
        { intros M E' HM HE' Hex Hval.
          destruct M as [|pm|pm]; try lia. unfold pack.
          replace (E' <=? emax - prec) with true
            by (symmetry; apply Z.leb_le; assumption).
          cbn [SFadd cond_Zopp]. rewrite Z.min_l by lia.
          rewrite !shl_align_value by lia.
          rewrite Z.sub_diag. change (2 ^ 0) with 1. rewrite Z.mul_1_r.
          rewrite Hval.
          apply binary_normalize_near_one; [lia |].
          set (u := 2 ^ Zpos k) in *. set (v := 2 ^ (- ex - 54)) in *.
          set (w := 2 ^ (- ex)) in *. clearbody u v w. lia. }
        destruct (Z.eqb_spec mr (2 ^ 53)) as [Hc | Hc]; cbn [fst snd].
        -- apply Hsum; try (unfold emax, prec; lia).
           rewrite Hc.
           replace (d + ex - 53 + 1 - ex) with (1 + Zpos k) by lia.
           rewrite Z.pow_add_r by lia. change (2 ^ 1) with 2.
           change (2 ^ 53) with (2 ^ 52 * 2). lia.
        -- apply Hsum; try (unfold emax, prec; lia).
           replace (d + ex - 53 - ex) with (Zpos k) by lia. reflexivity.
Qed.

Lemma unit_complement_sum (p : float) :
  (0 <=? p)%float = true -> (p <=? 1)%float = true ->
  (p + (1 - p))%float = 1%float.
Proof.
  rewrite !leb_spec. intros H0 H1.
  apply Prim2SF_inj. rewrite add_spec, sub_spec.
  change (Prim2SF 1) with (S754_finite false 4503599627370496 (-52)) in *.
  change (Prim2SF 0) with (S754_zero false) in H0.
  apply SFadd_complement; [apply Prim2SF_valid | assumption | assumption].
Qed.

(** X18. The two probabilities sum to one, exactly: on a market with
    two non-negative token amounts whose outcomes hold "Yes" first at
    index 0 or 1, the floats that [p_yes] and [p_no] return add up, in
    float arithmetic, to 1.0 with no rounding error left. *)
Theorem p_yes_p_no_sum (m : OmenMarket.t) (a0 a1 : OmenOutcomeToken)
    (i : Z) :
  OmenMarket.outcomeTokenAmounts m = Some [a0; a1] ->
  index (OmenMarket.outcomes m) "Yes" = Ok i ->
  i < 2 ->
  0 <= a0 -> 0 <= a1 ->
  exists p p' : Probability,
    OmenMarket.p_yes m = Ok p /\
    OmenMarket.p_no m = Ok p' /\
    (p + p')%float = 1%float.
Proof.
  intros Ha Hi Hlt H0 H1.
  destruct (p_yes_unit m a0 a1 i Ha Hi Hlt H0 H1) as (p & Hp & Hp0 & Hp1).
  exists p, (1 - p)%float. unfold OmenMarket.p_no. rewrite Hp.
  split; [reflexivity | split; [reflexivity |]].
  apply unit_complement_sum; assumption.
Qed.

(** Token amounts 30 and 70: 0.7 and its complement. *)
Lemma p_yes_p_no_sum_example :
  exists p p' : Probability,
    OmenMarket.p_yes (sample_market yes_no [30; 70] None None) = Ok p /\
    OmenMarket.p_no (sample_market yes_no [30; 70] None None) = Ok p' /\
    (p + p')%float = 1%float.
Proof.
  apply (p_yes_p_no_sum (sample_market yes_no [30; 70] None None)
           30 70 0); [reflexivity | reflexivity | lia | lia | lia].
Defined.

(** ** The implied probability depends on the ratio of the amounts *)

Lemma SFleb_antisym (x y : spec_float) :
  SFleb x y = true -> SFleb y x = true ->
  x = y \/ exists s s', x = S754_zero s /\ y = S754_zero s'.
Proof.
  destruct x as [sx | sx | | sx mx ex]; destruct y as [sy | sy | | sy my ey];
    try discriminate; try (destruct sx; discriminate);
    try (destruct sy; discriminate).
  - intros _ _. right. eauto.
  - destruct sx, sy; try discriminate; intros _ _; left; reflexivity.
  - unfold SFleb, SFcompare.
    destruct sx, sy; try discriminate;
      rewrite (Z.compare_antisym ex ey), !Pos.compare_cont_spec,
        (Pos.compare_antisym mx my);
      destruct (Z.compare_spec ex ey) as [-> | Hlt | Hgt]; cbn [CompOpp];
      try discriminate;
      destruct (Pos.compare_spec mx my) as [-> | Hl | Hg];
      cbn [CompOpp Pos.switch_Eq]; try discriminate;
      intros _ _; left; reflexivity.
Qed.

Lemma int_truediv_ratio (a s a' s' : Z) :
  0 <= a <= s -> 0 < s -> 0 <= a' <= s' -> 0 < s' ->
  a * s' = a' * s ->
  int_truediv a s = int_truediv a' s'.
Proof.
  intros Ha Hs Ha' Hs' Hx.
  destruct (int_truediv_mono a s a' s') as (q & q' & Hq & Hq' & Hle);
    try lia.
  destruct (int_truediv_mono a' s' a s) as (r' & r & Hr' & Hr & Hge);
    try lia.
  rewrite Hq in Hr. injection Hr as <-.
  rewrite Hq' in Hr'. injection Hr' as <-.
  rewrite Hq, Hq'. f_equal.
  rewrite leb_spec in Hle, Hge.
  apply Prim2SF_inj.
  destruct (SFleb_antisym _ _ Hle Hge) as [E | (sq & sq' & E & E')];
    [exact E |].
  rewrite E, E'. f_equal.
  assert (Hz : forall b t v, 0 <= b <= t -> 0 < t ->
            int_truediv b t = Ok v ->
            forall sv, Prim2SF v = S754_zero sv -> sv = false).
  { intros b t v Hb Ht Hv sv Ev. revert Hv. unfold int_truediv.
    replace (t =? 0) with false by (symmetry; apply Z.eqb_neq; lia).
    destruct t as [|pt|pt]; try lia. destruct b as [|pb|pb]; try lia.
    - cbn [Z2SF SFdiv xorb]. intros [= <-].
      vm_compute in Ev. congruence.
    - pose proof (SFdiv_int_valid (Zpos pb) (Zpos pt)) as Hv.
      cbn [Z2SF] in *.
      destruct (SFdiv_fraction_out pb pt ltac:(lia))
        as (F & mrs & _ & _ & _ & _ & Eo).
      rewrite Eo in *.
      set (o := pack false _ _) in *.
      assert (Ho : forall so, o = S754_zero so -> so = false).
      { unfold o, pack. intros so.
        destruct (if round_shr mrs =? 2 ^ 53 then 2 ^ 52 else round_shr mrs);
          try discriminate; [congruence |].
        destruct (_ <=? _); discriminate. }
      destruct o as [so | so | | so mo eo] eqn:Eoo; intros H;
        try discriminate H.
      + pose proof (Ho so eq_refl). subst so.
        assert (Ev2 : v = SF2Prim (S754_zero false)) by congruence.
        rewrite Ev2, Prim2SF_SF2Prim in Ev by exact Hv. congruence.
      + assert (Ev2 : v = SF2Prim (S754_finite so mo eo)) by congruence.
        rewrite Ev2, Prim2SF_SF2Prim in Ev by exact Hv. discriminate Ev. }
  rewrite (Hz a s q Ha Hs Hq sq E), (Hz a' s' q' Ha' Hs' Hq' sq' E').
  reflexivity.
Qed.

(** [p_yes] in terms of the "Yes" amount and the other amount. *)
Lemma p_yes_pool (m : OmenMarket.t) (i : Z) (y n : OmenOutcomeToken) :
  index (OmenMarket.outcomes m) "Yes" = Ok i ->
  i < 2 ->
  OmenMarket.outcomeTokenAmounts m
    = Some (if i =? 0 then [y; n] else [n; y]) ->
  OmenMarket.p_yes m =
    if y + n =? 0 then Ok 0.5%float
    else q <- int_truediv y (y + n) ;; Ok (1 - q)%float.
Proof.
  intros Hi Hlt Ha.
  pose proof (index_from_lower _ _ _ _ Hi) as Hge.
  assert (Hcase : i = 0 \/ i = 1) by lia.
  destruct Hcase as [-> | ->]; cbn [Z.eqb] in Ha;
    rewrite (p_yes_two_amounts m _ _ Ha), Hi; simpl bind;
    [| rewrite (Z.add_comm n y)]; destruct (_ =? 0); reflexivity.
Qed.

(** X19. [p_yes] depends only on the proportion of the two amounts: two
    markets with "Yes" first at the same index 0 or 1 and with
    non-negative, not all zero, token amounts in the same proportion
    have the same [p_yes] and the same [p_no], to the last bit. *)
Theorem p_yes_ratio (m m' : OmenMarket.t) (i : Z)
    (y n y' n' : OmenOutcomeToken) :
  index (OmenMarket.outcomes m) "Yes" = Ok i ->
  index (OmenMarket.outcomes m') "Yes" = Ok i ->
  i < 2 ->
  OmenMarket.outcomeTokenAmounts m
    = Some (if i =? 0 then [y; n] else [n; y]) ->
  OmenMarket.outcomeTokenAmounts m'
    = Some (if i =? 0 then [y'; n'] else [n'; y']) ->
  0 <= y -> 0 <= n -> 0 <= y' -> 0 <= n' ->
  0 < y + n -> 0 < y' + n' ->
  y * n' = y' * n ->
  OmenMarket.p_yes m = OmenMarket.p_yes m' /\
  OmenMarket.p_no m = OmenMarket.p_no m'.
Proof.
  intros Hi Hi' Hlt Ha Ha' Hy Hn Hy' Hn' Hs Hs' Hx.
  assert (Hp : OmenMarket.p_yes m = OmenMarket.p_yes m').
  { rewrite (p_yes_pool m i y n Hi Hlt Ha),
      (p_yes_pool m' i y' n' Hi' Hlt Ha').
    destruct (Z.eqb_spec (y + n) 0); [lia |].
    destruct (Z.eqb_spec (y' + n') 0); [lia |].
    rewrite (int_truediv_ratio y (y + n) y' (y' + n')); try lia.
    reflexivity. }
  split; [exact Hp |]. unfold OmenMarket.p_no. rewrite Hp. reflexivity.
Qed.

(** Token amounts 30 and 70, or 3 and 7. *)
Lemma p_yes_ratio_example :
  OmenMarket.p_yes (sample_market yes_no [30; 70] None None) =
  OmenMarket.p_yes (sample_market yes_no [3; 7] None None).
Proof.
  apply (p_yes_ratio (sample_market yes_no [30; 70] None None)
           (sample_market yes_no [3; 7] None None) 0 30 70 3 7);
    try reflexivity; lia.
Defined.

(** X20. The ends and the middle of the range are reached exactly: on
    a market with "Yes" first at index 0 or 1 and non-negative token
    amounts, [p_yes] is 1.0 when the pool holds no "Yes" token and some
    of the other outcome, 0.0 when it holds "Yes" tokens only, and 0.5
    when it holds as many of the one as of the other. *)
Theorem p_yes_ends (m : OmenMarket.t) (i : Z) (y n : OmenOutcomeToken) :
  index (OmenMarket.outcomes m) "Yes" = Ok i ->
  i < 2 ->
  OmenMarket.outcomeTokenAmounts m
    = Some (if i =? 0 then [y; n] else [n; y]) ->
  0 <= y -> 0 <= n ->
  (y = 0 -> 0 < n -> OmenMarket.p_yes m = Ok 1%float) /\
  (n = 0 -> 0 < y -> OmenMarket.p_yes m = Ok 0%float) /\
  (y = n -> OmenMarket.p_yes m = Ok 0.5%float).
Proof.
  intros Hi Hlt Ha Hy Hn.
  rewrite (p_yes_pool m i y n Hi Hlt Ha).
  split; [| split].
  - intros -> Hpos. destruct (Z.eqb_spec (0 + n) 0); [lia |].
    rewrite (int_truediv_ratio 0 (0 + n) 0 1) by lia. reflexivity.
  - intros -> Hpos. destruct (Z.eqb_spec (y + 0) 0); [lia |].
    rewrite (int_truediv_ratio y (y + 0) 1 1) by lia. reflexivity.
  - intros <-. destruct (Z.eqb_spec (y + y) 0); [reflexivity |].
    rewrite (int_truediv_ratio y (y + y) 1 2) by lia. reflexivity.
Qed.

(** An untouched pool of 50 and 50 tokens; a pool drained of "Yes". *)
Lemma p_yes_ends_example :
  OmenMarket.p_yes (sample_market yes_no [50; 50] None None) = Ok 0.5%float /\
  OmenMarket.p_yes (sample_market yes_no [0; 80] None None) = Ok 1%float.
Proof.
  split.
  - apply (proj2 (proj2 (p_yes_ends (sample_market yes_no [50; 50] None None)
                    0 50 50 eq_refl eq_refl eq_refl
                    ltac:(lia) ltac:(lia)))).
    reflexivity.
  - apply (proj1 (p_yes_ends (sample_market yes_no [0; 80] None None)
                    0 0 80 eq_refl eq_refl eq_refl
                    ltac:(lia) ltac:(lia))); [reflexivity | lia].
Defined.

(** ** Resolution values and creation time *)

(** X21. The values of [get_resolution_enum]: it returns the "no
    resolution yet" value exactly when the market is not resolved, YES
    exactly when the market is resolved and [boolean_outcome] returns
    true, NO exactly when it is resolved and [boolean_outcome] returns
    false; it never returns CANCEL or MKT. *)
Theorem get_resolution_enum_returns (m : OmenMarket.t)
    (r : option Resolution.t) :
  (OmenMarket.get_resolution_enum m = Ok r <->
   (r = None /\ OmenMarket.is_resolved m = false) \/
   (r = Some Resolution.YES /\ OmenMarket.is_resolved m = true /\
    OmenMarket.boolean_outcome m = Ok true) \/
   (r = Some Resolution.NO /\ OmenMarket.is_resolved m = true /\
    OmenMarket.boolean_outcome m = Ok false)) /\
  OmenMarket.get_resolution_enum m <> Ok (Some Resolution.CANCEL) /\
  OmenMarket.get_resolution_enum m <> Ok (Some Resolution.MKT).
Proof.
  unfold OmenMarket.get_resolution_enum.
  destruct (OmenMarket.is_resolved m); cbn [negb].
  - destruct (OmenMarket.boolean_outcome m) as [[|] | e]; simpl bind;
      (split; [split | split; discriminate]).
    + intros [= <-]. right. left. auto.
    + intros [[_ H] | [(-> & _ & _) | (_ & _ & H)]];
        [discriminate | reflexivity | discriminate].
    + intros [= <-]. right. right. auto.
    + intros [[_ H] | [(_ & _ & H) | (-> & _ & _)]];
        [discriminate | discriminate | reflexivity].
    + discriminate.
    + intros [[_ H] | [(_ & _ & H) | (_ & _ & H)]]; discriminate.
  - split; [split | split; discriminate].
    + intros [= <-]. left. auto.
    + intros [[-> _] | [(_ & H & _) | (_ & H & _)]];
        [reflexivity | discriminate | discriminate].
Qed.

(** A market resolved to its first outcome, "Yes". *)
Lemma get_resolution_enum_returns_example :
  OmenMarket.get_resolution_enum
    (sample_market yes_no [30; 70] (Some 1700000200) (Some "0x0"))
  = Ok (Some Resolution.YES).
Proof.
  apply (proj1 (get_resolution_enum_returns
                  (sample_market yes_no [30; 70] (Some 1700000200)
                     (Some "0x0"))
                  (Some Resolution.YES))).
  right. left. repeat split.
Defined.

Section CreationTime.

Context (wei_to_xdai : Wei -> xDai).
Context {datetime : Type} (localtime : Z -> option datetime).

(** X22. The creation time of a bet and of its resolved bet are the
    same: whenever [to_generic_resolved_bet] returns, its created_time
    is the value of [creation_datetime]; and when [creation_datetime]
    raises on a bet whose market is resolved and whose chosen outcome
    decodes, [to_generic_resolved_bet] raises the same error. *)
Theorem creation_datetime_projection (b : OmenBet.t) :
  (forall r,
     OmenBet.to_generic_resolved_bet wei_to_xdai localtime b = Ok r ->
     OmenBet.creation_datetime localtime b = Ok (ResolvedBet.created_time r)) /\
  (forall e chosen,
     OmenBet.creation_datetime localtime b = Err e ->
     OmenBetFPMM.is_resolved (OmenBet.fpmm b) = true ->
     OmenBet.boolean_outcome b = Ok chosen ->
     OmenBet.to_generic_resolved_bet wei_to_xdai localtime b = Err e).
Proof.
  unfold OmenBet.creation_datetime. split.
  - unfold OmenBet.to_generic_resolved_bet, raise. intros r.
    destruct (OmenBetFPMM.is_resolved (OmenBet.fpmm b)); simpl;
      [| discriminate].
    intros H.
    apply bind_inv_ok in H. destruct H as (c & Hc & H).
    apply bind_inv_ok in H. destruct H as (d & Hd & H).
    apply bind_inv_ok in H. destruct H as (mo & Hmo & H).
    apply bind_inv_ok in H. destruct H as (ts & Hts & H).
    apply bind_inv_ok in H. destruct H as (d' & Hd' & H).
    apply bind_inv_ok in H. destruct H as (p & Hp & H).
    injection H as <-. exact Hd.
  - intros e chosen He Hres Hc.
    unfold OmenBet.to_generic_resolved_bet. rewrite Hres, Hc, He.
    reflexivity.
Qed.

End CreationTime.

(** A bet created at a time beyond the calendar, year 9999. *)
Lemma creation_datetime_projection_example :
  OmenBet.to_generic_resolved_bet wei_to_xdai_ether utc_localtime
    (OmenBet.mk "0xb1" "Will it rain?" "0xe91d" 0.5%float 0.5%float "Buy"
       (OmenBetCreator.mk "0xc0") 253402300800 10 10%float 1 0 15 "0xd2"
       resolved_yes_fpmm)
  = Err (TimestampOutOfRange 253402300800).
Proof.
  apply (proj2 (creation_datetime_projection wei_to_xdai_ether utc_localtime
                  (OmenBet.mk "0xb1" "Will it rain?" "0xe91d" 0.5%float
                     0.5%float "Buy" (OmenBetCreator.mk "0xc0") 253402300800
                     10 10%float 1 0 15 "0xd2" resolved_yes_fpmm))
           (TimestampOutOfRange 253402300800) true);
    reflexivity.
Defined.

(** ** Which side a market favours, and which bets win *)

(** X23. [p_yes] tells which side the pool favours: on a market with
    "Yes" first at index 0 or 1 and non-negative token amounts, [p_yes]
    is at least 0.5 when the pool holds at most as many "Yes" tokens as
    tokens of the other outcome, and at most 0.5 when it holds at least
    as many. *)
Theorem p_yes_favours (m : OmenMarket.t) (i : Z) (y n : OmenOutcomeToken) :
  index (OmenMarket.outcomes m) "Yes" = Ok i ->
  i < 2 ->
  OmenMarket.outcomeTokenAmounts m
    = Some (if i =? 0 then [y; n] else [n; y]) ->
  0 <= y -> 0 <= n ->
  exists p : Probability,
    OmenMarket.p_yes m = Ok p /\
    (y <= n -> (0.5 <=? p)%float = true) /\
    (n <= y -> (p <=? 0.5)%float = true).
Proof.
  intros Hi Hlt Ha Hy Hn.
  rewrite (p_yes_pool m i y n Hi Hlt Ha).
  destruct (Z.eqb_spec (y + n) 0) as [Hs | Hs].
  - exists 0.5%float. repeat split.
  - destruct (int_truediv_unit y (y + n)) as (q & Hq & B0 & B1); try lia.
    pose proof (leb_unit_finite q B0 B1) as Fq.
    rewrite Hq. simpl bind. exists (1 - q)%float.
    split; [reflexivity |]. split; intros Hle.
    + destruct (int_truediv_mono y (y + n) 1 2) as (q1 & h & Hq1 & Hh & Hm);
        try lia.
      rewrite Hq in Hq1. injection Hq1 as <-. injection Hh as <-.
      change 0.5%float with (1 - 0.5)%float at 1.
      apply sub_antitone; [reflexivity | assumption | reflexivity | exact Hm].
    + destruct (int_truediv_mono 1 2 y (y + n)) as (h & q1 & Hh & Hq1 & Hm);
        try lia.
      rewrite Hq in Hq1. injection Hq1 as <-. injection Hh as <-.
      change 0.5%float with (1 - 0.5)%float.
      apply sub_antitone; [reflexivity | reflexivity | assumption | exact Hm].
Qed.

(** 30 "Yes" tokens against 70 of "No": "Yes" is favoured. *)
Lemma p_yes_favours_example :
  exists p : Probability,
    OmenMarket.p_yes (sample_market yes_no [30; 70] None None) = Ok p /\
    (0.5 <=? p)%float = true.
Proof.
  destruct (p_yes_favours (sample_market yes_no [30; 70] None None) 0 30 70
              eq_refl eq_refl eq_refl ltac:(lia) ltac:(lia))
    as (p & Hp & Hge & _).
  exists p. split; [exact Hp | apply Hge; lia].
Defined.

Section Winning.

Context (wei_to_xdai : Wei -> xDai).


End Winning.

